(** * Coppa Brema simulator: the scoring engine and the batch driver

    A shallow embedding of [wap_calculator.py] ([find_basetime],
    [calculate_points], [format_time]) and of the row loop of
    [main_simulator.py] ([main]).

    Data is modelled as the program has it:
    - a Python [float] is a binary64 number, Rocq's primitive [float];
      operations Python takes from the C library ([pow], [fmod], [floor],
      number formatting and parsing) are computed on the exact value read
      off [Prim2SF];
    - a Python [str] is a [string]; the case and white-space functions are
      the ASCII ones (other characters are left as they are);
    - an exception is a value of [exn], and a call that may raise returns a
      [result];
    - the reference table is the parsed XML tree ([Element]), queried by the
      path text that [find_basetime] builds, through a model of
      [xml.etree.ElementPath];
    - a CSV row is the dictionary [csv.DictReader] yields: field names
      mapped to a cell, or to [None] where the line was too short. *)

From Stdlib Require Import ZArith Lia Bool List String Ascii Floats.
Import ListNotations.

Set Warnings "-inexact-float,-register-all".

Local Open Scope string_scope.
Local Open Scope Z_scope.

(** ** Python exceptions and results *)

Inductive exn_kind : Type :=
| KeyError
| ValueError
| TypeError
| AttributeError
| OverflowError
| ZeroDivisionError
| SyntaxError.

(** An exception: its class and the text [str(e)] gives. *)
Record exn : Type := mkExn { exn_class : exn_kind; exn_str : string }.

(** What a call produces: a value, a raised exception, or [NotModelled]
    where the call leaves the part of the XPath language this development
    follows (parent and descendant steps, positions, namespaces). *)
Inductive result (A : Type) : Type :=
| Ok (a : A)
| Raise (e : exn)
| NotModelled.

Arguments Ok {A} a.
Arguments Raise {A} e.
Arguments NotModelled {A}.

Definition bind {A B : Type} (c : result A) (k : A -> result B) : result B :=
  match c with
  | Ok a => k a
  | Raise e => Raise e
  | NotModelled => NotModelled
  end.

Notation "x <- c ;; k" := (bind c (fun x => k))
  (at level 61, c at next level, right associativity).

Definition raise {A : Type} (k : exn_kind) (msg : string) : result A :=
  Raise (mkExn k msg).

Definition exn_kind_eqb (a b : exn_kind) : bool :=
  match a, b with
  | KeyError, KeyError | ValueError, ValueError | TypeError, TypeError
  | AttributeError, AttributeError | OverflowError, OverflowError
  | ZeroDivisionError, ZeroDivisionError | SyntaxError, SyntaxError => true
  | _, _ => false
  end.

(** ** Python strings *)

Definition char_code (c : ascii) : Z := Z.of_N (N_of_ascii c).
Definition char_of_code (n : Z) : ascii := ascii_of_N (Z.to_N n).

Definition sq : ascii := "'"%char.
Definition dq : ascii := char_of_code 34.
Definition backslash : ascii := char_of_code 92.

(** [str.isspace] on one ASCII character. *)
Definition py_isspace (c : ascii) : bool :=
  let n := char_code c in
  ((9 <=? n) && (n <=? 13)) || ((28 <=? n) && (n <=? 32)).

Definition is_digit (c : ascii) : bool :=
  let n := char_code c in (48 <=? n) && (n <=? 57).

Definition upper_char (c : ascii) : ascii :=
  let n := char_code c in
  if (97 <=? n) && (n <=? 122) then char_of_code (n - 32) else c.

Definition lower_char (c : ascii) : ascii :=
  let n := char_code c in
  if (65 <=? n) && (n <=? 90) then char_of_code (n + 32) else c.

Fixpoint map_string (f : ascii -> ascii) (s : string) : string :=
  match s with
  | EmptyString => EmptyString
  | String c r => String (f c) (map_string f r)
  end.

(** [s.upper()] *)
Definition py_upper (s : string) : string := map_string upper_char s.

(** [s.lower()] *)
Definition py_lower (s : string) : string := map_string lower_char s.

(** [s.capitalize()]: first character upper-cased, the rest lower-cased. *)
Definition py_capitalize (s : string) : string :=
  match s with
  | EmptyString => EmptyString
  | String c r => String (upper_char c) (py_lower r)
  end.

Fixpoint lstrip (s : string) : string :=
  match s with
  | EmptyString => EmptyString
  | String c r => if py_isspace c then lstrip r else s
  end.

Fixpoint rstrip (s : string) : string :=
  match s with
  | EmptyString => EmptyString
  | String c r =>
      match rstrip r with
      | EmptyString => if py_isspace c then EmptyString else String c EmptyString
      | r' => String c r'
      end
  end.

(** [s.strip()] *)
Definition py_strip (s : string) : string := rstrip (lstrip s).

Fixpoint contains_char (c : ascii) (s : string) : bool :=
  match s with
  | EmptyString => false
  | String d r => Ascii.eqb c d || contains_char c r
  end.

Definition hex_digit (n : Z) : ascii :=
  if n <? 10 then char_of_code (48 + n) else char_of_code (87 + n).

(** One character of [repr(s)] inside the quotes [q]. *)
Definition repr_char (q : ascii) (c : ascii) : string :=
  let n := char_code c in
  if Ascii.eqb c q || Ascii.eqb c backslash then String backslash (String c EmptyString)
  else if n =? 9 then String backslash "t"
  else if n =? 10 then String backslash "n"
  else if n =? 13 then String backslash "r"
  else if (n <? 32) || (n =? 127) then
    String backslash (String "x" (String (hex_digit (n / 16)) (String (hex_digit (n mod 16)) EmptyString)))
  else String c EmptyString.

Fixpoint repr_body (q : ascii) (s : string) : string :=
  match s with
  | EmptyString => EmptyString
  | String c r => repr_char q c ++ repr_body q r
  end.

(** [repr(s)] of a string: single quotes, unless the text holds a single
    quote and no double quote. *)
Definition py_repr (s : string) : string :=
  let q := if contains_char sq s && negb (contains_char dq s) then dq else sq in
  String q (repr_body q s ++ String q EmptyString).

(** A cell of a row, or the text of an element: a string or [None]. *)
Definition py_repr_opt (v : option string) : string :=
  match v with
  | Some s => py_repr s
  | None => "None"
  end.

(** ** Python integers as text *)

Definition digit_char (d : Z) : ascii := char_of_code (48 + d).

Fixpoint dec_digits (fuel : nat) (n : Z) (acc : string) : string :=
  match fuel with
  | O => acc
  | S f =>
      let acc' := String (digit_char (n mod 10)) acc in
      if n <? 10 then acc' else dec_digits f (n / 10) acc'
  end.

(** The decimal digits of [n >= 0]. *)
Definition dec_of_nonneg (n : Z) : string :=
  dec_digits (S (Z.to_nat (Z.log2 n))) n EmptyString.

(** [str(n)] *)
Definition py_str_int (n : Z) : string :=
  if n <? 0 then String "-" (dec_of_nonneg (- n)) else dec_of_nonneg n.

Fixpoint zeros (n : nat) : string :=
  match n with
  | O => EmptyString
  | S k => String "0" (zeros k)
  end.

(** Zero padding of the format specs [0w...]: the sign first, then zeros up
    to the width [w], then the digits. *)
Definition zero_pad (w : nat) (negative : bool) (body : string) : string :=
  let sign := if negative then "-" else EmptyString in
  sign ++ zeros (w - String.length sign - String.length body) ++ body.

(** [f"{n:02d}"] *)
Definition format_02d (n : Z) : string :=
  zero_pad 2 (n <? 0) (dec_of_nonneg (Z.abs n)).

(** ** Python floats (binary64) *)

Definition sf_of (x : float) : spec_float := Prim2SF x.
Definition sf_normalize (m e : Z) (szero : bool) : spec_float :=
  binary_normalize prec emax m e szero.

(** C's truth value of a double: [x != 0.0] (true for NaN). *)
Definition truthy (x : float) : bool := negb (PrimFloat.eqb x 0).

(** [copysign(0.0, z)] *)
Definition copysign_zero (z : float) : float :=
  if get_sign z then neg_zero else zero.

(** [a / b] on Python floats. *)
Definition float_truediv (a b : float) : result float :=
  if PrimFloat.eqb b 0 then raise ZeroDivisionError "float division by zero"
  else Ok (PrimFloat.div a b).

(** The C library's [pow(x, 3.0)] at a finite positive [x], taken as the
    correctly rounded cube (the platform's function may differ from it in
    the last place); an overflow gives infinity. *)
Definition libm_pow_3 (x : float) : float :=
  match sf_of x with
  | S754_finite s m e => SF2Prim (binary_round prec emax s (m * m * m)%positive (3 * e))
  | _ => x
  end.

(** [v ** 3]: CPython's [float_pow] with the exponent 3.0. The special
    values are settled before the C library is called; a result that
    overflows raises [OverflowError]. *)
Definition float_pow_3 (v : float) : result float :=
  if is_nan v then Ok v
  else if is_infinity v then Ok v
  else if PrimFloat.eqb v 0 then Ok v
  else
    let negate_result := PrimFloat.ltb v 0 in
    let iv := if negate_result then PrimFloat.opp v else v in
    if PrimFloat.eqb iv 1 then Ok (if negate_result then (-1)%float else 1%float)
    else
      let ix := libm_pow_3 iv in
      if is_infinity ix then raise OverflowError "(34, 'Numerical result out of range')"
      else Ok (if negate_result then PrimFloat.opp ix else ix).

(** C's [fmod]: the exact remainder, with the sign of [x]. *)
Definition sf_fmod (x y : spec_float) : spec_float :=
  match x, y with
  | S754_nan, _ | _, S754_nan => S754_nan
  | S754_infinity _, _ => S754_nan
  | _, S754_zero _ => S754_nan
  | S754_zero _, _ => x
  | S754_finite _ _ _, S754_infinity _ => x
  | S754_finite sx mx ex, S754_finite _ my ey =>
      let e := Z.min ex ey in
      let X := Zpos mx * 2 ^ (ex - e) in
      let Y := Zpos my * 2 ^ (ey - e) in
      sf_normalize (cond_Zopp sx (X mod Y)) e sx
  end.

Definition fmod (x y : float) : float := SF2Prim (sf_fmod (sf_of x) (sf_of y)).

(** C's [floor]. *)
Definition sf_floor (x : spec_float) : spec_float :=
  match x with
  | S754_finite s m e =>
      if 0 <=? e then x
      else sf_normalize (cond_Zopp s (Zpos m) / 2 ^ (- e)) 0 s
  | _ => x
  end.

Definition floor (x : float) : float := SF2Prim (sf_floor (sf_of x)).

(** CPython's [_float_div_mod]: the pair ([vx // wx], [vx % wx]) for
    [wx != 0]. *)
Definition float_div_mod (vx wx : float) : float * float :=
  let mod0 := fmod vx wx in
  let div0 := PrimFloat.div (PrimFloat.sub vx mod0) wx in
  let '(div1, mod1) :=
    if truthy mod0 then
      if xorb (PrimFloat.ltb wx 0) (PrimFloat.ltb mod0 0)
      then (PrimFloat.sub div0 1, PrimFloat.add mod0 wx)
      else (div0, mod0)
    else (div0, copysign_zero wx) in
  let floordiv :=
    if truthy div1 then
      let f := floor div1 in
      if PrimFloat.ltb 0.5 (PrimFloat.sub div1 f) then PrimFloat.add f 1 else f
    else copysign_zero (PrimFloat.div vx wx) in
  (floordiv, mod1).

(** [vx // wx] *)
Definition float_floor_div (vx wx : float) : result float :=
  if PrimFloat.eqb wx 0 then raise ZeroDivisionError "float floor division by zero"
  else Ok (fst (float_div_mod vx wx)).

(** [vx % wx] *)
Definition float_rem (vx wx : float) : result float :=
  if PrimFloat.eqb wx 0 then raise ZeroDivisionError "float modulo"
  else
    let m := fmod vx wx in
    Ok (if truthy m then
          if xorb (PrimFloat.ltb wx 0) (PrimFloat.ltb m 0) then PrimFloat.add m wx else m
        else copysign_zero wx).

(** [int(x)]: truncation towards zero. *)
Definition float_to_int (x : float) : result Z :=
  match sf_of x with
  | S754_nan => raise ValueError "cannot convert float NaN to integer"
  | S754_infinity _ => raise OverflowError "cannot convert float infinity to integer"
  | S754_zero _ => Ok 0
  | S754_finite s m e =>
      Ok (cond_Zopp s (if 0 <=? e then Zpos m * 2 ^ e else Zpos m / 2 ^ (- e)))
  end.

(** Rounding of [num / den] to the nearest integer, ties to even. *)
Definition round_half_even (num den : Z) : Z :=
  let q := num / den in
  let r := num mod den in
  match 2 * r ?= den with
  | Lt => q
  | Gt => q + 1
  | Eq => if Z.even q then q else q + 1
  end.

(** The hundredths nearest to [m * 2^e] (ties to even), as ['%.2f'] rounds. *)
Definition hundredths (m : positive) (e : Z) : Z :=
  if 0 <=? e then Zpos m * 2 ^ e * 100
  else round_half_even (Zpos m * 100) (2 ^ (- e)).

(** [n] hundredths written with two decimals. *)
Definition fixed_2 (n : Z) : string :=
  dec_of_nonneg (n / 100) ++
  String "." (String (digit_char (n mod 100 / 10)) (String (digit_char (n mod 10)) EmptyString)).

(** [f"{x:05.2f}"] *)
Definition format_05_2f (x : float) : string :=
  match sf_of x with
  | S754_nan => zero_pad 5 false "nan"
  | S754_infinity s => zero_pad 5 s "inf"
  | S754_zero s => zero_pad 5 s (fixed_2 0)
  | S754_finite s m e => zero_pad 5 s (fixed_2 (hundredths m e))
  end.

(** *** [float(text)] *)

Definition digit_val (c : ascii) : Z := char_code c - 48.

(** The rest of a [digitpart] once a digit is read: digits, each possibly
    after one underscore. [acc] is the value so far, [n] the digit count. *)
Fixpoint digits_more (s : string) (acc n : Z) : Z * Z * string :=
  match s with
  | String c r =>
      if is_digit c then digits_more r (10 * acc + digit_val c) (n + 1)
      else if Ascii.eqb c "_" then
        match r with
        | String d r' =>
            if is_digit d then digits_more r' (10 * acc + digit_val d) (n + 1)
            else (acc, n, s)
        | EmptyString => (acc, n, s)
        end
      else (acc, n, s)
  | EmptyString => (acc, n, s)
  end.

Definition digitpart (s : string) (acc : Z) : option (Z * Z * string) :=
  match s with
  | String c r => if is_digit c then Some (digits_more r (10 * acc + digit_val c) 1) else None
  | EmptyString => None
  end.

Definition is_dot (c : ascii) : bool := Ascii.eqb c ".".

(** [number ::= [digitpart] "." digitpart | digitpart ["."]]: the digits as
    one integer, the count of those after the point, and the rest. *)
Definition parse_number (s : string) : option (Z * Z * string) :=
  match digitpart s 0 with
  | Some (ip, _, r1) =>
      match r1 with
      | String c r2 =>
          if is_dot c then
            match digitpart r2 ip with
            | Some (m, nf, r3) => Some (m, nf, r3)
            | None => Some (ip, 0, r2)
            end
          else Some (ip, 0, r1)
      | EmptyString => Some (ip, 0, r1)
      end
  | None =>
      match s with
      | String c r2 => if is_dot c then digitpart r2 0 else None
      | EmptyString => None
      end
  end.

Definition split_sign (s : string) : bool * string :=
  match s with
  | String c r =>
      if Ascii.eqb c "-" then (true, r)
      else if Ascii.eqb c "+" then (false, r)
      else (false, s)
  | EmptyString => (false, s)
  end.

(** [floatnumber ::= number [("e" | "E") ["+" | "-"] digitpart]]: the value
    is [m * 10^k] for the pair [(m, k)] returned. *)
Definition parse_floatnumber (s : string) : option (Z * Z) :=
  match parse_number s with
  | Some (m, nf, r) =>
      match r with
      | EmptyString => Some (m, - nf)
      | String c r' =>
          if Ascii.eqb (lower_char c) "e" then
            let '(neg, r'') := split_sign r' in
            match digitpart r'' 0 with
            | Some (ex, _, EmptyString) => Some (m, (if neg then - ex else ex) - nf)
            | _ => None
            end
          else None
      end
  | None => None
  end.

(** The binary64 number nearest to [m * 10^k] (ties to even). *)
Definition sf_of_decimal (neg : bool) (m k : Z) : spec_float :=
  match m with
  | Zpos p =>
      if 0 <=? k then sf_normalize (cond_Zopp neg (Zpos p * 10 ^ k)) 0 neg
      else SFdiv prec emax (S754_finite neg p 0) (S754_finite false (Z.to_pos (10 ^ (- k))) 0)
  | _ => S754_zero neg
  end.

(** [float(s)] for a string [s]. *)
Definition float_of_str (s : string) : result float :=
  let '(neg, u) := split_sign (py_strip s) in
  let lu := py_lower u in
  if String.eqb lu "inf" || String.eqb lu "infinity" then
    Ok (if neg then neg_infinity else infinity)
  else if String.eqb lu "nan" then Ok nan
  else
    match parse_floatnumber u with
    | Some (m, k) => Ok (SF2Prim (sf_of_decimal neg m k))
    | None => raise ValueError ("could not convert string to float: " ++ py_repr s)
    end.

(** [float(v)] where [v] is a string or [None]. *)
Definition py_float (v : option string) : result float :=
  match v with
  | Some s => float_of_str s
  | None =>
      raise TypeError "float() argument must be a string or a real number, not 'NoneType'"
  end.

(** ** The reference table: an XML tree ([xml.etree.ElementTree]) *)

Inductive Element : Type :=
  mkElement (tag : string) (attrib : list (string * string))
            (text tail : option string) (children : list Element).

Definition elem_tag (e : Element) : string :=
  match e with mkElement t _ _ _ _ => t end.
Definition elem_attrib (e : Element) : list (string * string) :=
  match e with mkElement _ a _ _ _ => a end.
Definition elem_text (e : Element) : option string :=
  match e with mkElement _ _ t _ _ => t end.
Definition elem_tail (e : Element) : option string :=
  match e with mkElement _ _ _ t _ => t end.
Definition elem_children (e : Element) : list Element :=
  match e with mkElement _ _ _ _ c => c end.

Fixpoint assoc {A : Type} (k : string) (l : list (string * A)) : option A :=
  match l with
  | [] => None
  | (k', v) :: r => if String.eqb k k' then Some v else assoc k r
  end.

(** [e.get(key)] *)
Definition elem_get (e : Element) (key : string) : option string :=
  assoc key (elem_attrib e).

Definition text_or_empty (t : option string) : string :=
  match t with Some s => s | None => EmptyString end.

(** ["".join(e.itertext())]: the text of [e] and of everything below it, in
    document order. *)
Fixpoint itertext (e : Element) : string :=
  match e with
  | mkElement _ _ text _ children =>
      text_or_empty text ++
      (fix inner (l : list Element) : string :=
         match l with
         | [] => EmptyString
         | c :: r => itertext c ++ text_or_empty (elem_tail c) ++ inner r
         end) children
  end.

Definition children_tagged (tag : string) (e : Element) : list Element :=
  filter (fun c => String.eqb (elem_tag c) tag) (elem_children e).

(** ** Path queries ([xml.etree.ElementPath]) *)

(** A token of the path: the pair the tokenizer's regular expression
    yields, an operator or quoted text first, a name second. *)
Inductive token : Type := Tok (ttype tag : string).

Definition one (c : ascii) : string := String c EmptyString.

Definition single_op (c : ascii) : bool := contains_char c ".*:[]()@=".

(** The characters of a name: [[^/\[\]\(\)@!=\s]]. *)
Definition name_char (c : ascii) : bool :=
  negb (contains_char c "/[]()@!=" || py_isspace c).

(** The text up to the first [q], and the text after it. *)
Fixpoint span_until (q : ascii) (s : string) : option (string * string) :=
  match s with
  | EmptyString => None
  | String c r =>
      if Ascii.eqb c q then Some (EmptyString, r)
      else match span_until q r with
           | Some (a, b) => Some (String c a, b)
           | None => None
           end
  end.

(** The longest run of name characters, and the text after it. *)
Fixpoint span_name (s : string) : string * string :=
  match s with
  | EmptyString => (EmptyString, EmptyString)
  | String c r =>
      if name_char c then let '(a, b) := span_name r in (String c a, b)
      else (EmptyString, s)
  end.

Definition is_empty (s : string) : bool :=
  match s with EmptyString => true | _ => false end.

(** The operators of two characters, and ["/"]. *)
Definition long_op (c : ascii) (r : string) : option (string * string) :=
  let next_is (d : ascii) :=
    match r with String x _ => Ascii.eqb x d | EmptyString => false end in
  let rest := match r with String _ r' => r' | EmptyString => r end in
  if Ascii.eqb c ":" && next_is ":"%char then Some ("::", rest)
  else if Ascii.eqb c "/" then
    if next_is "/"%char then Some ("//", rest) else Some ("/", r)
  else if Ascii.eqb c "." && next_is "."%char then Some ("..", rest)
  else if Ascii.eqb c "(" && next_is ")"%char then Some ("()", rest)
  else if Ascii.eqb c "!" && next_is "="%char then Some ("!=", rest)
  else None.

Definition plain_name (s : string) : option (string * string) :=
  let '(nm, r) := span_name s in
  if is_empty nm then None else Some (nm, r).

(** A name, with a namespace in braces before it when there is one:
    [(?:\{[^}]+\})?[^/\[\]\(\)@!=\s]+]. *)
Definition name_token (s : string) : option (string * string) :=
  match s with
  | String c r =>
      if Ascii.eqb c "{" then
        match span_until "}" r with
        | Some (ns, r') =>
            let '(nm, r'') := span_name r' in
            if is_empty ns || is_empty nm then plain_name s
            else Some (String c (ns ++ String "}" nm), r'')
        | None => plain_name s
        end
      else plain_name s
  | EmptyString => None
  end.

(** The match of the tokenizer's regular expression at the head of [s],
    when there is one: the token and the number of characters it takes.
    The alternatives are tried in the order the expression lists them:
    quoted text, operators, a name, white space. *)
Definition token_at (s : string) : option (token * nat) :=
  match s with
  | EmptyString => None
  | String c r =>
      match (if Ascii.eqb c sq || Ascii.eqb c dq then span_until c r else None) with
      | Some (v, _) => Some (Tok (String c (v ++ one c)) EmptyString, S (S (String.length v)))
      | None =>
          match long_op c r with
          | Some (op, _) => Some (Tok op EmptyString, String.length op)
          | None =>
              if single_op c then Some (Tok (one c) EmptyString, 1%nat)
              else
                match name_token s with
                | Some (nm, _) => Some (Tok EmptyString nm, String.length nm)
                | None =>
                    if py_isspace c
                    then Some (Tok EmptyString EmptyString,
                               (String.length s - String.length (lstrip s))%nat)
                    else None
                end
          end
      end
  end.

(** [xpath_tokenizer_re.findall(pattern)]: the matches from left to right.
    [skip] counts the characters still inside the last match; a character
    where nothing matches is passed over. *)
Fixpoint scan (s : string) (skip : nat) : list token :=
  match s with
  | EmptyString => []
  | String _ r =>
      match skip with
      | S k => scan r k
      | O =>
          match token_at s with
          | Some (t, n) => t :: scan r (n - 1)
          | None => scan r 0
          end
      end
  end.

Definition tokenize (path : string) : list token := scan path 0.

(** [xpath_tokenizer] (no namespace map): a name with a prefix is refused
    when the token is pulled. *)
Definition check_token (t : token) : result token :=
  match t with
  | Tok _ tag =>
      match tag with
      | String c _ =>
          if negb (Ascii.eqb c "{") && contains_char ":" tag then
            match span_until ":" tag with
            | Some (prefix, _) =>
                raise SyntaxError ("prefix " ++ py_repr prefix ++ " not found in prefix map")
            | None => Ok t
            end
          else Ok t
      | EmptyString => Ok t
      end
  end.

Inductive predicate : Type :=
| PAttr (key : string)
| PAttrEq (key value : string)
| PAttrNe (key value : string)
| PChild (tag : string)
| PTextEq (tag value : string)
| PTextNe (tag value : string).

Inductive step : Type :=
| SSelf
| SChild (tag : string)
| SStar
| SPred (p : predicate)
| SNoSelector.

Definition has_brace (s : string) : bool :=
  contains_char "{" s || contains_char "}" s.

Fixpoint all_digits (s : string) : bool :=
  match s with
  | EmptyString => true
  | String c r => is_digit c && all_digits r
  end.

(** [re.match(r"\-?\d+$", s)] on a name *)
Definition is_index (s : string) : bool :=
  let d := match s with
           | String c r => if Ascii.eqb c "-" then r else s
           | EmptyString => s
           end in
  negb (is_empty d) && all_digits d.

Definition unquote (s : string) : string :=
  match s with
  | String _ r => String.substring 0 (String.length r - 1) r
  | EmptyString => EmptyString
  end.

Definition is_quoted (s : string) : bool :=
  match s with
  | String c _ => Ascii.eqb c sq || Ascii.eqb c dq
  | EmptyString => false
  end.

(** The loop of [prepare_predicate]: the signature and the values of the
    tokens up to ["]"], or [None] when the tokens run out first. *)
Fixpoint read_predicate (ts : list token) (sig : string) (vals : list string)
  : result (option (string * list string) * list token) :=
  match ts with
  | [] => Ok (None, [])
  | t :: r =>
      t' <- check_token t ;;
      match t' with
      | Tok ttype tag =>
          if String.eqb ttype "]" then Ok (Some (sig, vals), r)
          else if is_empty ttype && is_empty tag then read_predicate r sig vals
          else if is_quoted ttype then
            read_predicate r (sig ++ one sq) (vals ++ [unquote ttype])
          else
            read_predicate r (sig ++ (if is_empty ttype then "-" else ttype)) (vals ++ [tag])
      end
  end.

Definition nth_str (n : nat) (l : list string) : string := nth n l EmptyString.

(** The predicate a signature stands for. *)
Definition predicate_of (sig : string) (vals : list string) : result predicate :=
  let v0 := nth_str 0 vals in
  let v1 := nth_str 1 vals in
  let vlast := last vals EmptyString in
  if String.eqb sig "@-" then Ok (PAttr v1)
  else if String.eqb sig ("@-=" ++ one sq) then Ok (PAttrEq v1 vlast)
  else if String.eqb sig ("@-!=" ++ one sq) then Ok (PAttrNe v1 vlast)
  else if String.eqb sig "-" && negb (is_index v0) then
    if has_brace v0 then NotModelled else Ok (PChild v0)
  else if String.eqb sig (".=" ++ one sq) then Ok (PTextEq EmptyString vlast)
  else if String.eqb sig (".!=" ++ one sq) then Ok (PTextNe EmptyString vlast)
  else if String.eqb sig ("-=" ++ one sq) && negb (is_index v0) then
    if has_brace v0 then NotModelled else Ok (PTextEq v0 vlast)
  else if String.eqb sig ("-!=" ++ one sq) && negb (is_index v0) then
    if has_brace v0 then NotModelled else Ok (PTextNe v0 vlast)
  else if String.eqb sig "-" || String.eqb sig "-()" || String.eqb sig "-()-" then NotModelled
  else raise SyntaxError "invalid predicate".

(** [ops[token[0]](next, token)]: the step a token starts, and the tokens
    left after it. *)
Definition prepare (t : token) (rest : list token) : result (step * list token) :=
  match t with
  | Tok ttype tag =>
      if is_empty ttype then
        if has_brace tag then NotModelled else Ok (SChild tag, rest)
      else if String.eqb ttype "*" then Ok (SStar, rest)
      else if String.eqb ttype "." then Ok (SSelf, rest)
      else if String.eqb ttype ".." || String.eqb ttype "//" then NotModelled
      else if String.eqb ttype "[" then
        pr <- read_predicate rest EmptyString [] ;;
        match pr with
        | (Some (sig, vals), rest') => p <- predicate_of sig vals ;; Ok (SPred p, rest')
        | (None, rest') => Ok (SNoSelector, rest')
        end
      else raise KeyError (py_repr ttype)
  end.

(** The loop of [iterfind] that builds the selector, from the token [t]. *)
Fixpoint compile_steps (fuel : nat) (t : token) (rest : list token) : result (list step) :=
  match fuel with
  | O => Ok []
  | S f =>
      sr <- prepare t rest ;;
      let '(st, rest') := sr in
      match rest' with
      | [] => Ok [st]
      | t1 :: r1 =>
          t1' <- check_token t1 ;;
          match t1' with
          | Tok ttype _ =>
              if String.eqb ttype "/" then
                match r1 with
                | [] => Ok [st]
                | t2 :: r2 =>
                    t2' <- check_token t2 ;;
                    more <- compile_steps f t2' r2 ;;
                    Ok (st :: more)
                end
              else
                more <- compile_steps f t1' r1 ;;
                Ok (st :: more)
          end
      end
  end.

Definition holds (p : predicate) (e : Element) : bool :=
  let text_is (v : string) (c : Element) := String.eqb (itertext c) v in
  match p with
  | PAttr k => match elem_get e k with Some _ => true | None => false end
  | PAttrEq k v => match elem_get e k with Some a => String.eqb a v | None => false end
  | PAttrNe k v => match elem_get e k with Some a => negb (String.eqb a v) | None => false end
  | PChild t => existsb (fun _ => true) (children_tagged t e)
  | PTextEq t v =>
      if is_empty t then text_is v e else existsb (text_is v) (children_tagged t e)
  | PTextNe t v =>
      if is_empty t then negb (text_is v e)
      else existsb (fun c => negb (text_is v c)) (children_tagged t e)
  end.

(** [result = select(context, result)] for each selector in turn. *)
Fixpoint run_steps (sts : list step) (res : list Element) : result (list Element) :=
  match sts with
  | [] => Ok res
  | st :: more =>
      match st with
      | SSelf => run_steps more res
      | SChild t => run_steps more (flat_map (children_tagged t) res)
      | SStar => run_steps more (flat_map elem_children res)
      | SPred p => run_steps more (filter (holds p) res)
      | SNoSelector => raise TypeError "'NoneType' object is not callable"
      end
  end.

Fixpoint last_char (s : string) : option ascii :=
  match s with
  | EmptyString => None
  | String c r => match r with EmptyString => Some c | _ => last_char r end
  end.

(** [path[-1:] == "/"] *)
Definition ends_with_slash (s : string) : bool :=
  match last_char s with
  | Some c => Ascii.eqb c "/"
  | None => false
  end.

(** [ElementPath.iterfind(elem, path)], as the list of its results; [None]
    where [iterfind] returns no iterator (an empty path). *)
Definition iterfind (elem : Element) (path : string) : result (option (list Element)) :=
  let path := if ends_with_slash path then path ++ "*" else path in
  match path with
  | String c _ =>
      if Ascii.eqb c "/" then raise SyntaxError "cannot use absolute path on element"
      else
        match tokenize path with
        | [] => Ok None
        | t :: rest =>
            t' <- check_token t ;;
            sts <- compile_steps (S (List.length rest)) t' rest ;;
            res <- run_steps sts [elem] ;;
            Ok (Some res)
        end
  | EmptyString => Ok None
  end.

(** [elem.find(path)]: the first match, or [None]. *)
Definition Element_find (elem : Element) (path : string) : result (option Element) :=
  r <- iterfind elem path ;;
  match r with
  | Some l => Ok (hd_error l)
  | None => raise TypeError "'NoneType' object is not an iterator"
  end.

(** ** wap_calculator.py *)

(** The query [find_basetime] formats: the three texts are spliced into
    the path between single quotes, as they are. *)
Definition basetime_query (course gender stroke : string) : string :=
  "./course[@type='" ++ py_upper course ++ "']/" ++
  "gender[@name='" ++ py_capitalize gender ++ "']/" ++
  "event[stroke='" ++ stroke ++ "']".

(** [find_basetime(root, course, gender, stroke)]: the base time, or
    [None]. *)
Definition find_basetime (root : Element) (course gender stroke : string)
  : result (option float) :=
  let query := basetime_query course gender stroke in
  event_node <- Element_find root query ;;
  match event_node with
  | Some ev =>
      basetime_node <- Element_find ev "basetime_seconds" ;;
      match basetime_node with
      | Some bt => v <- py_float (elem_text bt) ;; Ok (Some v)
      | None => Ok None
      end
  | None => Ok None
  end.

(** [calculate_points(basetime, input_time)] *)
Definition calculate_points (basetime input_time : float) : result float :=
  if PrimFloat.leb input_time 0 then Ok 0%float
  else
    ratio <- float_truediv basetime input_time ;;
    cube <- float_pow_3 ratio ;;
    Ok (PrimFloat.mul 1000 cube).

(** [format_time(seconds)] *)
Definition format_time (seconds : float) : result string :=
  if PrimFloat.ltb seconds 0 then Ok "00:00.00"
  else
    q <- float_floor_div seconds 60 ;;
    minutes <- float_to_int q ;;
    remaining_seconds <- float_rem seconds 60 ;;
    Ok (format_02d minutes ++ ":" ++ format_05_2f remaining_seconds).

(** ** main_simulator.py: the row loop of [main] *)

(** A row as [csv.DictReader] yields it: the header's field names, each
    mapped to the cell of that column, or to [None] when the line has
    fewer cells than the header. *)
Definition Row : Type := list (string * option string).

(** [row[key]] *)
Definition row_get (row : Row) (key : string) : result (option string) :=
  match assoc key row with
  | Some v => Ok v
  | None => raise KeyError (py_repr key)
  end.

(** [v.strip()] on a cell. *)
Definition cell_strip (v : option string) : result string :=
  match v with
  | Some s => Ok (py_strip s)
  | None => raise AttributeError "'NoneType' object has no attribute 'strip'"
  end.

(** [find_basetime] called with cells: [course.upper()] and
    [gender.capitalize()] need strings, and a [None] stroke is formatted
    as the text [None]. *)
Definition find_basetime_cells (root : Element) (course gender stroke : option string)
  : result (option float) :=
  match course, gender with
  | None, _ => raise AttributeError "'NoneType' object has no attribute 'upper'"
  | Some _, None => raise AttributeError "'NoneType' object has no attribute 'capitalize'"
  | Some c, Some g => find_basetime root c g (match stroke with Some s => s | None => "None" end)
  end.

(** An entry of [processed_results]. *)
Record Scored : Type := mkScored {
  sc_name : string;
  sc_surname : string;
  sc_stroke : option string;
  sc_time : string;
  sc_points : float
}.

(** The loop's variables. *)
Record state : Type := mkState {
  total_points : float;
  processed_results : list Scored;
  failed_rows : list string
}.

(** The body of the [try] up to the points: name, surname, stroke, time
    and points of the row. *)
Definition score_row (root : Element) (row : Row)
  : result (string * string * option string * float * float) :=
  name_cell <- row_get row "name" ;;
  name <- cell_strip name_cell ;;
  surname_cell <- row_get row "surname" ;;
  surname <- cell_strip surname_cell ;;
  course <- row_get row "course" ;;
  gender <- row_get row "gender" ;;
  stroke <- row_get row "stroke" ;;
  time_cell <- row_get row "time" ;;
  time <- py_float time_cell ;;
  if is_empty name || is_empty surname then raise ValueError "Name or surname is missing"
  else
    basetime <- find_basetime_cells root course gender stroke ;;
    match basetime with
    | None => raise ValueError "Base time not found for event."
    | Some b =>
        points <- calculate_points b time ;;
        Ok (name, surname, stroke, time, points)
    end.

(** [except (KeyError, ValueError)] *)
Definition caught (e : exn) : bool :=
  match exn_class e with
  | KeyError | ValueError => true
  | _ => false
  end.

Fixpoint join_comma (l : list string) : string :=
  match l with
  | [] => EmptyString
  | [x] => x
  | x :: r => x ++ ", " ++ join_comma r
  end.

(** [str(row)] *)
Definition repr_row (row : Row) : string :=
  "{" ++ join_comma (map (fun kv => py_repr (fst kv) ++ ": " ++ py_repr_opt (snd kv)) row) ++ "}".

(** [f"Row {row_num}: Invalid data - {e} -> {row}"] *)
Definition failed_entry (row_num : Z) (e : exn) (row : Row) : string :=
  "Row " ++ py_str_int row_num ++ ": Invalid data - " ++ exn_str e ++ " -> " ++ repr_row row.

Definition reject (st : state) (row_num : Z) (e : exn) (row : Row) : state :=
  mkState (total_points st) (processed_results st)
          (failed_rows st ++ [failed_entry row_num e row]).

(** One turn of the loop. The total is updated before the entry is built,
    and [format_time] is called while it is built. An exception other than
    [KeyError] and [ValueError] leaves the loop. *)
Definition process_row (root : Element) (st : state) (row_num : Z) (row : Row)
  : result state :=
  match score_row root row with
  | Ok (name, surname, stroke, time, points) =>
      let total := PrimFloat.add (total_points st) points in
      match format_time time with
      | Ok t =>
          Ok (mkState total
                (processed_results st ++ [mkScored name surname stroke t points])
                (failed_rows st))
      | Raise e =>
          if caught e then Ok (reject (mkState total (processed_results st) (failed_rows st)) row_num e row)
          else Raise e
      | NotModelled => NotModelled
      end
  | Raise e => if caught e then Ok (reject st row_num e row) else Raise e
  | NotModelled => NotModelled
  end.

(** [for row_num, row in enumerate(reader, row_num): ...] *)
Fixpoint run_rows (root : Element) (st : state) (row_num : Z) (rows : list Row)
  : result state :=
  match rows with
  | [] => Ok st
  | row :: rest =>
      st' <- process_row root st row_num row ;;
      run_rows root st' (row_num + 1) rest
  end.

Definition initial_state : state := mkState 0%float [] [].

(** The loop of [main] over the rows of the input file, numbered from 2:
    the total, the scored results and the skipped rows it leaves for the
    report. *)
Definition main (root : Element) (rows : list Row) : result state :=
  run_rows root initial_state 2 rows.

(** ** The table the tree stands for

    The reference table of the specification: course, then gender, then
    the events of that gender, keyed by the text of their [stroke] child.
    These definitions follow the specification's words; the theorems
    compare [find_basetime], which goes through the path text, with
    them. *)

(** The text has no apostrophe. *)
Definition no_quote (s : string) : Prop := contains_char sq s = false.

Definition has_attr (key value : string) (e : Element) : bool :=
  match elem_get e key with
  | Some a => String.eqb a value
  | None => false
  end.

Definition has_stroke (stroke : string) (e : Element) : bool :=
  existsb (fun c => String.eqb (itertext c) stroke) (children_tagged "stroke" e).

(** The events filed under a course and a gender, in document order. *)
Definition table_events (root : Element) (course gender : string) : list Element :=
  flat_map (children_tagged "event")
    (filter (has_attr "name" gender)
       (flat_map (children_tagged "gender")
          (filter (has_attr "type" course) (children_tagged "course" root)))).

(** The entry of a key: the first event of that course and gender with
    that stroke. *)
Definition table_event (root : Element) (course gender stroke : string) : option Element :=
  hd_error (filter (has_stroke stroke) (table_events root course gender)).

(** The base time an entry holds: its first [basetime_seconds] child, read
    by [float]. *)
Definition event_basetime (ev : Element) : result (option float) :=
  match hd_error (children_tagged "basetime_seconds" ev) with
  | Some bt => v <- py_float (elem_text bt) ;; Ok (Some v)
  | None => Ok None
  end.

(** The table as a map from keys to base times. *)
Definition table_lookup (root : Element) (course gender stroke : string)
  : result (option float) :=
  match table_event root course gender stroke with
  | Some ev => event_basetime ev
  | None => Ok None
  end.

(** *** Sample data *)

Definition leaf (tag text : string) : Element :=
  mkElement tag [] (Some text) None [].

Definition event (stroke basetime : string) : Element :=
  mkElement "event" [] None None [leaf "stroke" stroke; leaf "basetime_seconds" basetime].

Definition table_of (course gender : string) (events : list Element) : Element :=
  mkElement "basetimes" [] None None
    [mkElement "course" [("type", course)] None None
       [mkElement "gender" [("name", gender)] None None events]].

(** A table with the entry (SCM, Men, "50m Freestyle") -> 21.32. *)
Definition sample_table : Element :=
  table_of "SCM" "Men" [event "50m Freestyle" "21.32"; event "100m Freestyle" "46.86"].

(** The same entries, filed under the course [scm]. *)
Definition lower_case_table : Element :=
  table_of "scm" "Men" [event "50m Freestyle" "21.32"; event "100m Freestyle" "46.86"].

Definition sample_row (name surname course gender stroke time : string) : Row :=
  [("name", Some name); ("surname", Some surname); ("course", Some course);
   ("gender", Some gender); ("stroke", Some stroke); ("time", Some time)].

(** ** Rounding to nearest, spelled out

    What [binary_round_aux] computes, in terms of integers: the number
    rounded is [(m + rho / delta) * 2^e], with [0 <= rho < delta]. *)

(** Where [rho / delta] lies in the unit interval. *)
Definition loc_of_frac (rho delta : Z) : location :=
  if rho =? 0 then loc_Exact else loc_Inexact (2 * rho ?= delta).

(** Whether [k + rho / delta] rounds up to [k + 1] (ties to even). *)
Definition rounds_up (k rho delta : Z) : bool :=
  match 2 * rho ?= delta with
  | Gt => true
  | Eq => Z.odd k
  | Lt => false
  end.

Definition rne (k rho delta : Z) : Z :=
  if rounds_up k rho delta then k + 1 else k.

(** The float of a mantissa and an exponent: zero, finite, or the
    infinity when the exponent is out of range. *)
Definition build_float (s : bool) (m e : Z) : spec_float :=
  match m with
  | Z0 => S754_zero s
  | Zpos p => if e <=? emax - prec then S754_finite s p e else S754_infinity s
  | Zneg _ => S754_nan
  end.

Definition two_p : Z := 2 ^ prec.
Definition half_p : Z := 2 ^ (prec - 1).

(** The canonical exponent of [m * 2^e], and the integer and the fraction
    of [(m + rho / delta) * 2^e] at that exponent. *)
Definition cexp (m e : Z) : Z := fexp prec emax (Zdigits2 m + e).
Definition int_part (m e : Z) : Z := m / 2 ^ (cexp m e - e).
Definition frac_num (m e rho delta : Z) : Z := (m mod 2 ^ (cexp m e - e)) * delta + rho.
Definition frac_den (m e delta : Z) : Z := 2 ^ (cexp m e - e) * delta.

(** The rounded mantissa and exponent: the integer part rounded to
    nearest; a mantissa that reaches [2^prec] moves to the next exponent. *)
Definition rounded (m e rho delta : Z) : Z * Z :=
  let m2 := rne (int_part m e) (frac_num m e rho delta) (frac_den m e delta) in
  if m2 =? two_p then (half_p, cexp m e + 1) else (m2, cexp m e).

(** The order of two rounded results, as [SFcompare] reads it. *)
Definition out_le (a b : Z * Z) : Prop :=
  fst a = 0 \/
  (0 < fst a /\ 0 < fst b /\ (snd a < snd b \/ (snd a = snd b /\ fst a <= fst b))).

(** [N / delta * 2^e <= N' / delta' * 2^e'], with the powers of two taken
    from the base [B] (at most [e] and [e']). *)
Definition vle (B : Z) (N delta e N' delta' e' : Z) : Prop :=
  N * delta' * 2 ^ (e - B) <= N' * delta * 2 ^ (e' - B).

(** ** Sample rows

    Rows of the input file, for the examples of the row loop. *)

Definition good_row : Row := sample_row "Mario" "Rossi" "SCM" "Men" "50m Freestyle" "20.16".

(** A row whose time is the text [nan], which [float] accepts. *)
Definition nan_row : Row := sample_row "Luigi" "Verdi" "SCM" "Men" "50m Freestyle" "nan".

(** A line cut after the surname: [csv.DictReader] fills the other fields
    with [None]. *)
Definition short_row : Row :=
  [("name", Some "Luigi"); ("surname", Some "Verdi"); ("course", None);
   ("gender", None); ("stroke", None); ("time", None)].

(** A row with an empty surname. *)
Definition nameless_row : Row := sample_row "Anna" "  " "SCM" "Men" "50m Freestyle" "22.5".

(** A row of a file whose header has no [time] column. *)
Definition untimed_row : Row :=
  [("name", Some "Mario"); ("surname", Some "Rossi"); ("course", Some "SCM");
   ("gender", Some "Men"); ("stroke", Some "50m Freestyle")].

(** ** The row loop, row by row

    What the specification says of the batch: which rows are scored, in
    which order, and what the total is. *)

(** The fields a row must have. *)
Definition required_fields : list string :=
  ["name"; "surname"; "course"; "gender"; "stroke"; "time"].

(** The points of the scored results, added up in order from 0.0. *)
Definition sum_points (l : list Scored) : float :=
  fold_left (fun acc sc => PrimFloat.add acc (sc_points sc)) l 0%float.

(** The entry of a row that is scored: fields read, points computed, time
    formatted. *)
Definition row_scored (root : Element) (row : Row) : option Scored :=
  match score_row root row with
  | Ok (name, surname, stroke, time, points) =>
      match format_time time with
      | Ok t => Some (mkScored name surname stroke t points)
      | _ => None
      end
  | _ => None
  end.

(** The entries of the rows that are scored, in the order of the rows. *)
Definition scored_rows (root : Element) (rows : list Row) : list Scored :=
  flat_map (fun row => match row_scored root row with Some sc => [sc] | None => [] end) rows.

(** A row whose points are computed and whose time [format_time] then
    refuses. *)
Definition late_reject (root : Element) (row : Row) : Prop :=
  exists name surname stroke time points e,
    score_row root row = Ok (name, surname, stroke, time, points) /\
    format_time time = Raise e.

(** ** The query of find_basetime, token by token *)

(** The token of a quoted value of the path. *)
Definition quoted (v : string) : token := Tok (String sq (v ++ one sq)) EmptyString.

(** The selector the query compiles to. *)
Definition query_steps (course gender stroke : string) : list step :=
  [SSelf; SChild "course"; SPred (PAttrEq "type" course);
   SChild "gender"; SPred (PAttrEq "name" gender);
   SChild "event"; SPred (PTextEq "stroke" stroke)].

(** ** Floats as mantissa and exponent *)

(** The record of [shr] stands for the integer [k] and the fraction
    [rho / delta]. *)
Definition rec_ok (r : shr_record) (k rho delta : Z) : Prop :=
  shr_m r = k /\ loc_of_shr_record r = loc_of_frac rho delta.

(** A mantissa and exponent in canonical form: at most [prec] digits, and
    exactly [prec] above the smallest exponent. *)
Definition canonical_pair (M E : Z) : Prop :=
  0 <= M < two_p /\ -1074 <= E /\ (-1074 < E -> half_p <= M).

(** The exponent and the shift of the quotient in [SFdiv_core_binary]. *)
Definition div_exp (mx : positive) (ex : Z) (my : positive) (ey : Z) : Z :=
  Z.min (fexp prec emax (Zdigits2 (Zpos mx) + ex - (Zdigits2 (Zpos my) + ey))) (ex - ey).

Definition div_shift (mx : positive) (ex : Z) (my : positive) (ey : Z) : Z :=
  ex - ey - div_exp mx ex my ey.

(** [m * 2^e <= m' * 2^e'] *)
Definition val_le (m e m' e' : Z) : Prop :=
  m * 2 ^ (e - Z.min e e') <= m' * 2 ^ (e' - Z.min e e').

(** [m * 2^e = m' * 2^e'] *)
Definition val_eq (m e m' e' : Z) : Prop :=
  val_le m e m' e' /\ val_le m' e' m e.

(** The canonical mantissa and exponent of [m * 2^e]. *)
Definition canon (m e : Z) : Z * Z := (m * 2 ^ (e - cexp m e), cexp m e).

(** The float of value [m * 2^e], for [m] of at most [prec] digits. *)
Definition exact_float (m e : Z) : spec_float :=
  build_float false (fst (canon m e)) (snd (canon m e)).

(** A float that is zero, positive or the positive infinity. *)
Definition nonneg (x : spec_float) : Prop :=
  match x with
  | S754_zero false | S754_infinity false | S754_finite false _ _ => True
  | _ => False
  end.

(** A float as rounding returns it. *)
Definition rounded_float (x : spec_float) : Prop :=
  exists M E, canonical_pair M E /\ x = build_float false M E.

(** A positive float: finite and positive, or the positive infinity. *)
Definition positive_float (x : spec_float) : Prop :=
  match x with
  | S754_infinity false | S754_finite false _ _ => valid_binary x = true
  | _ => False
  end.

(** ** The steps of calculate_points on the specification of floats *)

(** [x ** 3] where it is computed by [libm_pow_3]; zero and the infinity
    are kept. *)
Definition sf_pow3 (x : spec_float) : spec_float :=
  match x with
  | S754_finite s m e => binary_round prec emax s (m * m * m) (3 * e)
  | _ => x
  end.

(** [1000 * x] *)
Definition sf_mul1000 (x : spec_float) : spec_float :=
  SFmul prec emax (Prim2SF 1000) x.

(** [1000 * (b / t) ** 3] *)
Definition sf_points (b t : spec_float) : spec_float :=
  sf_mul1000 (sf_pow3 (SFdiv prec emax b t)).

(** ** The form mm:ss.cc

    The minutes and the hundredths of a second of the exact value of a
    float, and the text the specification gives them. *)

(** The whole minutes in [s] seconds: the floor of [s / 60], exactly. *)
Definition exact_minutes (s : float) : Z :=
  match Prim2SF s with
  | S754_finite false m e =>
      if 0 <=? e then Zpos m * 2 ^ e / 60 else Zpos m / (60 * 2 ^ (- e))
  | _ => 0
  end.

(** The seconds left over the whole minutes, in hundredths, rounded to the
    nearest (ties to even). *)
Definition exact_hundredths (s : float) : Z :=
  match Prim2SF s with
  | S754_finite false m e =>
      if 0 <=? e then (Zpos m * 2 ^ e) mod 60 * 100
      else round_half_even (Zpos m mod (60 * 2 ^ (- e)) * 100) (2 ^ (- e))
  | _ => 0
  end.

(** The two decimal digits of [k], for [0 <= k < 100]. *)
Definition two_digits (k : Z) : string :=
  String (digit_char (k / 10)) (String (digit_char (k mod 10)) EmptyString).

(** The form [mm:ss.cc] of the specification. *)
Definition mm_ss_cc (minutes hundredths : Z) : string :=
  two_digits minutes ++ ":" ++ two_digits (hundredths / 100) ++ "." ++
  two_digits (hundredths mod 100).

(** The quotient [_float_div_mod] returns, from the quotient before it is
    snapped to an integer. *)
Definition floordiv_of (div1 fallback : float) : float :=
  if truthy div1 then
    let f := floor div1 in
    if PrimFloat.ltb 0.5 (PrimFloat.sub div1 f) then PrimFloat.add f 1 else f
  else fallback.

(** Sixty times [n] seconds make [n] minutes. *)
Definition minutes_check (n : Z) : bool :=
  match float_to_int
          (floordiv_of (PrimFloat.div (SF2Prim (exact_float (60 * n) 0)) 60) 0) with
  | Ok z => z =? n
  | _ => false
  end.

(** [f"{n:02d}"] is the two digits of [n]. *)
Definition format_02d_check (n : Z) : bool :=
  String.eqb (format_02d n) (two_digits n).

(** [h] hundredths are written with two digits before the point and two
    after. *)
Definition seconds_check (h : Z) : bool :=
  String.eqb (zero_pad 5 false (fixed_2 h))
             (two_digits (h / 100) ++ "." ++ two_digits (h mod 100)).

(** ** More sample data *)

(** A table whose first event for the stroke has no base time, and whose
    second has one. *)
Definition shadow_table : Element :=
  table_of "SCM" "Men"
    [mkElement "event" [] None None [leaf "stroke" "50m Freestyle"];
     event "50m Freestyle" "21.32"].

(** A table whose base time is not the text of a number. *)
Definition bad_text_table : Element :=
  table_of "SCM" "Men" [event "50m Freestyle" "21,32"].

(** A table whose base time element is empty. *)
Definition empty_text_table : Element :=
  table_of "SCM" "Men"
    [mkElement "event" [] None None
       [leaf "stroke" "50m Freestyle"; mkElement "basetime_seconds" [] None None []]].

(** A row whose time is not the text of a number. *)
Definition unparsed_row : Row := sample_row "Anna" "Bianchi" "SCM" "Men" "50m Freestyle" "1:02.5".

(** A row for an event the table does not hold. *)
Definition unknown_row : Row := sample_row "Anna" "Bianchi" "SCM" "Men" "200m Butterfly" "120.5".

(** The time of a row, where the row has one that [float] reads. *)
Definition row_time (row : Row) : option float :=
  match assoc "time" row with
  | Some cell => match py_float cell with Ok t => Some t | _ => None end
  | None => None
  end.

(** The value of a float in hundredths, rounded to the nearest (ties to
    even): what ['%.2f'] shows of a positive finite float. *)
Definition float_hundredths (s : float) : Z :=
  match Prim2SF s with
  | S754_finite false m e => hundredths m e
  | _ => 0
  end.

(** ** main_simulator.py: generate_pdf_report

    The report is drawn through reportlab's canvas. The model keeps the
    calls made on the canvas, in order, with their arguments: a call is
    taken to return, except [drawImage], whose [IOError] the function
    handles. The constants are reportlab's: [reportlab.lib.units.inch] is
    72.0 and [reportlab.lib.pagesizes.letter] is [(8.5 * inch, 11 * inch)]. *)

Definition inch : float := 72.
Definition letter : float * float := (PrimFloat.mul 8.5 inch, PrimFloat.mul 11 inch).

(** [f"{x:.2f}"] *)
Definition format_2f (x : float) : string :=
  match sf_of x with
  | S754_nan => "nan"
  | S754_infinity s => zero_pad 0 s "inf"
  | S754_zero s => zero_pad 0 s (fixed_2 0)
  | S754_finite s m e => zero_pad 0 s (fixed_2 (hundredths m e))
  end.

Inductive color : Type := navy | black | crimson.

(** A call on the canvas (or a [print]). *)
Inductive call : Type :=
| NewCanvas (filename : string) (pagesize : float * float)
| RegisterFont (name file : string)
| DrawImage (file : string) (x y height : float)
| Print (text : string)
| SetFont (name : string) (size : Z)
| SetFillColor (c : color)
| DrawCentredString (x y : float) (text : string)
| DrawString (x y : float) (text : option string)
| DrawRightString (x y : float) (text : string)
| Line (x1 y1 x2 y2 : float)
| ShowPage
| Save.

(** The body of the loop over [results]: the four cells of a row. *)
Definition draw_result (y_position : float) (res : Scored) : list call :=
  [DrawString (PrimFloat.mul 0.75 inch) y_position
     (Some (sc_name res ++ " " ++ sc_surname res));
   DrawString (PrimFloat.mul 2.5 inch) y_position (sc_stroke res);
   DrawString (PrimFloat.mul 5.5 inch) y_position (Some (sc_time res));
   DrawRightString (PrimFloat.mul 7.5 inch) y_position (format_2f (sc_points res))].

(** The step down after a line of text, with the page break: the calls
    made and the new [y_position]. *)
Definition next_line (height y_position step : float) (font : string) (size : Z)
  : list call * float :=
  let y := PrimFloat.sub y_position step in
  if PrimFloat.ltb y (PrimFloat.mul 1.5 inch)
  then ([ShowPage; SetFont font size], PrimFloat.sub height (PrimFloat.mul 1 inch))
  else ([], y).

(** [for res in results: ...] *)
Fixpoint draw_results (height y_position : float) (results : list Scored)
  : list call * float :=
  match results with
  | [] => ([], y_position)
  | res :: rest =>
      let '(brk, y) := next_line height y_position (PrimFloat.mul 0.25 inch) "DejaVuSans" 10 in
      let '(more, y') := draw_results height y rest in
      ((draw_result y_position res ++ brk ++ more)%list, y')
  end.

(** [for entry in failed_rows: ...] *)
Fixpoint draw_failed (height y_position : float) (failed_rows : list string)
  : list call * float :=
  match failed_rows with
  | [] => ([], y_position)
  | entry :: rest =>
      let '(brk, y) := next_line height y_position (PrimFloat.mul 0.15 inch) "Courier" 8 in
      let '(more, y') := draw_failed height y rest in
      ((DrawString (PrimFloat.mul 0.75 inch) y_position (Some entry) :: brk ++ more)%list, y')
  end.

(** The section of the skipped rows, drawn when there are any. *)
Definition draw_skipped (height y_position : float) (failed_rows : list string)
  : list call * float :=
  match failed_rows with
  | [] => ([], y_position)
  | _ :: _ =>
      let y1 := PrimFloat.sub y_position (PrimFloat.mul 0.3 inch) in
      let y2 := PrimFloat.sub y1 (PrimFloat.mul 0.3 inch) in
      let '(entries, y3) := draw_failed height y2 failed_rows in
      (([SetFont "Helvetica-Bold" 12; SetFillColor crimson;
         DrawString (PrimFloat.mul 0.75 inch) y1 (Some "Skipped Entries");
         SetFont "Courier" 8; SetFillColor black] ++ entries)%list, y3)
  end.

(** The final score. *)
Definition draw_total (width height y_position total_points : float) : list call :=
  let y0 := PrimFloat.sub y_position (PrimFloat.mul 0.5 inch) in
  let '(brk, y1) :=
    if PrimFloat.ltb y0 (PrimFloat.mul 1.5 inch)
    then ([ShowPage], PrimFloat.sub height (PrimFloat.mul 1.5 inch))
    else ([], y0) in
  let y2 := PrimFloat.sub y1 (PrimFloat.mul 0.3 inch) in
  let y3 := PrimFloat.sub y2 (PrimFloat.mul 0.05 inch) in
  (brk ++
   [SetFont "Helvetica-Bold" 14; SetFillColor navy;
    Line (PrimFloat.mul 0.75 inch) y1 (PrimFloat.sub width (PrimFloat.mul 0.75 inch)) y1;
    DrawString (PrimFloat.mul 0.75 inch) y2 (Some "Punteggio Totale:");
    DrawRightString (PrimFloat.sub width (PrimFloat.mul 0.75 inch)) y2 (format_2f total_points);
    Line (PrimFloat.mul 0.75 inch) y3 (PrimFloat.sub width (PrimFloat.mul 0.75 inch)) y3;
    Save])%list.

(** The header, down to the line under the column titles: the calls and
    the [y_position] of the first row. [logo_ok] says whether [drawImage]
    returns; [today] is the text of the date. *)
Definition draw_header (filename : string) (width height : float) (today : string)
           (logo_ok : bool) : list call * float :=
  let title_x_position := PrimFloat.div width 2 in
  let y0 := PrimFloat.sub height (PrimFloat.mul 2 inch) in
  let y1 := PrimFloat.sub y0 (PrimFloat.mul 0.3 inch) in
  let y2 := PrimFloat.sub y1 (PrimFloat.mul 0.05 inch) in
  let y3 := PrimFloat.sub y2 (PrimFloat.mul 0.2 inch) in
  (([NewCanvas filename letter;
     RegisterFont "DejaVuSans" "fonts/DejaVuSans.ttf";
     DrawImage "logo.png" (PrimFloat.mul (-0.5) inch)
       (PrimFloat.sub height (PrimFloat.mul 0.5 inch)) (PrimFloat.mul 0.3 inch)] ++
    (if logo_ok then []
     else [Print "Warning: 'logo.png' not found. Skipping logo in PDF report."]) ++
    [SetFont "Helvetica-Bold" 18; SetFillColor navy;
     DrawCentredString title_x_position (PrimFloat.sub height (PrimFloat.mul 1 inch))
       "Simulatore Coppa Brema";
     SetFont "Helvetica" 9; SetFillColor black;
     DrawCentredString title_x_position (PrimFloat.sub height (PrimFloat.mul 1.25 inch))
       ("Generato il: " ++ today);
     SetFont "Helvetica-Bold" 12;
     DrawString (PrimFloat.mul 0.75 inch) y0 (Some "Sommario");
     SetFont "Helvetica-Bold" 10;
     DrawString (PrimFloat.mul 0.75 inch) y1 (Some "Atleta");
     DrawString (PrimFloat.mul 2.5 inch) y1 (Some "Stile");
     DrawString (PrimFloat.mul 5.5 inch) y1 (Some "Tempo");
     DrawString (PrimFloat.mul 6.75 inch) y1 (Some "Punteggio");
     Line (PrimFloat.mul 0.75 inch) y2 (PrimFloat.sub width (PrimFloat.mul 0.75 inch)) y2;
     SetFont "DejaVuSans" 10])%list, y3).

(** [generate_pdf_report(filename, results, total_points, failed_rows)] *)
Definition generate_pdf_report (filename : string) (results : list Scored)
           (total_points : float) (failed_rows : list string)
           (today : string) (logo_ok : bool) : list call :=
  let '(width, height) := letter in
  let '(header, y0) := draw_header filename width height today logo_ok in
  let '(table, y1) := draw_results height y0 results in
  let '(skipped, y2) := draw_skipped height y1 failed_rows in
  (header ++ table ++ skipped ++ draw_total width height y2 total_points)%list.


(** The texts a list of calls draws, in order. *)
Definition text_of (c : call) : list (option string) :=
  match c with
  | DrawCentredString _ _ t | DrawRightString _ _ t => [Some t]
  | DrawString _ _ t => [t]
  | _ => []
  end.

Definition texts_of (calls : list call) : list (option string) := flat_map text_of calls.

(** The texts of a row of the table. *)
Definition result_texts (res : Scored) : list (option string) :=
  [Some (sc_name res ++ " " ++ sc_surname res); sc_stroke res; Some (sc_time res);
   Some (format_2f (sc_points res))].

(** [lo <= y <= hi] *)
Definition between (lo hi y : float) : Prop :=
  PrimFloat.leb lo y = true /\ PrimFloat.leb y hi = true.

(** The heights at which a call draws. *)
Definition heights_of (c : call) : list float :=
  match c with
  | DrawCentredString _ y _ | DrawRightString _ y _ | DrawString _ y _ => [y]
  | Line _ y1 _ y2 => [y1; y2]
  | _ => []
  end.

(** A call draws between 0.75 inch from the bottom of the page and 1 inch
    from its top. *)
Definition on_page (c : call) : Prop :=
  forall y, In y (heights_of c) ->
            between (PrimFloat.mul 0.75 inch)
                    (PrimFloat.sub (snd letter) (PrimFloat.mul 1 inch)) y.

(** The integer of [x - c] at the smaller of the two exponents. *)
Definition sub_int (mx : positive) (ex : Z) (mc : positive) (ec : Z) : Z :=
  Zpos mx * 2 ^ (ex - Z.min ex ec) - Zpos mc * 2 ^ (ec - Z.min ex ec).

(** A positive finite float. *)
Definition finite_pos (x : float) : Prop :=
  PrimFloat.ltb 0 x = true /\ PrimFloat.ltb x infinity = true.

(** The height of the first line of a page after a break, and the height
    below which a break is made. *)
Definition page_top : float := PrimFloat.sub (snd letter) (PrimFloat.mul 1 inch).
Definition page_break : float := PrimFloat.mul 1.5 inch.

(** The lowest height of the first skipped entry: two steps of 0.3 inch
    below the break height. *)
Definition skipped_low : float :=
  PrimFloat.sub (PrimFloat.sub page_break (PrimFloat.mul 0.3 inch)) (PrimFloat.mul 0.3 inch).

(** The texts of the header. *)
Definition header_texts (today : string) : list (option string) :=
  [Some "Simulatore Coppa Brema"; Some ("Generato il: " ++ today); Some "Sommario";
   Some "Atleta"; Some "Stile"; Some "Tempo"; Some "Punteggio"].

(** The texts of the section of the skipped rows. *)
Definition skipped_texts (failed_rows : list string) : list (option string) :=
  match failed_rows with
  | [] => []
  | _ :: _ => Some "Skipped Entries" :: map Some failed_rows
  end.

(** The number of page breaks among the calls. *)
Definition page_breaks (calls : list call) : Z :=
  Z.of_nat (List.length (filter (fun c => match c with ShowPage => true | _ => false end) calls)).

(** The height after [n] lines of the table from the height [y], and the
    number of page breaks on the way. *)
Fixpoint walk (y : float) (n : nat) : Z * float :=
  match n with
  | O => (0, y)
  | S k =>
      let y1 := snd (next_line (snd letter) y (PrimFloat.mul 0.25 inch) "DejaVuSans" 10) in
      let b := if PrimFloat.ltb (PrimFloat.sub y (PrimFloat.mul 0.25 inch)) (PrimFloat.mul 1.5 inch)
               then 1 else 0 in
      let '(bs, y') := walk y1 k in (b + bs, y')
  end.

(** Whether the final score, drawn from the height [y], starts a page. *)
Definition total_breaks (y : float) : Z :=
  if PrimFloat.ltb (PrimFloat.sub y (PrimFloat.mul 0.5 inch)) (PrimFloat.mul 1.5 inch)
  then 1 else 0.

(** The height of the first row of the table. *)
Definition first_row : float :=
  snd (draw_header EmptyString (fst letter) (snd letter) EmptyString true).

(** The page breaks of a report of [n] results and no skipped row. *)
Definition report_breaks (n : Z) : Z :=
  (n + 7) / 35 + (if 32 <? (n + 7) mod 35 then 1 else 0).

Definition first_page_check (r : Z) : bool :=
  let '(b, y) := walk first_row (Z.to_nat r) in
  (b =? 0) && (total_breaks y =? (if 25 <? r then 1 else 0)).

Definition next_page_check (r : Z) : bool :=
  let '(b, y) := walk page_top (Z.to_nat r) in
  (b =? 0) && (total_breaks y =? (if 32 <? r then 1 else 0)).



(** ** Strokes with an apostrophe *)

(** An ASCII letter or digit. *)
Definition plain_char (c : ascii) : bool :=
  let n := char_code c in
  ((48 <=? n) && (n <=? 57)) || ((65 <=? n) && (n <=? 90)) || ((97 <=? n) && (n <=? 122)).

(** Words of ASCII letters and digits, with spaces between them. *)
Fixpoint plain_text (s : string) : bool :=
  match s with
  | EmptyString => true
  | String c r => (plain_char c || Ascii.eqb c " ") && plain_text r
  end.

(** A token that is a name without a prefix, or white space. *)
Definition word_token (t : token) : bool :=
  match t with Tok ttype tag => is_empty ttype && negb (contains_char ":" tag) end.

Definition names_of (ts : list token) : list string :=
  flat_map (fun t => match t with Tok _ tag => if is_empty tag then [] else [tag] end) ts.

Fixpoint dashes (n : nat) : string :=
  match n with
  | O => EmptyString
  | S k => String "-" (dashes k)
  end.

(** ** Finite floats *)

(** A float that is a zero or a finite number. *)
Definition finite_sf (x : spec_float) : Prop :=
  match x with
  | S754_zero _ | S754_finite _ _ _ => True
  | _ => False
  end.

(** * Properties *)

(** ** Comparisons of binary64 numbers *)

Lemma sf_zero : Prim2SF 0%float = S754_zero false.
Proof. reflexivity. Qed.

Lemma sf_infinity : Prim2SF infinity = S754_infinity false.
Proof. reflexivity. Qed.

(** A number above zero is a positive finite number or the positive infinity. *)
Lemma positive_cases (t : float) :
  PrimFloat.ltb 0 t = true ->
  Prim2SF t = S754_infinity false \/ exists m e, Prim2SF t = S754_finite false m e.
Proof.
  rewrite ltb_spec, sf_zero. unfold SFltb, SFcompare.
  destruct (Prim2SF t) as [s | s | | s m e]; try discriminate.
  - destruct s; [discriminate | now left].
  - destruct s; [discriminate | right; now exists m, e].
Qed.

Lemma positive_not_le_zero (t : float) :
  PrimFloat.ltb 0 t = true -> PrimFloat.leb t 0 = false.
Proof.
  intros H. destruct (positive_cases t H) as [E | (m & e & E)];
    rewrite leb_spec, sf_zero, E; reflexivity.
Qed.

Lemma positive_not_zero (t : float) :
  PrimFloat.ltb 0 t = true -> PrimFloat.eqb t 0 = false.
Proof.
  intros H. destruct (positive_cases t H) as [E | (m & e & E)];
    rewrite eqb_spec, sf_zero, E; reflexivity.
Qed.

(** A positive number below the infinity is finite. *)
Lemma finite_positive_cases (b : float) :
  PrimFloat.ltb 0 b = true -> PrimFloat.ltb b infinity = true ->
  exists m e, Prim2SF b = S754_finite false m e.
Proof.
  intros H0 Hi. destruct (positive_cases b H0) as [E | E]; [| exact E].
  rewrite ltb_spec, sf_infinity, E in Hi. discriminate.
Qed.

(** ** A finite number divided by itself *)

Lemma new_location_zero (n : Z) : new_location n 0 = loc_Exact.
Proof.
  unfold new_location, new_location_even, new_location_odd.
  destruct (Z.even n); reflexivity.
Qed.

Lemma SFdiv_self (s : bool) (m : positive) (e : Z) :
  SFdiv prec emax (S754_finite s m e) (S754_finite s m e) = S754_finite false 4503599627370496 (-52).
Proof.
  unfold SFdiv, SFdiv_core_binary.
  replace (Zdigits2 (Zpos m) + e - (Zdigits2 (Zpos m) + e)) with 0 by lia.
  replace (e - e) with 0 by lia.
  change (Z.min (fexp prec emax 0) 0) with (-53).
  change (0 - -53) with 53.
  cbv beta iota zeta.
  rewrite Z.shiftl_mul_pow2 by lia.
  assert (E : Z.div_eucl (Zpos m * 2 ^ 53) (Zpos m) = (2 ^ 53, 0)).
  { transitivity ((Zpos m * 2 ^ 53) / Zpos m, (Zpos m * 2 ^ 53) mod Zpos m).
    - unfold Z.div, Z.modulo. now destruct (Z.div_eucl _ _).
    - rewrite (Z.mul_comm (Zpos m)), Z.div_mul, Z.mod_mul by lia. reflexivity. }
  rewrite E, new_location_zero.
  destruct s; reflexivity.
Qed.

Lemma div_self (b : float) :
  PrimFloat.ltb 0 b = true -> PrimFloat.ltb b infinity = true ->
  PrimFloat.div b b = 1%float.
Proof.
  intros H0 Hi. destruct (finite_positive_cases b H0 Hi) as (m & e & E).
  apply Prim2SF_inj. rewrite div_spec, E. unfold SF64div. rewrite SFdiv_self.
  reflexivity.
Qed.

(** ** calculate_points *)

(** C4: for every base time b and every input time t with t <= 0,
    calculate_points(b, t) returns exactly 0.0, whatever b is: the division
    is not reached and nothing is raised. *)
Theorem calculate_points_nonpositive (b t : float) :
  PrimFloat.leb t 0 = true -> calculate_points b t = Ok 0%float.
Proof.
  intros H. unfold calculate_points. now rewrite H.
Qed.

Lemma calculate_points_nonpositive_witness :
  PrimFloat.leb (-1) 0 = true /\ calculate_points 21.32 (-1) = Ok 0%float.
Proof.
  split; [reflexivity | apply (calculate_points_nonpositive 21.32 (-1)); reflexivity].
Defined.

(** [v ** 3] returns a number or raises [OverflowError]; it never leaves
    the model. *)
Lemma float_pow_3_outcome (v : float) :
  (exists c, float_pow_3 v = Ok c) \/
  float_pow_3 v = raise OverflowError "(34, 'Numerical result out of range')".
Proof.
  unfold float_pow_3.
  repeat match goal with
         | |- context [if ?c then _ else _] => destruct c
         end; eauto.
Qed.




(** C9, as stated, fails: the infinity is a positive float, and
    calculate_points(inf, inf) is NaN (inf / inf), not 1000.0. *)
Lemma calculate_points_infinite_base :
  PrimFloat.ltb 0 infinity = true /\ calculate_points infinity infinity = Ok nan.
Proof. split; reflexivity. Qed.

(** C9 (amended): for every positive finite b, calculate_points(b, b) is
    exactly 1000.0. *)
Theorem calculate_points_base_time (b : float) :
  PrimFloat.ltb 0 b = true -> PrimFloat.ltb b infinity = true ->
  calculate_points b b = Ok 1000%float.
Proof.
  intros H0 Hi. unfold calculate_points, float_truediv.
  rewrite (positive_not_le_zero b H0), (positive_not_zero b H0), (div_self b H0 Hi).
  reflexivity.
Qed.

Lemma calculate_points_base_time_witness :
  calculate_points 21.32 21.32 = Ok 1000%float.
Proof.
  apply (calculate_points_base_time 21.32); reflexivity.
Defined.

(** ** Strings: case, apostrophes *)



Lemma upper_char_quote (c : ascii) : Ascii.eqb sq (upper_char c) = Ascii.eqb sq c.
Proof. destruct c as [[] [] [] [] [] [] [] []]; reflexivity. Qed.

Lemma lower_char_quote (c : ascii) : Ascii.eqb sq (lower_char c) = Ascii.eqb sq c.
Proof. destruct c as [[] [] [] [] [] [] [] []]; reflexivity. Qed.




Lemma no_quote_map (f : ascii -> ascii) (s : string) :
  (forall c, Ascii.eqb sq (f c) = Ascii.eqb sq c) ->
  no_quote s -> no_quote (map_string f s).
Proof.
  intros Hf. unfold no_quote. induction s as [| c r IH]; [reflexivity |].
  cbn [contains_char map_string]. rewrite Hf. intros H.
  apply orb_false_iff in H as [H1 H2]. now rewrite H1, IH.
Qed.

Lemma no_quote_upper (s : string) : no_quote s -> no_quote (py_upper s).
Proof. apply no_quote_map, upper_char_quote. Qed.

Lemma no_quote_capitalize (s : string) : no_quote s -> no_quote (py_capitalize s).
Proof.
  destruct s as [| c r]; [trivial |].
  unfold no_quote, py_capitalize. cbn [contains_char]. rewrite upper_char_quote.
  intros H. apply orb_false_iff in H as [H1 H2]. rewrite H1. cbn [orb].
  now apply (no_quote_map lower_char r lower_char_quote).
Qed.

(** ** The tokens of the query *)

Lemma span_until_quote (v r : string) :
  no_quote v -> span_until sq (v ++ String sq r) = Some (v, r).
Proof.
  unfold no_quote. induction v as [| c v IH]; intros H; cbn [append span_until].
  - now rewrite Ascii.eqb_refl.
  - cbn [contains_char] in H. apply orb_false_iff in H as [H1 H2].
    rewrite Ascii.eqb_sym, H1, (IH H2). reflexivity.
Qed.

Lemma scan_skip (v r : string) (c : ascii) :
  scan (v ++ String c r) (S (String.length v)) = scan r 0.
Proof.
  induction v as [| d v IH]; simpl; [reflexivity | exact IH].
Qed.

(** Text without an apostrophe between apostrophes is one token. *)
Lemma scan_quoted (v r : string) :
  no_quote v ->
  scan (String sq (v ++ String sq r)) 0
  = Tok (String sq (v ++ one sq)) EmptyString :: scan r 0.
Proof.
  intros H. cbn [scan token_at].
  change (Ascii.eqb sq sq || Ascii.eqb sq dq) with true. cbv iota.
  rewrite (span_until_quote v r H). cbv iota beta.
  f_equal. cbn [Nat.sub]. apply scan_skip.
Qed.

Lemma scan_course (tail : string) :
  scan ("./course[@type=" ++ tail) 0
  = ([Tok "." ""; Tok "/" ""; Tok "" "course"; Tok "[" ""; Tok "@" ""; Tok "" "type"; Tok "=" ""]
    ++ scan tail 0)%list.
Proof. reflexivity. Qed.

Lemma scan_gender (tail : string) :
  scan ("]/gender[@name=" ++ tail) 0
  = ([Tok "]" ""; Tok "/" ""; Tok "" "gender"; Tok "[" ""; Tok "@" ""; Tok "" "name"; Tok "=" ""]
    ++ scan tail 0)%list.
Proof. reflexivity. Qed.

Lemma scan_event (tail : string) :
  scan ("]/event[stroke=" ++ tail) 0
  = ([Tok "]" ""; Tok "/" ""; Tok "" "event"; Tok "[" ""; Tok "" "stroke"; Tok "=" ""]
    ++ scan tail 0)%list.
Proof. reflexivity. Qed.

Lemma basetime_query_shape (course gender stroke : string) :
  basetime_query course gender stroke
  = "./course[@type=" ++ String sq (py_upper course ++ String sq
      ("]/gender[@name=" ++ String sq (py_capitalize gender ++ String sq
         ("]/event[stroke=" ++ String sq (stroke ++ String sq "]"))))).
Proof. reflexivity. Qed.

Lemma tokenize_query (course gender stroke : string) :
  no_quote course -> no_quote gender -> no_quote stroke ->
  tokenize (basetime_query course gender stroke)
  = [Tok "." ""; Tok "/" ""; Tok "" "course"; Tok "[" ""; Tok "@" ""; Tok "" "type"; Tok "=" "";
     quoted (py_upper course);
     Tok "]" ""; Tok "/" ""; Tok "" "gender"; Tok "[" ""; Tok "@" ""; Tok "" "name"; Tok "=" "";
     quoted (py_capitalize gender);
     Tok "]" ""; Tok "/" ""; Tok "" "event"; Tok "[" ""; Tok "" "stroke"; Tok "=" "";
     quoted stroke;
     Tok "]" ""].
Proof.
  intros Hc Hg Hs. unfold tokenize. rewrite basetime_query_shape.
  rewrite scan_course, (scan_quoted _ _ (no_quote_upper _ Hc)).
  rewrite scan_gender, (scan_quoted _ _ (no_quote_capitalize _ Hg)).
  rewrite scan_event, (scan_quoted _ _ Hs).
  reflexivity.
Qed.

Lemma unquote_quoted (q : ascii) (v : string) :
  unquote (String q (v ++ one q)) = v.
Proof.
  unfold unquote.
  assert (E : forall w, (String.length (w ++ one q) - 1)%nat = String.length w).
  { intros w. assert (L : String.length (w ++ one q) = S (String.length w)).
    { induction w as [| c w IH]; [reflexivity |].
      cbn [append String.length]. now rewrite IH. }
    rewrite L. cbn. lia. }
  rewrite E. clear E.
  induction v as [| c v IH]; [reflexivity |].
  cbn [append String.length substring]. now rewrite IH.
Qed.

Lemma last_char_app (a b : string) :
  b <> EmptyString -> last_char (a ++ b) = last_char b.
Proof.
  intros Hb. induction a as [| c a IH]; [reflexivity |].
  cbn [append last_char]. rewrite IH.
  destruct (a ++ b) eqn:E; [| reflexivity].
  destruct a; [now subst | discriminate].
Qed.

Lemma query_no_slash (course gender stroke : string) :
  ends_with_slash (basetime_query course gender stroke) = false.
Proof.
  unfold ends_with_slash, basetime_query.
  repeat (rewrite last_char_app;
          [| match goal with |- ?x <> _ => destruct x eqn:?; try discriminate end;
             match goal with H : (?y ++ _) = EmptyString |- _ => destruct y; discriminate end]).
  reflexivity.
Qed.

Lemma find_query (root : Element) (course gender stroke : string) :
  no_quote course -> no_quote gender -> no_quote stroke ->
  Element_find root (basetime_query course gender stroke)
  = Ok (table_event root (py_upper course) (py_capitalize gender) stroke).
Proof.
  intros Hc Hg Hs. unfold Element_find, iterfind.
  rewrite query_no_slash.
  change (basetime_query course gender stroke)
    with (String "." (String "/" ("course[@type='" ++ py_upper course ++ "']/" ++
          "gender[@name='" ++ py_capitalize gender ++ "']/" ++
          "event[stroke='" ++ stroke ++ "']"))) at 1.
  cbv iota beta. change (Ascii.eqb "." "/") with false. cbv iota.
  rewrite (tokenize_query _ _ _ Hc Hg Hs).
  unfold quoted.
  cbn -[unquote table_event]. rewrite !unquote_quoted.
  cbn -[table_event]. rewrite !app_nil_r. reflexivity.
Qed.

Lemma find_basetime_node (ev : Element) :
  Element_find ev "basetime_seconds"
  = Ok (hd_error (children_tagged "basetime_seconds" ev)).
Proof.
  unfold Element_find, iterfind. cbn. now rewrite app_nil_r.
Qed.

(** ** find_basetime *)

(** On texts without an apostrophe, [find_basetime] is the lookup in the
    table under the normalized course and gender and the stroke as given. *)
Lemma find_basetime_lookup (root : Element) (course gender stroke : string) :
  no_quote course -> no_quote gender -> no_quote stroke ->
  find_basetime root course gender stroke
  = table_lookup root (py_upper course) (py_capitalize gender) stroke.
Proof.
  intros Hc Hg Hs. unfold find_basetime, table_lookup.
  rewrite (find_query root _ _ _ Hc Hg Hs). cbn [bind].
  destruct (table_event root (py_upper course) (py_capitalize gender) stroke) as [ev |];
    [| reflexivity].
  rewrite find_basetime_node. reflexivity.
Qed.

(** C2, as stated, fails: the table may file an entry under a course that
    is not in upper case; the entry is present, and [find_basetime] asked
    for that very triple answers None. *)
Lemma find_basetime_misses_lower_case_key :
  table_lookup lower_case_table "scm" "Men" "50m Freestyle" = Ok (Some 21.32%float) /\
  find_basetime lower_case_table "scm" "Men" "50m Freestyle" = Ok None.
Proof. split; reflexivity. Qed.

(** A stroke with an apostrophe breaks the path text: the lookup raises
    [SyntaxError] where the triple is simply absent from the table. *)
Lemma find_basetime_apostrophe :
  table_lookup sample_table "SCM" "Men" "Men's 50m" = Ok None /\
  find_basetime sample_table "SCM" "Men" "Men's 50m" = raise SyntaxError "invalid predicate".
Proof. split; reflexivity. Qed.

(** C2 (amended): for every course, gender and stroke without an
    apostrophe, find_basetime looks the triple up under the upper-cased
    course and the capitalized gender: when the table has an entry there
    whose base time reads as a number, it returns exactly that value; when
    it has no entry there, it returns None; it raises in neither case. (A
    triple the table files under a course or gender that is not in that
    form is not found.) *)
Theorem find_basetime_table (root : Element) (course gender stroke : string) :
  no_quote course -> no_quote gender -> no_quote stroke ->
  (forall ev v,
      table_event root (py_upper course) (py_capitalize gender) stroke = Some ev ->
      event_basetime ev = Ok (Some v) ->
      find_basetime root course gender stroke = Ok (Some v)) /\
  (table_event root (py_upper course) (py_capitalize gender) stroke = None ->
   find_basetime root course gender stroke = Ok None).
Proof.
  intros Hc Hg Hs. rewrite (find_basetime_lookup root _ _ _ Hc Hg Hs).
  unfold table_lookup. split.
  - intros ev v E Hv. now rewrite E.
  - intros E. now rewrite E.
Qed.

Lemma find_basetime_table_witness :
  find_basetime sample_table "scm" "men" "50m Freestyle" = Ok (Some 21.32%float) /\
  find_basetime sample_table "scm" "men" "200m Butterfly" = Ok None.
Proof.
  destruct (find_basetime_table sample_table "scm" "men" "50m Freestyle"
              eq_refl eq_refl eq_refl) as [Hpresent _].
  destruct (find_basetime_table sample_table "scm" "men" "200m Butterfly"
              eq_refl eq_refl eq_refl) as [_ Habsent].
  split.
  - exact (Hpresent (event "50m Freestyle" "21.32") 21.32%float eq_refl eq_refl).
  - exact (Habsent eq_refl).
Defined.




(** ** format_time: negative input *)

(** C6: format_time returns the fixed literal "00:00.00" for every
    negative input, without failing; and format_time(0) is "00:00.00"
    too. *)
Theorem format_time_negative :
  (forall s, PrimFloat.ltb s 0 = true -> format_time s = Ok "00:00.00") /\
  format_time 0 = Ok "00:00.00".
Proof.
  split; [| reflexivity].
  intros s H. unfold format_time. now rewrite H.
Qed.

Lemma format_time_negative_witness :
  format_time (-1) = Ok "00:00.00" /\ format_time neg_infinity = Ok "00:00.00".
Proof.
  split; apply (proj1 format_time_negative); reflexivity.
Defined.

(** ** The row loop *)

(** C3 fails on the code: a row whose time is the text [nan] is skipped,
    with a reason, after its points (NaN) were added to the total. With one
    scored row before it, the total is NaN and not the 1182.74... of the
    scored results. *)
Lemma main_total_counts_skipped_row :
  main sample_table [good_row; nan_row]
  = Ok (mkState nan
          [mkScored "Mario" "Rossi" (Some "50m Freestyle") "00:20.16" 1182.7419960672394%float]
          ["Row 3: Invalid data - cannot convert float NaN to integer -> {'name': 'Luigi', 'surname': 'Verdi', 'course': 'SCM', 'gender': 'Men', 'stroke': '50m Freestyle', 'time': 'nan'}"]).
Proof. reflexivity. Qed.

(** The loop ends on the first exception that is neither [KeyError] nor
    [ValueError]: a short line ([TypeError] from [float(None)]), a time so
    small that the cube overflows ([OverflowError]), a stroke with an
    apostrophe ([SyntaxError]). The rows before and after are lost with
    it. *)
Lemma main_aborts :
  main sample_table [good_row; short_row; good_row]
  = raise TypeError "float() argument must be a string or a real number, not 'NoneType'" /\
  main sample_table [good_row; sample_row "A" "B" "SCM" "Men" "50m Freestyle" "1e-200"]
  = raise OverflowError "(34, 'Numerical result out of range')" /\
  main sample_table [good_row; sample_row "A" "B" "SCM" "Men" "Men's 50m" "20.16"]
  = raise SyntaxError "invalid predicate".
Proof. repeat split; reflexivity. Qed.

(** C10 fails on the code: a row of a file whose header has only the
    name and surname columns lacks the other four fields; when the line is
    short as well, its surname is [None], [strip] raises [AttributeError],
    and the loop ends instead of skipping the row. *)
Lemma main_missing_field_aborts :
  assoc "time" [("name", Some "Mario"); ("surname", @None string)] = None /\
  main sample_table [[("name", Some "Mario"); ("surname", None)]; good_row]
  = raise AttributeError "'NoneType' object has no attribute 'strip'".
Proof. split; reflexivity. Qed.

(** ** The row loop: what it keeps *)

Lemma sum_points_app (l : list Scored) (sc : Scored) (acc : float) :
  fold_left (fun a s => PrimFloat.add a (sc_points s)) (l ++ [sc])%list acc
  = PrimFloat.add (fold_left (fun a s => PrimFloat.add a (sc_points s)) l acc) (sc_points sc).
Proof. now rewrite fold_left_app. Qed.

(** One turn of the loop on a row that is not rejected late: either the
    row is scored, its entry appended and its points added, or it is
    skipped and nothing but the list of skipped rows changes. *)
Lemma process_row_cases (root : Element) (st st' : state) (k : Z) (row : Row) :
  process_row root st k row = Ok st' -> ~ late_reject root row ->
  match row_scored root row with
  | Some sc =>
      st' = mkState (PrimFloat.add (total_points st) (sc_points sc))
                    (processed_results st ++ [sc])%list (failed_rows st)
  | None =>
      exists e, st' = mkState (total_points st) (processed_results st)
                              (failed_rows st ++ [failed_entry k e row])%list
  end.
Proof.
  unfold process_row, row_scored, late_reject. intros H Hl.
  destruct (score_row root row) as [[[[[name surname] stroke] time] points] | e |] eqn:Es;
    try discriminate.
  - destruct (format_time time) as [t | e |] eqn:Ef; try discriminate.
    + injection H as <-. reflexivity.
    + exfalso. apply Hl. now exists name, surname, stroke, time, points, e.
  - destruct (caught e); try discriminate. injection H as <-. now exists e.
Qed.

Lemma run_rows_accounting (root : Element) (rows : list Row) :
  forall (st0 st : state) (k : Z),
    run_rows root st0 k rows = Ok st ->
    (forall row, In row rows -> ~ late_reject root row) ->
    processed_results st = (processed_results st0 ++ scored_rows root rows)%list /\
    (List.length (processed_results st) + List.length (failed_rows st)
     = List.length (processed_results st0) + List.length (failed_rows st0) + List.length rows)%nat /\
    total_points st
    = fold_left (fun a s => PrimFloat.add a (sc_points s)) (scored_rows root rows)
        (total_points st0).
Proof.
  induction rows as [| row rest IH]; intros st0 st k H Hl.
  - injection H as <-. cbn. rewrite app_nil_r. repeat split; lia.
  - cbn [run_rows] in H.
    destruct (process_row root st0 k row) as [st1 | e |] eqn:Ep; try discriminate.
    cbn [bind] in H.
    pose proof (process_row_cases root st0 st1 k row Ep (Hl row (or_introl eq_refl))) as Hc.
    destruct (IH st1 st (k + 1) H (fun r Hr => Hl r (or_intror Hr))) as (I1 & I2 & I3).
    unfold scored_rows in *. cbn [flat_map].
    destruct (row_scored root row) as [sc |].
    + subst st1. cbn [processed_results failed_rows total_points] in *.
      split; [| split].
      * rewrite I1, <- app_assoc. reflexivity.
      * rewrite I2, length_app. cbn. lia.
      * rewrite I3. reflexivity.
    + destruct Hc as [e ->]. cbn [processed_results failed_rows total_points] in *.
      split; [| split].
      * exact I1.
      * rewrite I2, length_app. cbn. lia.
      * exact I3.
Qed.

(** X1: where no row is rejected late, the loop that ends leaves the scored
    rows in the order of the input, one skipped entry for every other row,
    and as total the sum, in order, of the points of the scored rows. *)
Theorem main_accounting (root : Element) (rows : list Row) (st : state) :
  main root rows = Ok st ->
  (forall row, In row rows -> ~ late_reject root row) ->
  processed_results st = scored_rows root rows /\
  (List.length (processed_results st) + List.length (failed_rows st) = List.length rows)%nat /\
  total_points st = sum_points (processed_results st).
Proof.
  intros H Hl. destruct (run_rows_accounting root rows _ _ _ H Hl) as (I1 & I2 & I3).
  cbn in I1, I2, I3. split; [exact I1 | split; [exact I2 |]].
  unfold sum_points. rewrite I1. exact I3.
Qed.

Lemma main_accounting_witness :
  total_points
    (mkState 1182.7419960672394%float
       [mkScored "Mario" "Rossi" (Some "50m Freestyle") "00:20.16" 1182.7419960672394%float]
       ["Row 3: Invalid data - Name or surname is missing -> {'name': 'Anna', 'surname': '  ', 'course': 'SCM', 'gender': 'Men', 'stroke': '50m Freestyle', 'time': '22.5'}"])
  = sum_points
      [mkScored "Mario" "Rossi" (Some "50m Freestyle") "00:20.16" 1182.7419960672394%float].
Proof.
  refine (proj2 (proj2 (main_accounting sample_table [good_row; nameless_row] _ _ _))).
  - vm_compute. reflexivity.
  - intros row [<- | [<- | []]] (name & surname & stroke & time & points & e & Hs & Hf).
    + vm_compute in Hs. injection Hs as <- <- <- <- <-. vm_compute in Hf. discriminate.
    + vm_compute in Hs. discriminate.
Defined.

(** ** Rows that lack a field *)




(** The row without a [time] column is skipped as row 2, and the next row
    is scored. *)
Lemma main_skips_untimed_row :
  main sample_table [untimed_row; good_row]
  = Ok (mkState 1182.7419960672394%float
          [mkScored "Mario" "Rossi" (Some "50m Freestyle") "00:20.16" 1182.7419960672394%float]
          ["Row 2: Invalid data - 'time' -> {'name': 'Mario', 'surname': 'Rossi', 'course': 'SCM', 'gender': 'Men', 'stroke': '50m Freestyle'}"]).
Proof. vm_compute. reflexivity. Qed.

(** ** Binary digits *)

Lemma digits2_size (p : positive) : digits2_pos p = Pos.size p.
Proof. induction p; simpl; congruence. Qed.

Lemma Zdigits2_log2 (p : positive) : Zdigits2 (Zpos p) = Z.log2 (Zpos p) + 1.
Proof.
  unfold Zdigits2. rewrite digits2_size.
  destruct p; simpl; rewrite ?Pos.add_1_r; try reflexivity; now rewrite Pos2Z.inj_succ.
Qed.

Lemma Zdigits2_bounds (m : Z) :
  0 < m -> 2 ^ (Zdigits2 m - 1) <= m < 2 ^ Zdigits2 m.
Proof.
  intros H. destruct m as [| p | p]; try lia.
  rewrite Zdigits2_log2. pose proof (Z.log2_spec (Zpos p) H) as L.
  replace (Z.log2 (Zpos p) + 1 - 1) with (Z.log2 (Zpos p)) by lia.
  unfold Z.succ in L. exact L.
Qed.

Lemma Zdigits2_nonneg (m : Z) : 0 <= Zdigits2 m.
Proof. destruct m; simpl; lia. Qed.

Lemma Zdigits2_pos (m : Z) : 0 < m -> 0 < Zdigits2 m.
Proof. destruct m; simpl; lia. Qed.

Lemma Zdigits2_unique (m d : Z) :
  2 ^ (d - 1) <= m < 2 ^ d -> 0 < d -> Zdigits2 m = d.
Proof.
  intros H Hd.
  assert (Hm : 0 < m) by (pose proof (Z.pow_pos_nonneg 2 (d - 1)); lia).
  destruct m as [| p | p]; try lia.
  rewrite Zdigits2_log2.
  rewrite (Z.log2_unique (Zpos p) (d - 1)); try lia.
  replace (Z.succ (d - 1)) with d by lia. exact H.
Qed.

(** [m < 2^d] bounds the digits of [m] by [d]. *)
Lemma Zdigits2_le (m d : Z) : 0 <= m < 2 ^ d -> 0 <= d -> Zdigits2 m <= d.
Proof.
  intros [H0 H] Hd.
  destruct (Z.eq_dec m 0) as [-> | Hn]; [simpl; lia |].
  pose proof (Zdigits2_bounds m ltac:(lia)) as [L _].
  destruct (Z_le_gt_dec (Zdigits2 m) d) as [| G]; [assumption |].
  assert (2 ^ d <= 2 ^ (Zdigits2 m - 1)) by (apply Z.pow_le_mono_r; lia).
  lia.
Qed.

(** [2^(d-1) <= m] bounds the digits of [m] from below. *)
Lemma Zdigits2_ge (m d : Z) : 2 ^ (d - 1) <= m -> 0 < d -> d <= Zdigits2 m.
Proof.
  intros H Hd.
  assert (Hm : 0 < m) by (pose proof (Z.pow_pos_nonneg 2 (d - 1)); lia).
  pose proof (Zdigits2_bounds m Hm) as [_ U].
  destruct (Z_le_gt_dec d (Zdigits2 m)) as [| G]; [assumption |].
  assert (2 ^ Zdigits2 m <= 2 ^ (d - 1)).
  { apply Z.pow_le_mono_r; [lia |]. pose proof (Zdigits2_nonneg m). lia. }
  lia.
Qed.

(** ** Shifting right with a sticky bit *)

Lemma iter_pos_nat {A : Type} (f : A -> A) (p : positive) (x : A) :
  iter_pos f p x = Nat.iter (Pos.to_nat p) f x.
Proof.
  revert x. induction p as [p IH | p IH |]; intros x; cbn [iter_pos].
  - rewrite !IH. rewrite Pos2Nat.inj_xI.
    replace (S (2 * Pos.to_nat p)) with (Pos.to_nat p + (Pos.to_nat p + 1))%nat by lia.
    rewrite !Nat.iter_add. reflexivity.
  - rewrite !IH. rewrite Pos2Nat.inj_xO.
    replace (2 * Pos.to_nat p)%nat with (Pos.to_nat p + Pos.to_nat p)%nat by lia.
    rewrite Nat.iter_add. reflexivity.
  - reflexivity.
Qed.

Lemma rec_ok_of_loc (m rho delta : Z) :
  rec_ok (shr_record_of_loc m (loc_of_frac rho delta)) m rho delta.
Proof.
  unfold rec_ok, shr_record_of_loc.
  destruct (loc_of_frac rho delta) as [| []]; split; reflexivity.
Qed.

Lemma half_even (p : positive) : Zpos p~0 / 2 = Zpos p /\ Zpos p~0 mod 2 = 0.
Proof.
  rewrite Pos2Z.inj_xO. split.
  - symmetry. apply (Z.div_unique _ 2 _ 0); lia.
  - symmetry. apply (Z.mod_unique _ 2 (Zpos p) 0); lia.
Qed.

Lemma half_odd (p : positive) : Zpos p~1 / 2 = Zpos p /\ Zpos p~1 mod 2 = 1.
Proof.
  rewrite Pos2Z.inj_xI. split.
  - symmetry. apply (Z.div_unique _ 2 _ 1); lia.
  - symmetry. apply (Z.mod_unique _ 2 (Zpos p) 1); lia.
Qed.

Lemma shr_1_ok (r : shr_record) (k rho delta : Z) :
  0 <= k -> 0 <= rho < delta ->
  rec_ok r k rho delta ->
  rec_ok (shr_1 r) (k / 2) ((k mod 2) * delta + rho) (2 * delta).
Proof.
  intros Hk Hr [Hm Hl]. destruct r as [m rb sb]. simpl in Hm. subst m.
  assert (Hs : orb rb sb = negb (rho =? 0)).
  { unfold loc_of_frac in Hl. simpl in Hl.
    destruct (rho =? 0); destruct rb, sb; try discriminate; reflexivity. }
  assert (Hcase : forall q b, 0 <= q -> (b = 0 \/ b = 1) ->
            loc_of_shr_record {| shr_m := q; shr_r := (b =? 1); shr_s := orb rb sb |}
            = loc_of_frac (b * delta + rho) (2 * delta)).
  { intros q b Hq Hb. rewrite Hs. unfold loc_of_frac.
    destruct Hb as [-> | ->].
    - replace (0 * delta + rho) with rho by lia. change (0 =? 1) with false.
      destruct (Z.eqb_spec rho 0) as [-> | Hn]; cbn [negb loc_of_shr_record]; [reflexivity |].
      now rewrite (proj2 (Z.compare_lt_iff (2 * rho) (2 * delta))) by lia.
    - replace (1 * delta + rho =? 0) with false by (symmetry; apply Z.eqb_neq; lia).
      change (1 =? 1) with true.
      destruct (Z.eqb_spec rho 0) as [-> | Hn]; cbn [negb loc_of_shr_record].
      + now rewrite (proj2 (Z.compare_eq_iff (2 * (1 * delta + 0)) (2 * delta))) by lia.
      + now rewrite (proj2 (Z.compare_gt_iff (2 * (1 * delta + rho)) (2 * delta))) by lia. }
  unfold rec_ok.
  destruct k as [| p | p]; [| | lia].
  - simpl. split; [reflexivity |]. exact (Hcase 0 0 ltac:(lia) ltac:(auto)).
  - destruct p as [p | p |].
    + destruct (half_odd p) as [-> ->]. simpl shr_1. split; [reflexivity |].
      exact (Hcase (Zpos p) 1 ltac:(lia) ltac:(auto)).
    + destruct (half_even p) as [-> ->]. simpl shr_1. split; [reflexivity |].
      exact (Hcase (Zpos p) 0 ltac:(lia) ltac:(auto)).
    + simpl shr_1. change (1 / 2) with 0. change (1 mod 2) with 1.
      split; [reflexivity |]. exact (Hcase 0 1 ltac:(lia) ltac:(auto)).
Qed.

Lemma shr_iter_ok (n : nat) (r : shr_record) (k rho delta : Z) :
  0 <= k -> 0 <= rho < delta ->
  rec_ok r k rho delta ->
  rec_ok (Nat.iter n shr_1 r) (k / 2 ^ Z.of_nat n)
         ((k mod 2 ^ Z.of_nat n) * delta + rho) (2 ^ Z.of_nat n * delta).
Proof.
  intros Hk Hr H. induction n as [| n IH].
  - cbn [Nat.iter Z.of_nat]. rewrite Z.pow_0_r, Z.div_1_r, Z.mod_1_r.
    replace (0 * delta + rho) with rho by lia.
    replace (1 * delta) with delta by lia. exact H.
  - rewrite Nat2Z.inj_succ, Z.pow_succ_r by lia. cbn [Nat.iter].
    set (P := 2 ^ Z.of_nat n) in *.
    assert (HP : 0 < P) by (apply Z.pow_pos_nonneg; lia).
    pose proof (Z.mod_pos_bound k P HP) as Hb.
    assert (Hq : 0 <= k / P) by (apply Z.div_pos; lia).
    assert (Hfr : 0 <= k mod P * delta + rho < P * delta).
    { assert (0 <= k mod P * delta) by (apply Z.mul_nonneg_nonneg; lia).
      assert (k mod P * delta <= (P - 1) * delta) by (apply Z.mul_le_mono_nonneg_r; lia).
      lia. }
    pose proof (shr_1_ok _ _ _ _ Hq Hfr IH) as H1.
    replace (k / (2 * P)) with (k / P / 2)
      by (rewrite Z.div_div by lia; f_equal; lia).
    replace (k mod (2 * P) * delta + rho)
      with ((k / P) mod 2 * (P * delta) + (k mod P * delta + rho)).
    2:{ rewrite (Z.mul_comm 2 P), Z.rem_mul_r by lia. ring. }
    replace (2 * P * delta) with (2 * (P * delta)) by ring.
    exact H1.
Qed.

Lemma shr_ok (m e n rho delta : Z) :
  0 <= m -> 0 <= rho < delta -> 0 <= n ->
  exists r, shr (shr_record_of_loc m (loc_of_frac rho delta)) e n = (r, e + n) /\
            rec_ok r (m / 2 ^ n) ((m mod 2 ^ n) * delta + rho) (2 ^ n * delta).
Proof.
  intros Hm Hr Hn. destruct n as [| p | p]; [| | lia].
  - exists (shr_record_of_loc m (loc_of_frac rho delta)). split.
    + simpl. f_equal. lia.
    + rewrite Z.pow_0_r, Z.div_1_r, Z.mod_1_r.
      replace (0 * delta + rho) with rho by lia. replace (1 * delta) with delta by lia.
      apply rec_ok_of_loc.
  - exists (iter_pos shr_1 p (shr_record_of_loc m (loc_of_frac rho delta))). split.
    + reflexivity.
    + rewrite iter_pos_nat. rewrite <- (positive_nat_Z p).
      apply shr_iter_ok; try assumption. apply rec_ok_of_loc.
Qed.

(** ** What [binary_round_aux] returns *)

Lemma fexp_eq (x : Z) : fexp prec emax x = Z.max (x - 53) (-1074).
Proof. reflexivity. Qed.

Lemma cexp_ge_emin (m e : Z) : -1074 <= cexp m e.
Proof. unfold cexp. rewrite fexp_eq. lia. Qed.

Lemma two_p_half : two_p = 2 * half_p.
Proof. reflexivity. Qed.

Lemma half_p_pos : 0 < half_p.
Proof. reflexivity. Qed.

Lemma pow2_pos (n : Z) : 0 <= n -> 0 < 2 ^ n.
Proof. intros. apply Z.pow_pos_nonneg; lia. Qed.

Lemma round_nearest_even_rne (k rho delta : Z) :
  0 <= rho < delta ->
  round_nearest_even k (loc_of_frac rho delta) = rne k rho delta.
Proof.
  intros H. unfold loc_of_frac, rne, rounds_up.
  destruct (Z.eqb_spec rho 0) as [-> | Hn].
  - rewrite (proj2 (Z.compare_lt_iff (2 * 0) delta)) by lia. reflexivity.
  - cbn [round_nearest_even]. rewrite <- Z.negb_even.
    destruct (2 * rho ?= delta); try reflexivity. now destruct (Z.even k).
Qed.

Lemma rne_bounds (k rho delta : Z) : k <= rne k rho delta <= k + 1.
Proof. unfold rne. destruct (rounds_up k rho delta); lia. Qed.

(** The integer part at the canonical exponent has at most [prec] digits,
    and exactly [prec] above the smallest exponent. *)
Lemma int_part_bounds (m e : Z) :
  0 <= m -> e <= cexp m e ->
  0 <= int_part m e < two_p /\ (-1074 < cexp m e -> half_p <= int_part m e).
Proof.
  intros Hm Hn. unfold int_part.
  set (c := cexp m e) in *. set (n := c - e).
  assert (Hn0 : 0 <= n) by (unfold n; lia).
  pose proof (pow2_pos n Hn0) as HP.
  assert (Hc : c = Z.max (Zdigits2 m + e - 53) (-1074)) by (subst c; unfold cexp; apply fexp_eq).
  pose proof (Zdigits2_nonneg m) as Hd.
  split; [split |].
  - apply Z.div_pos; lia.
  - apply Z.div_lt_upper_bound; [lia |].
    destruct (Z.eq_dec m 0) as [-> | Hm0].
    + pose proof (pow2_pos 53 ltac:(lia)). unfold two_p. change prec with 53. nia.
    + pose proof (Zdigits2_bounds m ltac:(lia)) as [_ U].
      assert (2 ^ Zdigits2 m <= 2 ^ (n + 53)) by (apply Z.pow_le_mono_r; unfold n; lia).
      rewrite Z.pow_add_r in H by lia. unfold two_p. change prec with 53. lia.
  - intros Hc1.
    assert (En : n = Zdigits2 m - 53) by (unfold n; lia).
    assert (Hm0 : 0 < m).
    { destruct (Z.eq_dec m 0) as [-> | ]; [simpl in En; lia | lia]. }
    pose proof (Zdigits2_bounds m Hm0) as [L _].
    apply Z.div_le_lower_bound; [lia |].
    replace (Zdigits2 m - 1) with (n + 52) in L by lia.
    rewrite Z.pow_add_r in L by lia. unfold half_p. change (prec - 1) with 52. lia.
Qed.

Lemma frac_bounds (m e rho delta : Z) :
  0 <= m -> 0 <= rho < delta -> e <= cexp m e ->
  0 <= frac_num m e rho delta < frac_den m e delta.
Proof.
  intros Hm Hr Hn. unfold frac_num, frac_den.
  set (P := 2 ^ (cexp m e - e)).
  assert (HP : 0 < P) by (apply pow2_pos; lia).
  pose proof (Z.mod_pos_bound m P HP).
  assert (0 <= m mod P * delta) by (apply Z.mul_nonneg_nonneg; lia).
  assert (m mod P * delta <= (P - 1) * delta) by (apply Z.mul_le_mono_nonneg_r; lia).
  lia.
Qed.

(** The numerator of the number rounded is unchanged by the shift. *)
Lemma frac_numerator (m e rho delta : Z) :
  e <= cexp m e ->
  int_part m e * frac_den m e delta + frac_num m e rho delta = m * delta + rho.
Proof.
  intros Hn. unfold int_part, frac_den, frac_num.
  set (P := 2 ^ (cexp m e - e)).
  assert (HP : 0 < P) by (apply pow2_pos; lia).
  pose proof (Z.div_mod m P ltac:(lia)). nia.
Qed.

Lemma Zdigits2_two_p : Zdigits2 two_p = 54.
Proof. reflexivity. Qed.

Theorem binary_round_aux_rounded (s : bool) (m e rho delta : Z) :
  0 <= m -> 0 <= rho < delta -> e <= cexp m e ->
  binary_round_aux prec emax s m e (loc_of_frac rho delta)
  = build_float s (fst (rounded m e rho delta)) (snd (rounded m e rho delta)).
Proof.
  intros Hm Hr Hn.
  destruct (int_part_bounds m e Hm Hn) as [[Hk0 Hk1] Hk2].
  pose proof (frac_bounds m e rho delta Hm Hr Hn) as Hf.
  pose proof (cexp_ge_emin m e) as Hce.
  unfold binary_round_aux, shr_fexp.
  fold (cexp m e).
  destruct (shr_ok m e (cexp m e - e) rho delta Hm Hr ltac:(lia)) as (r & Hs & Hrm & Hrl).
  rewrite Hs. replace (e + (cexp m e - e)) with (cexp m e) by lia.
  rewrite Hrm, Hrl.
  fold (int_part m e) (frac_num m e rho delta) (frac_den m e delta).
  rewrite (round_nearest_even_rne _ _ _ Hf).
  unfold rounded.
  set (m2 := rne (int_part m e) (frac_num m e rho delta) (frac_den m e delta)).
  pose proof (rne_bounds (int_part m e) (frac_num m e rho delta) (frac_den m e delta)) as Hb.
  fold m2 in Hb.
  destruct (Z.eqb_spec m2 two_p) as [E | NE].
  - rewrite E, Zdigits2_two_p, fexp_eq.
    replace (Z.max (54 + cexp m e - 53) (-1074) - cexp m e) with 1 by lia.
    cbn [fst snd]. reflexivity.
  - assert (Hlt : m2 < two_p) by lia.
    assert (Hd : Zdigits2 m2 <= 53).
    { apply Zdigits2_le; [| lia]. unfold two_p in Hlt. change prec with 53 in Hlt. lia. }
    rewrite fexp_eq.
    assert (Hn2 : Z.max (Zdigits2 m2 + cexp m e - 53) (-1074) - cexp m e <= 0) by lia.
    cbn [fst snd].
    destruct (Z.max (Zdigits2 m2 + cexp m e - 53) (-1074) - cexp m e) as [| p | p] eqn:En2;
      [| lia |].
    + cbn [shr]. unfold shr_record_of_loc. cbn [shr_m]. unfold build_float.
      destruct m2; reflexivity.
    + cbn [shr]. unfold shr_record_of_loc. cbn [shr_m]. unfold build_float.
      destruct m2; reflexivity.
Qed.

(** ** The rounded result is a canonical float *)

Lemma rounded_canonical (m e rho delta : Z) :
  0 <= m -> 0 <= rho < delta -> e <= cexp m e ->
  canonical_pair (fst (rounded m e rho delta)) (snd (rounded m e rho delta)).
Proof.
  intros Hm Hr Hn.
  destruct (int_part_bounds m e Hm Hn) as [[Hk0 Hk1] Hk2].
  pose proof (cexp_ge_emin m e) as Hce.
  pose proof (rne_bounds (int_part m e) (frac_num m e rho delta) (frac_den m e delta)) as Hb.
  pose proof half_p_pos. pose proof two_p_half.
  unfold rounded, canonical_pair.
  destruct (Z.eqb_spec (rne (int_part m e) (frac_num m e rho delta) (frac_den m e delta)) two_p);
    cbn [fst snd]; repeat split; try lia.
Qed.

Lemma canonical_digits (M E : Z) :
  canonical_pair M E -> 0 < M -> fexp prec emax (Zdigits2 M + E) = E.
Proof.
  intros (HM & HE & Hn) H0. rewrite fexp_eq.
  assert (Hd : Zdigits2 M <= 53).
  { apply Zdigits2_le; [| lia]. unfold two_p in HM. change prec with 53 in HM. lia. }
  destruct (Z.eq_dec E (-1074)) as [-> | NE]; [lia |].
  assert (53 <= Zdigits2 M).
  { apply Zdigits2_ge; [| lia]. change (53 - 1) with (prec - 1). fold half_p. lia. }
  lia.
Qed.

Lemma valid_build_float (s : bool) (M E : Z) :
  canonical_pair M E -> valid_binary (build_float s M E) = true.
Proof.
  intros HC. unfold build_float.
  destruct M as [| p | p]; [reflexivity | | reflexivity].
  destruct (Z.leb_spec E (emax - prec)) as [Hle | Hgt]; [| reflexivity].
  cbn [SpecFloat.valid_binary]. unfold bounded, canonical_mantissa.
  change (Zpos (digits2_pos p)) with (Zdigits2 (Zpos p)).
  rewrite (canonical_digits (Zpos p) E HC ltac:(lia)), Z.eqb_refl.
  apply Z.leb_le in Hle. now rewrite Hle.
Qed.

(** A valid finite float is a canonical pair. *)
Lemma valid_canonical (s : bool) (p : positive) (e : Z) :
  valid_binary (S754_finite s p e) = true ->
  canonical_pair (Zpos p) e /\ e <= 971.
Proof.
  cbn [SpecFloat.valid_binary]. unfold bounded, canonical_mantissa.
  intros H. apply andb_true_iff in H as [H1 H2].
  apply Z.eqb_eq in H1. apply Z.leb_le in H2. change (emax - prec) with 971 in H2.
  change (Zpos (digits2_pos p)) with (Zdigits2 (Zpos p)) in H1.
  rewrite fexp_eq in H1.
  pose proof (Zdigits2_bounds (Zpos p) ltac:(lia)) as [L U].
  split; [| exact H2]. unfold canonical_pair. repeat split; try lia.
  - assert (2 ^ Zdigits2 (Zpos p) <= 2 ^ 53) by (apply Z.pow_le_mono_r; lia).
    unfold two_p. change prec with 53. lia.
  - intros Hn. assert (Ed : Zdigits2 (Zpos p) = 53) by lia.
    rewrite Ed in L. exact L.
Qed.

(** ** Order of rounded results *)

Lemma SFleb_build (M E M' E' : Z) :
  0 <= M' -> out_le (M, E) (M', E') ->
  SFleb (build_float false M E) (build_float false M' E') = true.
Proof.
  intros HM' H. unfold out_le in H. cbn [fst snd] in H.
  destruct H as [-> | (H0 & H0' & Hlex)].
  - unfold build_float at 1. destruct M' as [| p' | p']; [reflexivity | | lia].
    unfold build_float. destruct (E' <=? emax - prec); reflexivity.
  - destruct M as [| p | p]; try lia. destruct M' as [| p' | p']; try lia.
    unfold build_float.
    destruct (Z.leb_spec E (emax - prec)) as [HE | HE];
      destruct (Z.leb_spec E' (emax - prec)) as [HE' | HE']; try reflexivity.
    + unfold SFleb, SFcompare.
      destruct Hlex as [Hlt | [-> Hle]].
      * now rewrite (proj2 (Z.compare_lt_iff E E')) by lia.
      * rewrite Z.compare_refl.
        change (Pos.compare_cont Eq p p') with (Pos.compare p p').
        destruct (Pos.compare_spec p p'); try reflexivity. lia.
    + lia.
Qed.

Lemma rne_mono_frac (k r d r' d' : Z) :
  0 <= r < d -> 0 <= r' < d' -> r * d' <= r' * d ->
  rne k r d <= rne k r' d'.
Proof.
  intros Hr Hr' H. unfold rne, rounds_up.
  destruct (Z.compare_spec (2 * r) d) as [E | L | G];
    destruct (Z.compare_spec (2 * r') d') as [E' | L' | G'];
    try destruct (Z.odd k); try lia; exfalso; nia.
Qed.

(** Rounding keeps the order: smaller canonical exponent first, then the
    smaller number at the same exponent. *)
Lemma rounded_mono_level (k r d c k' r' d' c' : Z) :
  0 <= k < two_p -> 0 <= r < d -> -1074 <= c -> (-1074 < c -> half_p <= k) ->
  0 <= k' < two_p -> 0 <= r' < d' -> -1074 <= c' -> (-1074 < c' -> half_p <= k') ->
  c < c' \/ (c = c' /\ (k * d + r) * d' <= (k' * d' + r') * d) ->
  out_le (if rne k r d =? two_p then (half_p, c + 1) else (rne k r d, c))
         (if rne k' r' d' =? two_p then (half_p, c' + 1) else (rne k' r' d', c')).
Proof.
  intros Hk Hr Hc Hn Hk' Hr' Hc' Hn' Hlex.
  pose proof (rne_bounds k r d) as Hb. pose proof (rne_bounds k' r' d') as Hb'.
  pose proof half_p_pos as Hh. pose proof two_p_half as Ht.
  unfold out_le.
  destruct Hlex as [Hlt | [-> Hle]].
  - assert (Hk2 : half_p <= k') by (apply Hn'; lia).
    destruct (Z.eqb_spec (rne k r d) two_p) as [E | NE];
      destruct (Z.eqb_spec (rne k' r' d') two_p) as [E' | NE']; cbn [fst snd];
      destruct (Z.eq_dec (rne k r d) 0) as [Z0 | NZ]; try (left; lia); right; lia.
  - assert (Hkk : k <= k').
    { destruct (Z_le_gt_dec k k') as [| G]; [assumption | exfalso].
      assert ((k' + 1) * d * d' <= k * d * d').
      { apply Z.mul_le_mono_nonneg_r; [lia |]. apply Z.mul_le_mono_nonneg_r; lia. }
      assert (0 <= r * d') by (apply Z.mul_nonneg_nonneg; lia).
      assert (r' * d < d' * d) by (apply Z.mul_lt_mono_pos_r; lia).
      nia. }
    assert (Hm : rne k r d <= rne k' r' d').
    { destruct (Z.eq_dec k k') as [<- | NEk].
      - apply rne_mono_frac; try assumption. nia.
      - lia. }
    destruct (Z.eqb_spec (rne k r d) two_p) as [E | NE];
      destruct (Z.eqb_spec (rne k' r' d') two_p) as [E' | NE']; cbn [fst snd];
      destruct (Z.eq_dec (rne k r d) 0) as [Z0 | NZ]; try (left; lia); right; lia.
Qed.

Lemma pow2_split (a b : Z) : 0 <= a -> 0 <= b -> 2 ^ (a + b) = 2 ^ a * 2 ^ b.
Proof. intros. now apply Z.pow_add_r. Qed.

(** Rounding is monotone: of two numbers in order, the rounded results are
    in order. *)
Theorem rounded_mono (B m e rho delta m' e' rho' delta' : Z) :
  0 <= m -> 0 <= rho < delta -> e <= cexp m e ->
  0 <= m' -> 0 <= rho' < delta' -> e' <= cexp m' e' ->
  B <= e -> B <= e' ->
  vle B (m * delta + rho) delta e (m' * delta' + rho') delta' e' ->
  out_le (rounded m e rho delta) (rounded m' e' rho' delta').
Proof.
  intros Hm Hr Hn Hm' Hr' Hn' HB HB' Hv.
  destruct (int_part_bounds m e Hm Hn) as [Hk Hk2].
  destruct (int_part_bounds m' e' Hm' Hn') as [Hk' Hk2'].
  pose proof (frac_bounds m e rho delta Hm Hr Hn) as Hf.
  pose proof (frac_bounds m' e' rho' delta' Hm' Hr' Hn') as Hf'.
  pose proof (frac_numerator m e rho delta Hn) as HN.
  pose proof (frac_numerator m' e' rho' delta' Hn') as HN'.
  pose proof (cexp_ge_emin m e) as Hce. pose proof (cexp_ge_emin m' e') as Hce'.
  unfold rounded.
  apply rounded_mono_level; try assumption.
  set (c := cexp m e) in *. set (c' := cexp m' e') in *.
  set (k := int_part m e) in *. set (k' := int_part m' e') in *.
  set (r := frac_num m e rho delta) in *. set (r' := frac_num m' e' rho' delta') in *.
  set (d := frac_den m e delta) in *. set (d' := frac_den m' e' delta') in *.
  rewrite HN, HN'.
  set (N := m * delta + rho) in *. set (N' := m' * delta' + rho') in *.
  unfold vle in Hv.
  pose proof (pow2_pos (e - B) ltac:(lia)) as Ha.
  pose proof (pow2_pos (e' - B) ltac:(lia)) as Ha'.
  pose proof (pow2_pos (c - e) ltac:(lia)) as Hs.
  pose proof (pow2_pos (c' - e') ltac:(lia)) as Hs'.
  assert (Ed : d = 2 ^ (c - e) * delta) by reflexivity.
  assert (Ed' : d' = 2 ^ (c' - e') * delta') by reflexivity.
  assert (EQ : 2 ^ (c - B) = 2 ^ (e - B) * 2 ^ (c - e)).
  { rewrite <- pow2_split by lia. f_equal. lia. }
  assert (EQ' : 2 ^ (c' - B) = 2 ^ (e' - B) * 2 ^ (c' - e')).
  { rewrite <- pow2_split by lia. f_equal. lia. }
  assert (Hv1 : N * d' * 2 ^ (c - B) <= N' * d * 2 ^ (c' - B)).
  { rewrite EQ, EQ', Ed, Ed'.
    assert (0 < 2 ^ (c - e) * 2 ^ (c' - e')) by lia.
    apply (Z.mul_le_mono_nonneg_r _ _ (2 ^ (c - e) * 2 ^ (c' - e'))) in Hv; [| lia].
    replace (N * (2 ^ (c' - e') * delta') * (2 ^ (e - B) * 2 ^ (c - e)))
      with (N * delta' * 2 ^ (e - B) * (2 ^ (c - e) * 2 ^ (c' - e'))) by ring.
    replace (N' * (2 ^ (c - e) * delta) * (2 ^ (e' - B) * 2 ^ (c' - e')))
      with (N' * delta * 2 ^ (e' - B) * (2 ^ (c - e) * 2 ^ (c' - e'))) by ring.
    exact Hv. }
  pose proof (pow2_pos (c' - B) ltac:(lia)) as HQ'.
  destruct (Z.lt_trichotomy c c') as [Hlt | [Heq | Hgt]].
  - left. exact Hlt.
  - right. split; [exact Heq |]. rewrite Heq in Hv1.
    apply Z.mul_le_mono_pos_r in Hv1; assumption.
  - exfalso.
    assert (EP : 2 ^ (c - B) = 2 ^ (c - c') * 2 ^ (c' - B)).
    { rewrite <- pow2_split by lia. f_equal. lia. }
    assert (HP : 2 <= 2 ^ (c - c')).
    { change 2 with (2 ^ 1) at 1. apply Z.pow_le_mono_r; lia. }
    rewrite EP in Hv1.
    replace (N * d' * (2 ^ (c - c') * 2 ^ (c' - B)))
      with (N * d' * 2 ^ (c - c') * 2 ^ (c' - B)) in Hv1 by ring.
    apply Z.mul_le_mono_pos_r in Hv1; [| assumption].
    assert (Hh : half_p <= k) by (apply Hk2; lia).
    pose proof two_p_half as Ht. pose proof half_p_pos as Hhp.
    assert (Hd0 : 0 < d) by lia. assert (Hd0' : 0 < d') by lia.
    assert (L1 : half_p * d <= N) by nia.
    assert (L2 : N' < two_p * d') by nia.
    assert (L3 : half_p * d * d' * 2 <= N * d' * 2 ^ (c - c')).
    { assert (half_p * d * d' <= N * d') by (apply Z.mul_le_mono_nonneg_r; lia).
      assert (0 <= N * d') by nia.
      nia. }
    assert (L4 : N' * d < two_p * d' * d) by (apply Z.mul_lt_mono_pos_r; lia).
    nia.
Qed.

(** In terms of [binary_round_aux]. *)
Theorem binary_round_aux_mono (B m e rho delta m' e' rho' delta' : Z) :
  0 <= m -> 0 <= rho < delta -> e <= cexp m e ->
  0 <= m' -> 0 <= rho' < delta' -> e' <= cexp m' e' ->
  B <= e -> B <= e' ->
  vle B (m * delta + rho) delta e (m' * delta' + rho') delta' e' ->
  SFleb (binary_round_aux prec emax false m e (loc_of_frac rho delta))
        (binary_round_aux prec emax false m' e' (loc_of_frac rho' delta')) = true.
Proof.
  intros Hm Hr Hn Hm' Hr' Hn' HB HB' Hv.
  rewrite !binary_round_aux_rounded by assumption.
  pose proof (rounded_mono B m e rho delta m' e' rho' delta'
                Hm Hr Hn Hm' Hr' Hn' HB HB' Hv) as H.
  destruct (rounded_canonical m' e' rho' delta' Hm' Hr' Hn') as [[H0 _] _].
  destruct (rounded m e rho delta) as [M E], (rounded m' e' rho' delta') as [M' E'].
  cbn [fst snd] in *. now apply SFleb_build.
Qed.

(** ** Division *)

Lemma new_location_frac (k nb : Z) :
  0 <= k < nb -> new_location nb k = loc_of_frac k nb.
Proof.
  intros H. unfold new_location, new_location_even, new_location_odd, loc_of_frac.
  destruct (Z.even nb) eqn:Ev; [reflexivity |].
  destruct (Z.eqb_spec k 0) as [-> | Hn]; [reflexivity |]. f_equal.
  assert (Hodd : Z.odd nb = true) by (rewrite <- Z.negb_even, Ev; reflexivity).
  apply Z.odd_spec in Hodd as [h Hh].
  destruct (Z.compare_spec (2 * k + 1) nb) as [E | L | G];
    destruct (Z.compare_spec (2 * k) nb) as [E' | L' | G']; try reflexivity; lia.
Qed.

Lemma div_shift_nonneg mx ex my ey : 0 <= div_shift mx ex my ey.
Proof. unfold div_shift, div_exp. lia. Qed.

Lemma SFdiv_core_eq (mx : positive) (ex : Z) (my : positive) (ey : Z) :
  let s := div_shift mx ex my ey in
  SFdiv_core_binary prec emax (Zpos mx) ex (Zpos my) ey
  = ((Zpos mx * 2 ^ s) / Zpos my, div_exp mx ex my ey,
     loc_of_frac ((Zpos mx * 2 ^ s) mod Zpos my) (Zpos my)).
Proof.
  intros s. unfold SFdiv_core_binary.
  fold (div_exp mx ex my ey). fold (div_shift mx ex my ey). fold s.
  pose proof (div_shift_nonneg mx ex my ey) as Hs. fold s in Hs.
  assert (Em : match s with
               | 0 => Zpos mx
               | Zpos _ => Z.shiftl (Zpos mx) s
               | Zneg _ => 0
               end = Zpos mx * 2 ^ s).
  { destruct s as [| p | p]; [rewrite Z.pow_0_r; lia | | lia].
    now rewrite Z.shiftl_mul_pow2 by lia. }
  rewrite Em.
  pose proof (Z.mod_pos_bound (Zpos mx * 2 ^ s) (Zpos my) ltac:(lia)) as Hb.
  unfold Z.div, Z.modulo in *.
  destruct (Z.div_eucl (Zpos mx * 2 ^ s) (Zpos my)) as [q r].
  now rewrite new_location_frac.
Qed.

(** The quotient has the digits the rounding needs. *)
Lemma div_precision (mx : positive) (ex : Z) (my : positive) (ey : Z) :
  let s := div_shift mx ex my ey in
  let e' := div_exp mx ex my ey in
  e' <= cexp ((Zpos mx * 2 ^ s) / Zpos my) e'.
Proof.
  intros s e'. unfold cexp. rewrite fexp_eq.
  pose proof (div_shift_nonneg mx ex my ey) as Hs. fold s in Hs.
  destruct (Z_le_gt_dec e' (-1074)) as [| Hgt]; [lia |].
  assert (Hq : 2 ^ 52 <= Zpos mx * 2 ^ s / Zpos my).
  { apply Z.div_le_lower_bound; [lia |].
    pose proof (Zdigits2_bounds (Zpos mx) ltac:(lia)) as [L1 _].
    pose proof (Zdigits2_bounds (Zpos my) ltac:(lia)) as [_ U2].
    pose proof (Zdigits2_pos (Zpos mx) ltac:(lia)) as P1.
    pose proof (Zdigits2_pos (Zpos my) ltac:(lia)) as P2.
    assert (Hs2 : 53 - Zdigits2 (Zpos mx) + Zdigits2 (Zpos my) <= s).
    { unfold s, div_shift. fold e'. unfold e', div_exp in *. rewrite fexp_eq in *. lia. }
    assert (E1 : 2 ^ (52 + Zdigits2 (Zpos my)) <= 2 ^ (Zdigits2 (Zpos mx) - 1 + s))
      by (apply Z.pow_le_mono_r; lia).
    rewrite !pow2_split in E1 by lia.
    pose proof (pow2_pos s Hs). pose proof (pow2_pos 52 ltac:(lia)).
    assert (2 ^ 52 * Zpos my <= 2 ^ 52 * 2 ^ Zdigits2 (Zpos my))
      by (apply Z.mul_le_mono_nonneg_l; lia).
    assert (2 ^ (Zdigits2 (Zpos mx) - 1) * 2 ^ s <= Zpos mx * 2 ^ s)
      by (apply Z.mul_le_mono_nonneg_r; lia).
    lia. }
  assert (53 <= Zdigits2 (Zpos mx * 2 ^ s / Zpos my)).
  { apply Zdigits2_ge; [exact Hq | lia]. }
  lia.
Qed.

Lemma SFdiv_finite (mx : positive) (ex : Z) (my : positive) (ey : Z) :
  let s := div_shift mx ex my ey in
  SFdiv prec emax (S754_finite false mx ex) (S754_finite false my ey)
  = binary_round_aux prec emax false ((Zpos mx * 2 ^ s) / Zpos my) (div_exp mx ex my ey)
      (loc_of_frac ((Zpos mx * 2 ^ s) mod Zpos my) (Zpos my)).
Proof.
  intros s. unfold SFdiv. rewrite SFdiv_core_eq. reflexivity.
Qed.

(** Division is monotone: [x / y <= x' / y'] in floats when
    [x * y' <= x' * y] exactly. *)
Theorem SFdiv_mono (mx : positive) (ex : Z) (my : positive) (ey : Z)
        (mx' : positive) (ex' : Z) (my' : positive) (ey' : Z) (C : Z) :
  C <= ex + ey' -> C <= ex' + ey ->
  Zpos mx * Zpos my' * 2 ^ (ex + ey' - C) <= Zpos mx' * Zpos my * 2 ^ (ex' + ey - C) ->
  SFleb (SFdiv prec emax (S754_finite false mx ex) (S754_finite false my ey))
        (SFdiv prec emax (S754_finite false mx' ex') (S754_finite false my' ey')) = true.
Proof.
  intros HC HC' H. rewrite !SFdiv_finite.
  set (s := div_shift mx ex my ey). set (s' := div_shift mx' ex' my' ey').
  set (e1 := div_exp mx ex my ey). set (e1' := div_exp mx' ex' my' ey').
  pose proof (div_shift_nonneg mx ex my ey) as Hs. fold s in Hs.
  pose proof (div_shift_nonneg mx' ex' my' ey') as Hs'. fold s' in Hs'.
  pose proof (pow2_pos s Hs) as Ps. pose proof (pow2_pos s' Hs') as Ps'.
  assert (Ee : e1 = ex - ey - s) by (unfold s, div_shift; fold e1; lia).
  assert (Ee' : e1' = ex' - ey' - s') by (unfold s', div_shift; fold e1'; lia).
  pose proof (Z.mod_pos_bound (Zpos mx * 2 ^ s) (Zpos my) ltac:(lia)) as Hb.
  pose proof (Z.mod_pos_bound (Zpos mx' * 2 ^ s') (Zpos my') ltac:(lia)) as Hb'.
  apply (binary_round_aux_mono (C - ey - ey' - s - s')); try assumption; try lia.
  - apply Z.div_pos; lia.
  - apply div_precision.
  - apply Z.div_pos; lia.
  - apply div_precision.
  - unfold vle.
    rewrite (Z.mul_comm (Zpos mx * 2 ^ s / Zpos my)), <- Z.div_mod by lia.
    rewrite (Z.mul_comm (Zpos mx' * 2 ^ s' / Zpos my')), <- Z.div_mod by lia.
    replace (e1 - (C - ey - ey' - s - s')) with ((ex + ey' - C) + s') by lia.
    replace (e1' - (C - ey - ey' - s - s')) with ((ex' + ey - C) + s) by lia.
    rewrite !pow2_split by lia.
    apply (Z.mul_le_mono_nonneg_r _ _ (2 ^ s * 2 ^ s')) in H; [| lia].
    replace (Zpos mx * 2 ^ s * Zpos my' * (2 ^ (ex + ey' - C) * 2 ^ s'))
      with (Zpos mx * Zpos my' * 2 ^ (ex + ey' - C) * (2 ^ s * 2 ^ s')) by ring.
    replace (Zpos mx' * 2 ^ s' * Zpos my * (2 ^ (ex' + ey - C) * 2 ^ s))
      with (Zpos mx' * Zpos my * 2 ^ (ex' + ey - C) * (2 ^ s * 2 ^ s')) by ring.
    exact H.
Qed.

(** ** Values of floats in order *)

Lemma val_le_base (B m e m' e' : Z) :
  B <= e -> B <= e' ->
  (val_le m e m' e' <-> m * 2 ^ (e - B) <= m' * 2 ^ (e' - B)).
Proof.
  intros HB HB'. unfold val_le. set (M := Z.min e e').
  assert (HM : B <= M) by (unfold M; lia).
  assert (E1 : 2 ^ (e - B) = 2 ^ (e - M) * 2 ^ (M - B)).
  { rewrite <- pow2_split by (unfold M; lia). f_equal. lia. }
  assert (E2 : 2 ^ (e' - B) = 2 ^ (e' - M) * 2 ^ (M - B)).
  { rewrite <- pow2_split by (unfold M; lia). f_equal. lia. }
  rewrite E1, E2, !Z.mul_assoc.
  pose proof (pow2_pos (M - B) ltac:(lia)).
  split; intros H0.
  - apply Z.mul_le_mono_nonneg_r; lia.
  - apply Z.mul_le_mono_pos_r in H0; assumption.
Qed.

(** Canonical floats compare by exponent, then by mantissa. *)
Lemma lex_val_le (m e m' e' : Z) :
  canonical_pair m e -> canonical_pair m' e' ->
  e < e' \/ (e = e' /\ m <= m') -> val_le m e m' e'.
Proof.
  intros (Hm & He & Hn) (Hm' & He' & Hn') [Hlt | [-> Hle]]; unfold val_le.
  - rewrite Z.min_l by lia. rewrite Z.sub_diag, Z.pow_0_r.
    assert (2 <= 2 ^ (e' - e)).
    { change 2 with (2 ^ 1) at 1. apply Z.pow_le_mono_r; lia. }
    pose proof (Hn' ltac:(lia)). pose proof two_p_half. nia.
  - rewrite Z.min_id, Z.sub_diag, Z.pow_0_r. lia.
Qed.

Lemma val_le_lex (m e m' e' : Z) :
  canonical_pair m e -> canonical_pair m' e' -> 0 < m ->
  val_le m e m' e' -> e < e' \/ (e = e' /\ m <= m').
Proof.
  intros (Hm & He & Hn) (Hm' & He' & Hn') H0 H. unfold val_le in H.
  destruct (Z.lt_trichotomy e e') as [L | [E | G]]; [now left | right | exfalso].
  - subst e'. rewrite Z.min_id, Z.sub_diag, Z.pow_0_r in H. split; lia.
  - rewrite Z.min_r in H by lia. rewrite Z.sub_diag, Z.pow_0_r in H.
    assert (2 <= 2 ^ (e - e')).
    { change 2 with (2 ^ 1) at 1. apply Z.pow_le_mono_r; lia. }
    pose proof (Hn ltac:(lia)). pose proof two_p_half. nia.
Qed.

Lemma SFleb_finite_lex (m : positive) (e : Z) (m' : positive) (e' : Z) :
  SFleb (S754_finite false m e) (S754_finite false m' e') = true <->
  e < e' \/ (e = e' /\ Zpos m <= Zpos m').
Proof.
  unfold SFleb, SFcompare.
  destruct (Z.compare_spec e e') as [-> | L | G].
  - change (Pos.compare_cont Eq m m') with (Pos.compare m m').
    destruct (Pos.compare_spec m m') as [Hc | Hc | Hc]; split; intros Hx;
      try discriminate; try reflexivity;
      try (right; split; lia); destruct Hx as [? | [_ ?]]; lia.
  - split; [intros _; now left | reflexivity].
  - split; [discriminate | intros [? | [? _]]; lia].
Qed.

Lemma SFltb_finite_lex (m : positive) (e : Z) (m' : positive) (e' : Z) :
  SFltb (S754_finite false m e) (S754_finite false m' e') = true <->
  e < e' \/ (e = e' /\ Zpos m < Zpos m').
Proof.
  unfold SFltb, SFcompare.
  destruct (Z.compare_spec e e') as [-> | L | G].
  - change (Pos.compare_cont Eq m m') with (Pos.compare m m').
    destruct (Pos.compare_spec m m') as [Hc | Hc | Hc]; split; intros Hx;
      try discriminate; try reflexivity;
      try (right; split; lia); destruct Hx as [? | [_ ?]]; lia.
  - split; [intros _; now left | reflexivity].
  - split; [discriminate | intros [? | [? _]]; lia].
Qed.

(** ** Multiplication and the cube *)

Lemma SFmul_finite (mx : positive) (ex : Z) (my : positive) (ey : Z) :
  SFmul prec emax (S754_finite false mx ex) (S754_finite false my ey)
  = binary_round_aux prec emax false (Zpos mx * Zpos my) (ex + ey) (loc_of_frac 0 1).
Proof. reflexivity. Qed.

Lemma product_precision (mx my ex ey : Z) :
  half_p <= mx -> 0 < my -> ex + ey <= cexp (mx * my) (ex + ey).
Proof.
  intros Hx Hy. unfold cexp. rewrite fexp_eq.
  assert (53 <= Zdigits2 (mx * my)).
  { apply Zdigits2_ge; [| lia]. change (53 - 1) with (prec - 1). fold half_p.
    pose proof half_p_pos. nia. }
  lia.
Qed.

(** Multiplication by a normal number is monotone. *)
Theorem SFmul_mono (mx : positive) (ex : Z) (my : positive) (ey : Z)
        (my' : positive) (ey' : Z) :
  half_p <= Zpos mx ->
  val_le (Zpos my) ey (Zpos my') ey' ->
  SFleb (SFmul prec emax (S754_finite false mx ex) (S754_finite false my ey))
        (SFmul prec emax (S754_finite false mx ex) (S754_finite false my' ey')) = true.
Proof.
  intros Hx H. rewrite !SFmul_finite.
  apply (binary_round_aux_mono (ex + Z.min ey ey')); try lia.
  - apply product_precision; lia.
  - apply product_precision; lia.
  - unfold vle. unfold val_le in H.
    replace (ex + ey - (ex + Z.min ey ey')) with (ey - Z.min ey ey') by lia.
    replace (ex + ey' - (ex + Z.min ey ey')) with (ey' - Z.min ey ey') by lia.
    rewrite !Z.mul_1_r, !Z.add_0_r.
    rewrite <- !Z.mul_assoc. apply Z.mul_le_mono_nonneg_l; lia.
Qed.

Lemma binary_round_no_shift (s : bool) (mx : positive) (ex : Z) :
  ex <= cexp (Zpos mx) ex ->
  binary_round prec emax s mx ex
  = binary_round_aux prec emax s (Zpos mx) ex (loc_of_frac 0 1).
Proof.
  intros H. unfold binary_round, shl_align, cexp in *.
  change (Zpos (digits2_pos mx)) with (Zdigits2 (Zpos mx)).
  destruct (fexp prec emax (Zdigits2 (Zpos mx) + ex) - ex) as [| p | p] eqn:E;
    [reflexivity | reflexivity | lia].
Qed.

Lemma cube_precision (m e : Z) :
  canonical_pair m e -> 0 < m -> 3 * e <= cexp (m * m * m) (3 * e).
Proof.
  intros (Hm & He & Hn) H0. unfold cexp. rewrite fexp_eq.
  destruct (Z.eq_dec e (-1074)) as [-> | NE]; [lia |].
  pose proof (Hn ltac:(lia)) as Hh.
  assert (157 <= Zdigits2 (m * m * m)).
  { apply Zdigits2_ge; [| lia].
    change (2 ^ (157 - 1)) with (half_p * half_p * half_p).
    pose proof half_p_pos.
    assert (half_p * half_p <= m * m) by nia.
    assert (0 < half_p * half_p) by nia.
    nia. }
  lia.
Qed.

(** The correctly rounded cube is monotone. *)
Theorem cube_mono (m : positive) (e : Z) (m' : positive) (e' : Z) :
  canonical_pair (Zpos m) e -> canonical_pair (Zpos m') e' ->
  val_le (Zpos m) e (Zpos m') e' ->
  SFleb (binary_round prec emax false (m * m * m) (3 * e))
        (binary_round prec emax false (m' * m' * m') (3 * e')) = true.
Proof.
  intros HC HC' H.
  pose proof (cube_precision (Zpos m) e HC ltac:(lia)) as P.
  pose proof (cube_precision (Zpos m') e' HC' ltac:(lia)) as P'.
  rewrite !binary_round_no_shift by (rewrite !Pos2Z.inj_mul; assumption).
  rewrite !Pos2Z.inj_mul.
  apply (binary_round_aux_mono (3 * Z.min e e')); try lia.
  unfold vle. unfold val_le in H. rewrite !Z.mul_1_r, !Z.add_0_r.
  set (a := 2 ^ (e - Z.min e e')) in *. set (a' := 2 ^ (e' - Z.min e e')) in *.
  assert (Ha : 0 < a) by (apply pow2_pos; lia).
  assert (Ha' : 0 < a') by (apply pow2_pos; lia).
  assert (E : 2 ^ (3 * e - 3 * Z.min e e') = a * a * a).
  { unfold a. rewrite <- !pow2_split by lia. f_equal. lia. }
  assert (E' : 2 ^ (3 * e' - 3 * Z.min e e') = a' * a' * a').
  { unfold a'. rewrite <- !pow2_split by lia. f_equal. lia. }
  rewrite E, E'.
  set (x := Zpos m * a) in *. set (y := Zpos m' * a') in *.
  replace (Zpos m * Zpos m * Zpos m * (a * a * a)) with (x * x * x) by (unfold x; ring).
  replace (Zpos m' * Zpos m' * Zpos m' * (a' * a' * a')) with (y * y * y) by (unfold y; ring).
  assert (0 < x) by (unfold x; nia).
  assert (x * x <= y * y) by nia.
  assert (0 <= x * x) by nia.
  nia.
Qed.

(** ** Floats that are zero, positive or the positive infinity *)

Lemma rounded_float_nonneg (x : spec_float) : rounded_float x -> nonneg x.
Proof.
  intros (M & E & (HM & _) & ->). unfold build_float.
  destruct M as [| p | p]; [exact I | | lia].
  destruct (E <=? emax - prec); exact I.
Qed.

Lemma rounded_float_valid (x : spec_float) : rounded_float x -> valid_binary x = true.
Proof. intros (M & E & HC & ->). now apply valid_build_float. Qed.

Lemma rounded_float_finite (m : positive) (e : Z) :
  rounded_float (S754_finite false m e) -> canonical_pair (Zpos m) e.
Proof.
  intros (M & E & HC & H). unfold build_float in H.
  destruct M as [| p | p]; try discriminate.
  destruct (E <=? emax - prec); try discriminate.
  injection H as -> ->. exact HC.
Qed.

Lemma rounded_float_zero : rounded_float (S754_zero false).
Proof.
  exists 0, (-1074). split; [| reflexivity].
  unfold canonical_pair. pose proof half_p_pos. pose proof two_p_half.
  repeat split; lia.
Qed.

Lemma rounded_float_infinity : rounded_float (S754_infinity false).
Proof.
  exists half_p, 1000. split; [| reflexivity].
  unfold canonical_pair. pose proof half_p_pos. pose proof two_p_half.
  repeat split; lia.
Qed.

Lemma valid_rounded_float (m : positive) (e : Z) :
  valid_binary (S754_finite false m e) = true -> rounded_float (S754_finite false m e).
Proof.
  intros H. destruct (valid_canonical false m e H) as [HC He].
  exists (Zpos m), e. split; [exact HC |]. unfold build_float.
  change (emax - prec) with 971.
  now rewrite (proj2 (Z.leb_le e 971) He).
Qed.

Lemma binary_round_aux_rounded_float (m e rho delta : Z) :
  0 <= m -> 0 <= rho < delta -> e <= cexp m e ->
  rounded_float (binary_round_aux prec emax false m e (loc_of_frac rho delta)).
Proof.
  intros Hm Hr Hn. rewrite binary_round_aux_rounded by assumption.
  exists (fst (rounded m e rho delta)), (snd (rounded m e rho delta)).
  split; [now apply rounded_canonical | reflexivity].
Qed.

Lemma SFleb_zero (x : spec_float) : nonneg x -> SFleb (S754_zero false) x = true.
Proof. destruct x as [[] | [] | | [] m e]; simpl; intros H; try contradiction; reflexivity. Qed.

Lemma SFleb_infinity (x : spec_float) : nonneg x -> SFleb x (S754_infinity false) = true.
Proof. destruct x as [[] | [] | | [] m e]; simpl; intros H; try contradiction; reflexivity. Qed.


Lemma SFleb_total (x y : spec_float) :
  nonneg x -> nonneg y -> SFltb x y = false -> SFleb y x = true.
Proof.
  destruct x as [[] | [] | | [] m e]; destruct y as [[] | [] | | [] m' e'];
    simpl; intros Hx Hy H; try contradiction; try discriminate; try reflexivity.
  apply SFleb_finite_lex.
  destruct (Z.lt_trichotomy e e') as [L | [E | G]].
  - assert (SFltb (S754_finite false m e) (S754_finite false m' e') = true)
      by (apply SFltb_finite_lex; lia). congruence.
  - destruct (Z_lt_le_dec (Zpos m) (Zpos m')) as [L | G].
    + assert (SFltb (S754_finite false m e) (S754_finite false m' e') = true)
        by (apply SFltb_finite_lex; lia). congruence.
    + right. split; lia.
  - now left.
Qed.

Lemma SFltb_leb_trans (x y z : spec_float) :
  nonneg x -> nonneg y -> nonneg z ->
  SFltb x y = true -> SFleb y z = true -> SFltb x z = true.
Proof.
  destruct x as [[] | [] | | [] m e]; destruct y as [[] | [] | | [] m' e'];
    destruct z as [[] | [] | | [] m'' e''];
    simpl; intros Hx Hy Hz H1 H2; try contradiction; try discriminate; try reflexivity.
  apply SFltb_finite_lex in H1. apply SFleb_finite_lex in H2. apply SFltb_finite_lex. lia.
Qed.

(** A function on floats that keeps zero and the infinity, and is monotone
    on the finite positive floats, is monotone on all of them. *)
Lemma monotone_extension (f : spec_float -> spec_float) :
  f (S754_zero false) = S754_zero false ->
  f (S754_infinity false) = S754_infinity false ->
  (forall m e, canonical_pair (Zpos m) e -> rounded_float (f (S754_finite false m e))) ->
  (forall m e m' e',
      canonical_pair (Zpos m) e -> canonical_pair (Zpos m') e' ->
      val_le (Zpos m) e (Zpos m') e' ->
      SFleb (f (S754_finite false m e)) (f (S754_finite false m' e')) = true) ->
  forall x y, rounded_float x -> rounded_float y -> SFleb x y = true ->
              rounded_float (f x) /\ rounded_float (f y) /\ SFleb (f x) (f y) = true.
Proof.
  intros Hz Hi Hr Hm x y Hx Hy Hle.
  assert (Hf : forall u, rounded_float u -> rounded_float (f u)).
  { intros u Hu. pose proof (rounded_float_nonneg u Hu) as Hn.
    destruct u as [[] | [] | | [] m e]; try contradiction.
    - rewrite Hz. apply rounded_float_zero.
    - rewrite Hi. apply rounded_float_infinity.
    - apply Hr. now apply rounded_float_finite. }
  split; [now apply Hf | split; [now apply Hf |]].
  pose proof (rounded_float_nonneg x Hx) as Nx.
  pose proof (rounded_float_nonneg y Hy) as Ny.
  pose proof (rounded_float_nonneg _ (Hf x Hx)) as Nfx.
  pose proof (rounded_float_nonneg _ (Hf y Hy)) as Nfy.
  destruct x as [[] | [] | | [] m e]; try contradiction.
  - rewrite Hz. now apply SFleb_zero.
  - destruct y as [[] | [] | | [] m' e']; try contradiction; try discriminate.
    rewrite Hi. reflexivity.
  - destruct y as [[] | [] | | [] m' e']; try contradiction; try discriminate.
    + rewrite Hi. now apply SFleb_infinity.
    + pose proof (rounded_float_finite m e Hx) as C.
      pose proof (rounded_float_finite m' e' Hy) as C'.
      apply Hm; try assumption. apply lex_val_le; try assumption.
      now apply SFleb_finite_lex.
Qed.

(** ** The steps of calculate_points on floats *)

Lemma sf_1000 : Prim2SF 1000 = S754_finite false 8796093022208000 (-43).
Proof. reflexivity. Qed.

Lemma sf_pow3_rounded (m : positive) (e : Z) :
  canonical_pair (Zpos m) e -> rounded_float (sf_pow3 (S754_finite false m e)).
Proof.
  intros HC. unfold sf_pow3.
  pose proof (cube_precision (Zpos m) e HC ltac:(lia)) as P.
  rewrite binary_round_no_shift by (rewrite !Pos2Z.inj_mul; assumption).
  apply binary_round_aux_rounded_float; try lia.
  rewrite !Pos2Z.inj_mul. exact P.
Qed.

Lemma sf_pow3_mono (x y : spec_float) :
  rounded_float x -> rounded_float y -> SFleb x y = true ->
  rounded_float (sf_pow3 x) /\ rounded_float (sf_pow3 y) /\
  SFleb (sf_pow3 x) (sf_pow3 y) = true.
Proof.
  apply monotone_extension; try reflexivity.
  - apply sf_pow3_rounded.
  - intros m e m' e' C C' H. now apply cube_mono.
Qed.

Lemma sf_mul1000_rounded (m : positive) (e : Z) :
  rounded_float (sf_mul1000 (S754_finite false m e)).
Proof.
  unfold sf_mul1000. rewrite sf_1000, SFmul_finite.
  apply binary_round_aux_rounded_float; try lia.
  apply product_precision; [now vm_compute | lia].
Qed.

Lemma sf_mul1000_mono (x y : spec_float) :
  rounded_float x -> rounded_float y -> SFleb x y = true ->
  rounded_float (sf_mul1000 x) /\ rounded_float (sf_mul1000 y) /\
  SFleb (sf_mul1000 x) (sf_mul1000 y) = true.
Proof.
  apply monotone_extension; try reflexivity.
  - intros m e _. apply sf_mul1000_rounded.
  - intros m e m' e' C C' H. unfold sf_mul1000. rewrite sf_1000.
    apply SFmul_mono; [now vm_compute | exact H].
Qed.

Lemma SFdiv_rounded (mx : positive) (ex : Z) (my : positive) (ey : Z) :
  rounded_float (SFdiv prec emax (S754_finite false mx ex) (S754_finite false my ey)).
Proof.
  rewrite SFdiv_finite.
  pose proof (div_shift_nonneg mx ex my ey) as Hs.
  pose proof (pow2_pos _ Hs).
  apply binary_round_aux_rounded_float.
  - apply Z.div_pos; lia.
  - apply Z.mod_pos_bound. lia.
  - apply div_precision.
Qed.

Lemma sf_score_mono (x y : spec_float) :
  rounded_float x -> rounded_float y -> SFleb x y = true ->
  nonneg (sf_mul1000 (sf_pow3 x)) /\ nonneg (sf_mul1000 (sf_pow3 y)) /\
  SFleb (sf_mul1000 (sf_pow3 x)) (sf_mul1000 (sf_pow3 y)) = true.
Proof.
  intros Hx Hy H.
  destruct (sf_pow3_mono x y Hx Hy H) as (Rx & Ry & Hc).
  destruct (sf_mul1000_mono _ _ Rx Ry Hc) as (Px & Py & Hp).
  repeat split; try assumption; now apply rounded_float_nonneg.
Qed.

(** The quotient grows when the divisor shrinks. *)
Lemma SFdiv_antimono (mb : positive) (eb : Z) (m1 : positive) (e1 : Z)
      (m2 : positive) (e2 : Z) :
  val_le (Zpos m1) e1 (Zpos m2) e2 ->
  SFleb (SFdiv prec emax (S754_finite false mb eb) (S754_finite false m2 e2))
        (SFdiv prec emax (S754_finite false mb eb) (S754_finite false m1 e1)) = true.
Proof.
  intros H. unfold val_le in H.
  apply (SFdiv_mono mb eb m2 e2 mb eb m1 e1 (eb + Z.min e1 e2)); try lia.
  replace (eb + e1 - (eb + Z.min e1 e2)) with (e1 - Z.min e1 e2) by lia.
  replace (eb + e2 - (eb + Z.min e1 e2)) with (e2 - Z.min e1 e2) by lia.
  rewrite <- !Z.mul_assoc. apply Z.mul_le_mono_nonneg_l; lia.
Qed.

Lemma sf_ratio_mono (mb : positive) (eb : Z) (x y : spec_float) :
  positive_float x -> positive_float y -> SFleb x y = true ->
  rounded_float (SFdiv prec emax (S754_finite false mb eb) y) /\
  rounded_float (SFdiv prec emax (S754_finite false mb eb) x) /\
  SFleb (SFdiv prec emax (S754_finite false mb eb) y)
        (SFdiv prec emax (S754_finite false mb eb) x) = true.
Proof.
  intros Hx Hy H.
  assert (R : forall u, positive_float u ->
                        rounded_float (SFdiv prec emax (S754_finite false mb eb) u)).
  { intros u Hu. destruct u as [[] | [] | | [] m e]; try contradiction.
    - apply rounded_float_zero.
    - apply SFdiv_rounded. }
  split; [now apply R | split; [now apply R |]].
  destruct y as [[] | [] | | [] m2 e2]; try contradiction.
  - apply SFleb_zero. apply rounded_float_nonneg. now apply R.
  - destruct x as [[] | [] | | [] m1 e1]; try contradiction; try discriminate.
    apply SFdiv_antimono. apply lex_val_le.
    + apply (valid_canonical false m1 e1 Hx).
    + apply (valid_canonical false m2 e2 Hy).
    + now apply SFleb_finite_lex.
Qed.

Lemma sf_points_mono (mb : positive) (eb : Z) (x y : spec_float) :
  positive_float x -> positive_float y -> SFleb x y = true ->
  nonneg (sf_points (S754_finite false mb eb) y) /\
  nonneg (sf_points (S754_finite false mb eb) x) /\
  SFleb (sf_points (S754_finite false mb eb) y) (sf_points (S754_finite false mb eb) x) = true.
Proof.
  intros Hx Hy H.
  destruct (sf_ratio_mono mb eb x y Hx Hy H) as (Ry & Rx & Hr).
  now apply sf_score_mono.
Qed.


(** ** From machine floats to their specification *)

Lemma SFeqb_refl (x : spec_float) : nonneg x -> SFeqb x x = true.
Proof.
  destruct x as [[] | [] | | [] m e]; simpl; intros H; try contradiction; try reflexivity.
  unfold SFeqb, SFcompare. rewrite Z.compare_refl, Pos.compare_cont_refl. reflexivity.
Qed.

Lemma is_nan_nonneg (v : float) : nonneg (Prim2SF v) -> is_nan v = false.
Proof.
  intros H. unfold is_nan. rewrite eqb_spec. now rewrite SFeqb_refl.
Qed.

Lemma is_infinity_nonneg (v : float) :
  nonneg (Prim2SF v) ->
  is_infinity v = match Prim2SF v with S754_infinity _ => true | _ => false end.
Proof.
  intros H. unfold is_infinity. rewrite eqb_spec, abs_spec, sf_infinity.
  destruct (Prim2SF v) as [[] | [] | | [] m e]; try contradiction; reflexivity.
Qed.

Lemma eqb_zero_nonneg (v : float) :
  nonneg (Prim2SF v) ->
  PrimFloat.eqb v 0 = match Prim2SF v with S754_zero _ => true | _ => false end.
Proof.
  intros H. rewrite eqb_spec, sf_zero.
  destruct (Prim2SF v) as [[] | [] | | [] m e]; try contradiction; reflexivity.
Qed.

Lemma ltb_zero_nonneg (v : float) : nonneg (Prim2SF v) -> PrimFloat.ltb v 0 = false.
Proof.
  intros H. rewrite ltb_spec, sf_zero.
  destruct (Prim2SF v) as [[] | [] | | [] m e]; try contradiction; reflexivity.
Qed.

Lemma sf_one : Prim2SF 1 = S754_finite false 4503599627370496 (-52).
Proof. reflexivity. Qed.

Lemma SFeqb_finite (m : positive) (e : Z) (m' : positive) (e' : Z) :
  SFeqb (S754_finite false m e) (S754_finite false m' e') = true -> m = m' /\ e = e'.
Proof.
  unfold SFeqb, SFcompare. destruct (Z.compare_spec e e') as [E | L | G]; try discriminate.
  fold (Pos.compare m m').
  destruct (Pos.compare_spec m m') as [E' | L | G]; try discriminate.
  intros _. now split.
Qed.

(** [v ** 3] on a float that is zero, positive or infinite: the correctly
    rounded cube, returned unless it overflows. *)
Lemma float_pow_3_sf (v : float) :
  rounded_float (Prim2SF v) ->
  (forall c, float_pow_3 v = Ok c -> Prim2SF c = sf_pow3 (Prim2SF v)) /\
  (SFltb (sf_pow3 (Prim2SF v)) (S754_infinity false) = true ->
   exists c, float_pow_3 v = Ok c).
Proof.
  intros Hr. pose proof (rounded_float_nonneg _ Hr) as Hn.
  unfold float_pow_3. cbv zeta.
  rewrite (is_nan_nonneg v Hn), (is_infinity_nonneg v Hn), (eqb_zero_nonneg v Hn),
    (ltb_zero_nonneg v Hn).
  destruct (Prim2SF v) as [[] | [] | | [] m e] eqn:E; try contradiction.
  - split; [| intros _; now exists v]. intros c [= <-]. now rewrite E.
  - split; [| intros _; now exists v]. intros c [= <-]. now rewrite E.
  - destruct (PrimFloat.eqb v 1) eqn:E1.
    + rewrite eqb_spec, E, sf_one in E1. apply SFeqb_finite in E1 as [-> ->].
      split; [| intros _; now exists 1%float]. intros c [= <-]. now vm_compute.
    + unfold libm_pow_3, sf_of. rewrite E.
      pose proof (sf_pow3_rounded m e (rounded_float_finite m e Hr)) as HR.
      unfold sf_pow3 in *.
      set (R := binary_round prec emax false (m * m * m) (3 * e)) in *.
      pose proof (Prim2SF_SF2Prim R (rounded_float_valid R HR)) as EP.
      assert (HnR : nonneg (Prim2SF (SF2Prim R)))
        by (rewrite EP; now apply rounded_float_nonneg).
      rewrite (is_infinity_nonneg _ HnR), EP.
      pose proof (rounded_float_nonneg R HR) as NR.
      destruct R as [[] | [] | | [] m' e'] eqn:ER; try contradiction.
      * split; [| intros _; eexists; reflexivity]. intros c [= <-]. exact EP.
      * split; [intros c; discriminate | intros; discriminate].
      * split; [| intros _; eexists; reflexivity]. intros c [= <-]. exact EP.
Qed.

Lemma positive_float_of (t : float) :
  PrimFloat.ltb 0 t = true -> positive_float (Prim2SF t).
Proof.
  intros H. pose proof (Prim2SF_valid t) as V.
  destruct (positive_cases t H) as [E | (m & e & E)]; rewrite E in *; exact V.
Qed.

Lemma calculate_points_positive (b t : float) :
  PrimFloat.ltb 0 t = true ->
  calculate_points b t =
    (cube <- float_pow_3 (PrimFloat.div b t) ;; Ok (PrimFloat.mul 1000 cube)).
Proof.
  intros H. unfold calculate_points, float_truediv.
  now rewrite (positive_not_le_zero t H), (positive_not_zero t H).
Qed.

Lemma ratio_rounded (b t : float) (mb : positive) (eb : Z) :
  Prim2SF b = S754_finite false mb eb -> PrimFloat.ltb 0 t = true ->
  Prim2SF (PrimFloat.div b t) = SFdiv prec emax (Prim2SF b) (Prim2SF t) /\
  rounded_float (Prim2SF (PrimFloat.div b t)).
Proof.
  intros Eb Ht. rewrite div_spec. split; [reflexivity |].
  change SF64div with (SFdiv prec emax). rewrite Eb.
  destruct (positive_cases t Ht) as [E | (m & e & E)]; rewrite E.
  - apply rounded_float_zero.
  - apply SFdiv_rounded.
Qed.

(** What calculate_points returns, on the specification of floats. *)
Lemma calculate_points_sf (b t p : float) (mb : positive) (eb : Z) :
  Prim2SF b = S754_finite false mb eb -> PrimFloat.ltb 0 t = true ->
  calculate_points b t = Ok p ->
  Prim2SF p = sf_points (Prim2SF b) (Prim2SF t).
Proof.
  intros Eb Ht. rewrite (calculate_points_positive b t Ht).
  destruct (ratio_rounded b t mb eb Eb Ht) as [Ed Hr].
  destruct (float_pow_3_sf _ Hr) as [Hc _].
  destruct (float_pow_3 (PrimFloat.div b t)) as [c | x |] eqn:Ec; try discriminate.
  cbn [bind]. intros [= <-]. rewrite mul_spec, (Hc c eq_refl), Ed. reflexivity.
Qed.

(** calculate_points returns when the cube of the ratio is finite. *)
Lemma calculate_points_returns (b t : float) (mb : positive) (eb : Z) :
  Prim2SF b = S754_finite false mb eb -> PrimFloat.ltb 0 t = true ->
  SFltb (sf_pow3 (SFdiv prec emax (Prim2SF b) (Prim2SF t))) (S754_infinity false) = true ->
  exists p, calculate_points b t = Ok p.
Proof.
  intros Eb Ht Hf. rewrite (calculate_points_positive b t Ht).
  destruct (ratio_rounded b t mb eb Eb Ht) as [Ed Hr].
  destruct (float_pow_3_sf _ Hr) as [_ Hc]. rewrite Ed in Hc.
  destruct (Hc Hf) as [c ->]. cbn [bind]. eexists; reflexivity.
Qed.

Lemma SFleb_ltb_trans (x y z : spec_float) :
  nonneg x -> nonneg y -> nonneg z ->
  SFleb x y = true -> SFltb y z = true -> SFltb x z = true.
Proof.
  destruct x as [[] | [] | | [] m e]; destruct y as [[] | [] | | [] m' e'];
    destruct z as [[] | [] | | [] m'' e''];
    simpl; intros Hx Hy Hz H1 H2; try contradiction; try discriminate; try reflexivity.
  apply SFleb_finite_lex in H1. apply SFltb_finite_lex in H2. apply SFltb_finite_lex. lia.
Qed.

Lemma SFltb_leb (x y : spec_float) :
  nonneg x -> nonneg y -> SFltb x y = true -> SFleb x y = true.
Proof.
  destruct x as [[] | [] | | [] m e]; destruct y as [[] | [] | | [] m' e'];
    simpl; intros Hx Hy H; try contradiction; try discriminate; try reflexivity.
  apply SFltb_finite_lex in H. apply SFleb_finite_lex. lia.
Qed.

Lemma positive_float_nonneg (x : spec_float) : positive_float x -> nonneg x.
Proof. destruct x as [[] | [] | | [] m e]; simpl; intros H; try contradiction; exact I. Qed.





Lemma sf_points_self (mb : positive) (eb : Z) :
  sf_points (S754_finite false mb eb) (S754_finite false mb eb) = Prim2SF 1000.
Proof. unfold sf_points. rewrite SFdiv_self. now vm_compute. Qed.







(** ** Results that are exact *)

Lemma val_eq_base (B m e m' e' : Z) :
  B <= e -> B <= e' ->
  (val_eq m e m' e' <-> m * 2 ^ (e - B) = m' * 2 ^ (e' - B)).
Proof.
  intros HB HB'. unfold val_eq.
  rewrite (val_le_base B m e m' e' HB HB'), (val_le_base B m' e' m e HB' HB). lia.
Qed.

Lemma val_eq_sym (m e m' e' : Z) : val_eq m e m' e' -> val_eq m' e' m e.
Proof. intros [H1 H2]. now split. Qed.

Lemma val_eq_trans (m e m' e' m'' e'' : Z) :
  val_eq m e m' e' -> val_eq m' e' m'' e'' -> val_eq m e m'' e''.
Proof.
  set (B := Z.min e (Z.min e' e'')).
  intros H1 H2.
  apply (val_eq_base B) in H1; [| unfold B; lia | unfold B; lia].
  apply (val_eq_base B) in H2; [| unfold B; lia | unfold B; lia].
  apply (val_eq_base B); [unfold B; lia | unfold B; lia | congruence].
Qed.

Lemma val_eq_shift (m e k : Z) : 0 <= k -> val_eq (m * 2 ^ k) (e - k) m e.
Proof.
  intros Hk. apply (val_eq_base (e - k)); try lia.
  rewrite Z.sub_diag, Z.pow_0_r. replace (e - (e - k)) with k by lia. lia.
Qed.

Lemma val_eq_pos (m e m' e' : Z) : val_eq m e m' e' -> 0 < m -> 0 < m'.
Proof.
  intros H Hm. apply (val_eq_base (Z.min e e')) in H; [| lia | lia].
  pose proof (pow2_pos (e - Z.min e e') ltac:(lia)).
  pose proof (pow2_pos (e' - Z.min e e') ltac:(lia)). nia.
Qed.

Lemma val_eq_zero (m e m' e' : Z) : val_eq m e m' e' -> m = 0 -> m' = 0.
Proof.
  intros H Hm. apply (val_eq_base (Z.min e e')) in H; [| lia | lia].
  pose proof (pow2_pos (e - Z.min e e') ltac:(lia)).
  pose proof (pow2_pos (e' - Z.min e e') ltac:(lia)). nia.
Qed.

Lemma canonical_unique (M E M' E' : Z) :
  canonical_pair M E -> canonical_pair M' E' -> 0 < M ->
  val_eq M E M' E' -> M = M' /\ E = E'.
Proof.
  intros C C' H0 H. pose proof (val_eq_pos _ _ _ _ H H0) as H0'.
  destruct H as [H1 H2].
  apply (val_le_lex _ _ _ _ C C' H0) in H1.
  apply (val_le_lex _ _ _ _ C' C H0') in H2. lia.
Qed.

Lemma shl_align_value (m : positive) (e e' : Z) :
  e' <= e ->
  Zpos (fst (shl_align m e e')) = Zpos m * 2 ^ (e - e') /\ snd (shl_align m e e') = e'.
Proof.
  intros H. unfold shl_align.
  destruct (e' - e) as [| d | d] eqn:E; try lia.
  - replace (e - e') with 0 by lia. cbn [fst snd]. rewrite Z.pow_0_r. lia.
  - cbn [fst snd]. fold (shift_pos d m). rewrite shift_pos_correct.
    replace (e - e') with (Zpos d) by lia.
    change (2 ^ Zpos d) with (Z.pow_pos 2 d). split; [lia | reflexivity].
Qed.

Lemma Zdigits2_shift (m k : Z) :
  0 < m -> 0 <= k -> Zdigits2 (m * 2 ^ k) = Zdigits2 m + k.
Proof.
  intros Hm Hk. pose proof (Zdigits2_bounds m Hm) as [L U].
  pose proof (Zdigits2_pos m Hm) as Hd. pose proof (pow2_pos k Hk) as Pk.
  apply Zdigits2_unique; [| lia].
  replace (Zdigits2 m + k - 1) with (Zdigits2 m - 1 + k) by lia.
  rewrite !pow2_split by lia. split.
  - apply Z.mul_le_mono_nonneg_r; lia.
  - apply Z.mul_lt_mono_pos_r; lia.
Qed.

Lemma cexp_small (m e : Z) : 0 <= m < two_p -> -1074 <= e -> cexp m e <= e.
Proof.
  intros Hm He. unfold cexp. rewrite fexp_eq.
  assert (Zdigits2 m <= 53).
  { apply Zdigits2_le; [| lia]. unfold two_p in Hm. change prec with 53 in Hm. lia. }
  lia.
Qed.

Lemma canon_canonical (m e : Z) :
  0 < m < two_p -> -1074 <= e ->
  canonical_pair (fst (canon m e)) (snd (canon m e)) /\ 0 < fst (canon m e) /\
  val_eq (fst (canon m e)) (snd (canon m e)) m e.
Proof.
  intros Hm He. pose proof (cexp_small m e ltac:(lia) He) as Hc.
  unfold canon. cbn [fst snd]. set (c := cexp m e) in *.
  pose proof (pow2_pos (e - c) ltac:(lia)) as Pk.
  assert (Hd : Zdigits2 (m * 2 ^ (e - c)) = Zdigits2 m + (e - c))
    by (apply Zdigits2_shift; lia).
  assert (Ec : c = Z.max (Zdigits2 m + e - 53) (-1074)) by (unfold c, cexp; apply fexp_eq).
  assert (H0 : 0 < m * 2 ^ (e - c)) by nia.
  pose proof (Zdigits2_bounds _ H0) as [L U]. rewrite Hd in L, U.
  split; [| split; [exact H0 |]].
  - unfold canonical_pair. repeat split; try lia.
    + assert (2 ^ (Zdigits2 m + (e - c)) <= 2 ^ 53) by (apply Z.pow_le_mono_r; lia).
      unfold two_p. change prec with 53. lia.
    + intros Hn. replace (Zdigits2 m + (e - c) - 1) with 52 in L by lia. exact L.
  - replace c with (e - (e - c)) at 2 by lia. apply val_eq_shift. lia.
Qed.

Lemma rounded_self (M E : Z) :
  canonical_pair M E -> 0 < M -> rounded M E 0 1 = (M, E).
Proof.
  intros C H0. pose proof (canonical_digits M E C H0) as Hc. fold (cexp M E) in Hc.
  destruct C as (HM & _).
  unfold rounded, int_part, frac_num, frac_den, rne, rounds_up.
  rewrite Hc, Z.sub_diag, Z.pow_0_r, Z.div_1_r, Z.mod_1_r.
  change (0 * 1 + 0) with 0. change (2 * 0 ?= 1 * 1) with Lt. cbv iota.
  destruct (Z.eqb_spec M two_p); [lia | reflexivity].
Qed.

Lemma out_le_antisym (a b : Z * Z) : out_le a b -> out_le b a -> 0 < fst a -> a = b.
Proof.
  destruct a as [m e], b as [m' e']. unfold out_le. cbn [fst snd].
  intros [-> | (H1 & H2 & H3)] [E | (H4 & H5 & H6)] H0; try lia.
  f_equal; lia.
Qed.

(** A number that is a float rounds to that float. *)
Lemma rounded_exact (m e M E : Z) :
  0 <= m -> e <= cexp m e -> canonical_pair M E -> 0 < M ->
  val_eq m e M E -> rounded m e 0 1 = (M, E).
Proof.
  intros Hm Hn C H0 H.
  pose proof (canonical_digits M E C H0) as Hc. fold (cexp M E) in Hc.
  assert (HB : Z.min e E <= e) by lia. assert (HB' : Z.min e E <= E) by lia.
  destruct H as [H1 H2].
  pose proof (proj1 (val_le_base _ m e M E HB HB') H1) as V1.
  pose proof (proj1 (val_le_base _ M E m e HB' HB) H2) as V2.
  assert (L1 : out_le (rounded m e 0 1) (rounded M E 0 1)).
  { apply (rounded_mono (Z.min e E)); try lia. unfold vle. lia. }
  assert (L2 : out_le (rounded M E 0 1) (rounded m e 0 1)).
  { apply (rounded_mono (Z.min e E)); try lia. unfold vle. lia. }
  rewrite (rounded_self M E C H0) in L1, L2.
  symmetry. apply out_le_antisym; [exact L2 | exact L1 | exact H0].
Qed.

Lemma binary_round_exact (s : bool) (p : positive) (e M E : Z) :
  canonical_pair M E -> val_eq (Zpos p) e M E ->
  binary_round prec emax s p e = build_float s M E.
Proof.
  intros C H. pose proof (val_eq_pos _ _ _ _ H ltac:(lia)) as H0.
  unfold binary_round.
  change (Zpos (digits2_pos p)) with (Zdigits2 (Zpos p)). fold (cexp (Zpos p) e).
  set (c := cexp (Zpos p) e).
  destruct (Z_le_gt_dec e c) as [Hle | Hgt].
  - assert (Es : shl_align p e c = (p, e)).
    { unfold shl_align. destruct (c - e) as [| d | d] eqn:Ed; try reflexivity. lia. }
    rewrite Es. change loc_Exact with (loc_of_frac 0 1).
    rewrite binary_round_aux_rounded by (try lia; exact Hle).
    now rewrite (rounded_exact (Zpos p) e M E ltac:(lia) Hle C H0 H).
  - destruct (shl_align_value p e c ltac:(lia)) as [Ev Ee].
    destruct (shl_align p e c) as [mz ez]. cbn [fst snd] in Ev, Ee. subst ez.
    change loc_Exact with (loc_of_frac 0 1).
    assert (Hcz : cexp (Zpos mz) c = c).
    { unfold cexp. rewrite Ev, Zdigits2_shift by lia.
      replace (Zdigits2 (Zpos p) + (e - c) + c) with (Zdigits2 (Zpos p) + e) by lia.
      reflexivity. }
    rewrite binary_round_aux_rounded by (try lia; rewrite Hcz; lia).
    rewrite (rounded_exact (Zpos mz) c M E); try assumption; try lia.
    + reflexivity.
    + apply (val_eq_trans _ _ (Zpos p) e); [| exact H].
      rewrite Ev. replace c with (e - (e - c)) at 2 by lia. apply val_eq_shift. lia.
Qed.

Lemma binary_normalize_exact (m e M E : Z) :
  0 <= m -> canonical_pair M E -> val_eq m e M E ->
  binary_normalize prec emax m e false = build_float false M E.
Proof.
  intros Hm C H. destruct m as [| p | p]; try lia.
  - rewrite (val_eq_zero _ _ _ _ H eq_refl). reflexivity.
  - now apply binary_round_exact.
Qed.

Lemma exact_float_zero (e : Z) : exact_float 0 e = S754_zero false.
Proof. reflexivity. Qed.

(** A number of at most [prec] digits, at an exponent in range, normalizes
    to the float of its value. *)
Lemma normalize_exact_float (m e r e' : Z) :
  0 <= m -> 0 <= r < two_p -> -1074 <= e' ->
  val_eq m e r e' ->
  binary_normalize prec emax m e false = exact_float r e'.
Proof.
  intros Hm Hr He H.
  destruct (Z.eq_dec r 0) as [-> | Hn].
  - rewrite (val_eq_zero _ _ _ _ (val_eq_sym _ _ _ _ H) eq_refl). reflexivity.
  - destruct (canon_canonical r e' ltac:(lia) He) as (C & H0 & Hv).
    unfold exact_float. apply binary_normalize_exact; try assumption.
    apply (val_eq_trans _ _ r e'); [exact H | now apply val_eq_sym].
Qed.

Lemma finite_exact_float (mx : positive) (ex r e' : Z) :
  valid_binary (S754_finite false mx ex) = true ->
  0 <= r < two_p -> -1074 <= e' ->
  val_eq (Zpos mx) ex r e' ->
  S754_finite false mx ex = exact_float r e'.
Proof.
  intros V Hr He H. destruct (valid_canonical _ _ _ V) as [C Hb].
  pose proof (val_eq_pos _ _ _ _ H ltac:(lia)) as Hr0.
  destruct (canon_canonical r e' ltac:(lia) He) as (C' & H0 & Hv).
  destruct (canonical_unique _ _ _ _ C C' ltac:(lia)
              (val_eq_trans _ _ _ _ _ _ H (val_eq_sym _ _ _ _ Hv))) as [E1 E2].
  unfold exact_float, build_float. rewrite <- E1, <- E2.
  change (emax - prec) with 971. now rewrite (proj2 (Z.leb_le ex 971) Hb).
Qed.

Lemma exact_float_rounded (r e : Z) :
  0 <= r < two_p -> -1074 <= e -> rounded_float (exact_float r e).
Proof.
  intros Hr He. destruct (Z.eq_dec r 0) as [-> | Hn].
  - apply rounded_float_zero.
  - destruct (canon_canonical r e ltac:(lia) He) as (C & _).
    exists (fst (canon r e)), (snd (canon r e)). now split.
Qed.

(** ** format_time below 100 minutes *)

Lemma below_forallb (P : Z -> bool) (k : Z) :
  forallb P (map Z.of_nat (seq 0 (Z.to_nat k))) = true ->
  forall n, 0 <= n < k -> P n = true.
Proof.
  intros H n Hn. rewrite forallb_forall in H. apply H.
  apply in_map_iff. exists (Z.to_nat n). split; [lia |].
  apply in_seq. lia.
Qed.

Lemma minutes_checked (n : Z) : 0 <= n < 100 -> minutes_check n = true.
Proof. apply (below_forallb minutes_check 100). now vm_compute. Qed.

Lemma format_02d_checked (n : Z) : 0 <= n < 100 -> format_02d n = two_digits n.
Proof.
  intros H. apply String.eqb_eq.
  apply (below_forallb format_02d_check 100); [now vm_compute | exact H].
Qed.

Lemma seconds_checked (h : Z) :
  0 <= h <= 6000 ->
  zero_pad 5 false (fixed_2 h) = two_digits (h / 100) ++ "." ++ two_digits (h mod 100).
Proof.
  intros H. apply String.eqb_eq.
  apply (below_forallb seconds_check 6001); [now vm_compute | lia].
Qed.

Lemma round_half_even_scale (a b k : Z) :
  0 < b -> 0 < k -> round_half_even (a * k) (b * k) = round_half_even a b.
Proof.
  intros Hb Hk. unfold round_half_even.
  rewrite Z.div_mul_cancel_r, Z.mul_mod_distr_r by lia.
  assert (E : (2 * (a mod b * k) ?= b * k) = (2 * (a mod b) ?= b)).
  { destruct (Z.compare_spec (2 * (a mod b)) b);
      [apply Z.compare_eq_iff | apply Z.compare_lt_iff | apply Z.compare_gt_iff]; nia. }
  now rewrite E.
Qed.

Lemma round_half_even_bounds (a b : Z) :
  0 < b -> a / b <= round_half_even a b <= a / b + 1.
Proof.
  intros Hb. unfold round_half_even.
  destruct (2 * (a mod b) ?= b); try destruct (Z.even (a / b)); lia.
Qed.

Lemma sf_60 : Prim2SF 60 = S754_finite false 8444249301319680 (-47).
Proof. reflexivity. Qed.

Lemma sf_6000 : Prim2SF 6000 = S754_finite false 6597069766656000 (-40).
Proof. reflexivity. Qed.

(** The seconds below 6000 as an integer count of [2^ex]: the whole
    minutes [n] and the rest [R]. *)
Lemma below_6000 (mx : positive) (ex : Z) :
  valid_binary (S754_finite false mx ex) = true ->
  SFltb (S754_finite false mx ex) (Prim2SF 6000) = true ->
  let P := 2 ^ (- ex) in
  let n := Zpos mx / (60 * P) in
  let R := Zpos mx mod (60 * P) in
  -1074 <= ex <= -40 /\ 0 < P /\ 0 <= n < 100 /\ 0 <= R < 60 * P /\ R < two_p /\
  Zpos mx = 60 * P * n + R.
Proof.
  intros V Hlt P n R. rewrite sf_6000 in Hlt. apply SFltb_finite_lex in Hlt.
  destruct (valid_canonical _ _ _ V) as [(Hm & He & Hn) _].
  assert (HP : 0 < P) by (apply pow2_pos; lia).
  pose proof (Z.div_mod (Zpos mx) (60 * P) ltac:(lia)) as Hdm. fold n R in Hdm.
  pose proof (Z.mod_pos_bound (Zpos mx) (60 * P) ltac:(lia)) as HR. fold R in HR.
  assert (Hn0 : 0 <= n) by (apply Z.div_pos; lia).
  assert (Hmx : Zpos mx < 6000 * P).
  { destruct Hlt as [L | [E L]].
    - assert (2 ^ 41 <= P) by (apply Z.pow_le_mono_r; lia).
      assert (T : two_p = 2 ^ 53) by reflexivity.
      change (2 ^ 41) with 2199023255552 in H. change (2 ^ 53) with 9007199254740992 in T.
      lia.
    - unfold P. rewrite E. change (2 ^ (- -40)) with 1099511627776. lia. }
  assert (Hn1 : n < 100).
  { apply Z.div_lt_upper_bound; lia. }
  repeat split; lia.
Qed.

Lemma val_eq_refl (m e : Z) : val_eq m e m e.
Proof. apply (val_eq_base e); lia. Qed.

(** [fmod(s, 60)] is the rest, exactly. *)
Lemma sf_fmod_60 (mx : positive) (ex : Z) :
  -1074 <= ex <= -40 -> Zpos mx < two_p ->
  sf_fmod (S754_finite false mx ex) (Prim2SF 60)
  = exact_float (Zpos mx mod (60 * 2 ^ (- ex))) ex.
Proof.
  intros He Hm. rewrite sf_60. unfold sf_fmod, sf_normalize. cbv zeta. cbn [cond_Zopp].
  set (P := 2 ^ (- ex)). assert (HP : 0 < P) by (apply pow2_pos; lia).
  pose proof (Z.mod_pos_bound (Zpos mx) (60 * P) ltac:(lia)) as HR.
  assert (HRm : Zpos mx mod (60 * P) <= Zpos mx) by (apply Z.mod_le; lia).
  assert (E60 : 8444249301319680 = 60 * 2 ^ 47) by reflexivity.
  destruct (Z_le_gt_dec ex (-47)) as [Hle | Hgt].
  - rewrite Z.min_l by lia. rewrite Z.sub_diag, Z.pow_0_r, Z.mul_1_r.
    assert (EY : 8444249301319680 * 2 ^ (-47 - ex) = 60 * P).
    { rewrite E60. unfold P. rewrite <- Z.mul_assoc, <- pow2_split by lia.
      do 2 f_equal. lia. }
    rewrite EY. apply normalize_exact_float; [lia | lia | lia |]. apply val_eq_refl.
  - rewrite Z.min_r by lia. rewrite Z.sub_diag, Z.pow_0_r, Z.mul_1_r.
    set (k := 2 ^ (ex - -47)). assert (Hk : 0 < k) by (apply pow2_pos; lia).
    assert (EY : 8444249301319680 = 60 * P * k).
    { rewrite E60. unfold P, k. rewrite <- Z.mul_assoc, <- pow2_split by lia.
      do 2 f_equal. lia. }
    rewrite EY, Z.mul_mod_distr_r by lia.
    apply normalize_exact_float; [apply Z.mul_nonneg_nonneg; lia | lia | lia |].
    replace (-47) with (ex - (ex - -47)) at 1 by lia. apply val_eq_shift. lia.
Qed.

(** [s - fmod(s, 60)] is sixty times the whole minutes, exactly. *)
Lemma SFsub_rest (mx : positive) (ex n R : Z) :
  valid_binary (S754_finite false mx ex) = true ->
  -1074 <= ex <= -40 -> 0 <= n < 100 -> 0 <= R < two_p ->
  Zpos mx = 60 * 2 ^ (- ex) * n + R ->
  SFsub prec emax (S754_finite false mx ex) (exact_float R ex) = exact_float (60 * n) 0.
Proof.
  intros V He Hn HR Hmx.
  set (P := 2 ^ (- ex)) in *. assert (HP : 0 < P) by (apply pow2_pos; lia).
  assert (H60 : 0 <= 60 * n < two_p).
  { assert (T : two_p = 9007199254740992) by reflexivity. lia. }
  destruct (Z.eq_dec R 0) as [-> | HR0].
  - rewrite exact_float_zero. cbn [SFsub].
    apply finite_exact_float; [assumption | lia | lia |].
    apply (val_eq_base ex); [lia | lia |].
    rewrite Z.sub_diag, Z.pow_0_r. replace (0 - ex) with (- ex) by lia. fold P. lia.
  - destruct (canon_canonical R ex ltac:(lia) ltac:(lia)) as (C & H0 & Hv).
    pose proof (cexp_small R ex ltac:(lia) ltac:(lia)) as Hc.
    unfold exact_float at 1. unfold canon in *. cbn [fst snd] in *.
    set (E := cexp R ex) in *. set (M := R * 2 ^ (ex - E)) in *.
    unfold build_float. destruct M as [| pM | pM] eqn:EM; try lia.
    change (emax - prec) with 971. rewrite (proj2 (Z.leb_le E 971)) by lia.
    cbn [SFsub]. cbv zeta. cbn [cond_Zopp].
    rewrite Z.min_r by lia.
    destruct (shl_align_value mx ex E Hc) as [E1 _].
    destruct (shl_align_value pM E E ltac:(lia)) as [E2 _].
    rewrite E1, E2, Z.sub_diag, Z.pow_0_r, Z.mul_1_r.
    pose proof (pow2_pos (ex - E) ltac:(lia)) as Hk.
    assert (ED : Zpos mx * 2 ^ (ex - E) - Zpos pM = 60 * P * n * 2 ^ (ex - E)).
    { rewrite <- EM. unfold M. rewrite Hmx. ring. }
    rewrite ED.
    apply normalize_exact_float;
      [apply Z.mul_nonneg_nonneg; [apply Z.mul_nonneg_nonneg |]; lia | lia | lia |].
    apply (val_eq_base E); [lia | lia |].
    rewrite Z.sub_diag, Z.pow_0_r, Z.mul_1_r.
    replace (0 - E) with (- ex + (ex - E)) by lia.
    rewrite pow2_split by lia. fold P. ring.
Qed.

Lemma float_div_mod_60 (s : float) :
  PrimFloat.ltb (fmod s 60) 0 = false ->
  float_div_mod s 60
  = (floordiv_of (PrimFloat.div (PrimFloat.sub s (fmod s 60)) 60)
                 (copysign_zero (PrimFloat.div s 60)),
     if truthy (fmod s 60) then fmod s 60 else 0%float).
Proof.
  intros H. unfold float_div_mod, floordiv_of. cbv zeta. rewrite H.
  change (PrimFloat.ltb 60 0) with false. cbn [xorb].
  change (copysign_zero 60) with 0%float.
  destruct (truthy (fmod s 60)); reflexivity.
Qed.

Lemma float_rem_60 (s : float) :
  PrimFloat.ltb (fmod s 60) 0 = false ->
  float_rem s 60 = Ok (if truthy (fmod s 60) then fmod s 60 else 0%float).
Proof.
  intros H. unfold float_rem. cbv zeta. rewrite H.
  change (PrimFloat.eqb 60 0) with false. change (PrimFloat.ltb 60 0) with false.
  cbn [xorb]. change (copysign_zero 60) with 0%float. reflexivity.
Qed.

Lemma nonneg_zero_float (v : float) :
  Prim2SF v = S754_zero false -> v = 0%float.
Proof. intros H. rewrite <- (SF2Prim_Prim2SF v), H. reflexivity. Qed.

Lemma copysign_zero_nonneg (v : float) :
  nonneg (Prim2SF v) -> copysign_zero v = 0%float.
Proof.
  intros H. unfold copysign_zero, get_sign, is_zero. cbv zeta.
  change zero with 0%float. rewrite (eqb_zero_nonneg v H).
  destruct (Prim2SF v) as [[] | [] | | [] m e] eqn:E; try contradiction.
  - rewrite (nonneg_zero_float v E). reflexivity.
  - rewrite ltb_zero_nonneg by (rewrite E; exact I). reflexivity.
  - rewrite ltb_zero_nonneg by (rewrite E; exact I). reflexivity.
Qed.

Lemma truthy_nonneg (v : float) :
  nonneg (Prim2SF v) -> (if truthy v then v else 0%float) = v.
Proof.
  intros H. unfold truthy. rewrite (eqb_zero_nonneg v H).
  destruct (Prim2SF v) as [[] | [] | | [] m e] eqn:E; try contradiction; try reflexivity.
  cbn [negb]. symmetry. now apply nonneg_zero_float.
Qed.

(** The seconds field of a rest below 60. *)
Lemma format_05_2f_rest (r : float) (R ex : Z) :
  -1074 <= ex <= -40 -> 0 <= R < two_p -> R < 60 * 2 ^ (- ex) ->
  Prim2SF r = exact_float R ex ->
  let h := round_half_even (R * 100) (2 ^ (- ex)) in
  0 <= h <= 6000 /\
  format_05_2f r = two_digits (h / 100) ++ "." ++ two_digits (h mod 100).
Proof.
  intros He HR HR60 Hr h.
  set (P := 2 ^ (- ex)) in *. assert (HP : 0 < P) by (apply pow2_pos; lia).
  assert (Hh : 0 <= h <= 6000).
  { pose proof (round_half_even_bounds (R * 100) P HP) as Hb. fold h in Hb.
    assert (0 <= R * 100 / P) by (apply Z.div_pos; lia).
    assert (R * 100 / P < 6000) by (apply Z.div_lt_upper_bound; lia).
    lia. }
  split; [exact Hh |].
  unfold format_05_2f, sf_of. rewrite Hr.
  destruct (Z.eq_dec R 0) as [-> | HR0].
  - rewrite exact_float_zero.
    assert (Eh : h = 0).
    { unfold h, round_half_even. rewrite Z.mul_0_l, Z.div_0_l, Z.mod_0_l by lia.
      rewrite Z.mul_0_r. now rewrite (proj2 (Z.compare_lt_iff 0 P) HP). }
    rewrite Eh. reflexivity.
  - destruct (canon_canonical R ex ltac:(lia) ltac:(lia)) as (C & H0 & Hv).
    pose proof (cexp_small R ex ltac:(lia) ltac:(lia)) as Hc.
    unfold exact_float, canon in *. cbn [fst snd] in *.
    set (E := cexp R ex) in *. set (M := R * 2 ^ (ex - E)) in *.
    unfold build_float. destruct M as [| pM | pM] eqn:EM; try lia.
    change (emax - prec) with 971. rewrite (proj2 (Z.leb_le E 971)) by lia.
    unfold hundredths. rewrite (proj2 (Z.leb_gt 0 E)) by lia.
    pose proof (pow2_pos (ex - E) ltac:(lia)) as Hk.
    assert (E1 : Zpos pM * 100 = R * 100 * 2 ^ (ex - E)) by (rewrite <- EM; unfold M; ring).
    assert (E2 : 2 ^ (- E) = P * 2 ^ (ex - E)).
    { unfold P. rewrite <- pow2_split by lia. f_equal. lia. }
    rewrite E1, E2, round_half_even_scale by lia. fold h.
    now apply seconds_checked.
Qed.

(** format_time on a positive float below 6000. *)
Lemma format_time_finite (s : float) (mx : positive) (ex : Z) :
  Prim2SF s = S754_finite false mx ex -> PrimFloat.ltb s 6000 = true ->
  format_time s = Ok (mm_ss_cc (exact_minutes s) (exact_hundredths s)) /\
  0 <= exact_minutes s < 100 /\ 0 <= exact_hundredths s <= 6000.
Proof.
  intros Es Hlt. pose proof (Prim2SF_valid s) as V. rewrite Es in V.
  rewrite ltb_spec, Es in Hlt.
  destruct (below_6000 mx ex V Hlt) as (He & HP & Hn & HR & HR2 & Hmx).
  set (P := 2 ^ (- ex)) in *.
  set (n := Zpos mx / (60 * P)) in *. set (R := Zpos mx mod (60 * P)) in *.
  destruct (valid_canonical _ _ _ V) as [(Hm & _) _].
  (* the rest *)
  assert (Emod : Prim2SF (fmod s 60) = exact_float R ex).
  { unfold fmod, sf_of. rewrite Es, sf_fmod_60 by lia. fold P R.
    apply Prim2SF_SF2Prim. apply rounded_float_valid. apply exact_float_rounded; lia. }
  assert (Nmod : nonneg (Prim2SF (fmod s 60))).
  { rewrite Emod. apply rounded_float_nonneg. apply exact_float_rounded; lia. }
  pose proof (ltb_zero_nonneg _ Nmod) as Lmod.
  (* the whole minutes *)
  assert (Esub : PrimFloat.sub s (fmod s 60) = SF2Prim (exact_float (60 * n) 0)).
  { rewrite <- (SF2Prim_Prim2SF (PrimFloat.sub s (fmod s 60))). f_equal.
    rewrite sub_spec, Es, Emod. change SF64sub with (SFsub prec emax).
    apply SFsub_rest; try assumption; lia. }
  assert (Nratio : nonneg (Prim2SF (PrimFloat.div s 60))).
  { apply rounded_float_nonneg. apply (ratio_rounded s 60 mx ex Es). reflexivity. }
  assert (Eq : float_floor_div s 60
               = Ok (floordiv_of (PrimFloat.div (SF2Prim (exact_float (60 * n) 0)) 60) 0)).
  { unfold float_floor_div. change (PrimFloat.eqb 60 0) with false. cbv iota.
    rewrite (float_div_mod_60 s Lmod). cbn [fst].
    now rewrite Esub, (copysign_zero_nonneg _ Nratio). }
  pose proof (minutes_checked n Hn) as Hmin. unfold minutes_check in Hmin.
  destruct (float_to_int (floordiv_of (PrimFloat.div (SF2Prim (exact_float (60 * n) 0)) 60) 0))
    as [z | e |] eqn:Ez; try discriminate.
  apply Z.eqb_eq in Hmin. subst z.
  (* the seconds field *)
  destruct (format_05_2f_rest (fmod s 60) R ex ltac:(lia) ltac:(lia) ltac:(exact (proj2 HR))
              Emod) as [Hh Hfmt].
  fold P in Hh, Hfmt.
  assert (En : exact_minutes s = n).
  { unfold exact_minutes. rewrite Es, (proj2 (Z.leb_gt 0 ex)) by lia. reflexivity. }
  assert (Eh : exact_hundredths s = round_half_even (R * 100) P).
  { unfold exact_hundredths. rewrite Es, (proj2 (Z.leb_gt 0 ex)) by lia. reflexivity. }
  rewrite En, Eh. split; [| split; [exact Hn | exact Hh]].
  unfold format_time.
  rewrite (ltb_zero_nonneg s) by (rewrite Es; exact I).
  rewrite Eq. cbn [bind]. rewrite Ez. cbn [bind].
  rewrite (float_rem_60 s Lmod). cbn [bind].
  rewrite (truthy_nonneg _ Nmod), Hfmt, (format_02d_checked n Hn).
  reflexivity.
Qed.

(** C5 (counterexample): from 6000 seconds on, the minutes field has more
    than two digits; and for the infinity, a non-negative value,
    format_time raises. *)
Lemma format_time_three_digit_minutes :
  PrimFloat.leb 0 6000 = true /\ format_time 6000 = Ok "100:00.00" /\
  PrimFloat.leb 0 infinity = true /\
  format_time infinity = raise ValueError "cannot convert float NaN to integer".
Proof. vm_compute. repeat split. Qed.

(** C5 (amended): for every seconds value [s] with [0 <= s < 6000],
    format_time(s) is the string [mm:ss.cc]: two digits for the whole
    minutes, the floor of [s / 60], then the rest [s - 60 * minutes] rounded
    to hundredths (ties to even), with two digits before the point and two
    after; the rest can round up to [60.00]. In particular
    format_time(65.5) = "01:05.50" and format_time(23.4) = "00:23.40". *)
Theorem format_time_mm_ss_cc (s : float) :
  PrimFloat.leb 0 s = true -> PrimFloat.ltb s 6000 = true ->
  format_time s = Ok (mm_ss_cc (exact_minutes s) (exact_hundredths s)) /\
  0 <= exact_minutes s < 100 /\ 0 <= exact_hundredths s <= 6000 /\
  format_time 65.5 = Ok "01:05.50" /\ format_time 23.4 = Ok "00:23.40" /\
  format_time 59.996 = Ok "00:60.00".
Proof.
  intros H0 Hlt.
  assert (Hex : format_time 65.5 = Ok "01:05.50" /\ format_time 23.4 = Ok "00:23.40" /\
                format_time 59.996 = Ok "00:60.00") by (vm_compute; repeat split).
  assert (Hmain : format_time s = Ok (mm_ss_cc (exact_minutes s) (exact_hundredths s)) /\
                  0 <= exact_minutes s < 100 /\ 0 <= exact_hundredths s <= 6000).
  { rewrite leb_spec, sf_zero in H0.
    destruct (Prim2SF s) as [[] | [] | | [] mx ex] eqn:Es; try discriminate.
    - rewrite <- (SF2Prim_Prim2SF s), Es. vm_compute. repeat split; discriminate.
    - rewrite <- (SF2Prim_Prim2SF s), Es. vm_compute. repeat split; discriminate.
    - rewrite ltb_spec, Es in Hlt. discriminate.
    - now apply (format_time_finite s mx ex). }
  tauto.
Qed.

Lemma format_time_mm_ss_cc_witness :
  PrimFloat.leb 0 65.5 = true /\ PrimFloat.ltb 65.5 6000 = true /\
  format_time 65.5 = Ok (mm_ss_cc 1 550).
Proof.
  split; [reflexivity | split; [reflexivity |]].
  exact (proj1 (format_time_mm_ss_cc 65.5%float eq_refl eq_refl)).
Defined.

(** * More of the row loop *)

(** ** The exceptions that leave the loop *)





(** ** Row numbers *)

Lemma process_row_keeps_failed (root : Element) (st st' : state) (k : Z) (row : Row) (x : string) :
  process_row root st k row = Ok st' -> In x (failed_rows st) -> In x (failed_rows st').
Proof.
  unfold process_row. intros H Hx.
  destruct (score_row root row) as [[[[[name surname] stroke] time] points] | e |];
    try discriminate.
  - destruct (format_time time) as [t | e |]; try discriminate.
    + injection H as <-. exact Hx.
    + destruct (caught e); try discriminate. injection H as <-.
      cbn. apply in_or_app. now left.
  - destruct (caught e); try discriminate. injection H as <-.
    cbn. apply in_or_app. now left.
Qed.

Lemma run_rows_keeps_failed (root : Element) (rows : list Row) :
  forall (st st' : state) (k : Z) (x : string),
    run_rows root st k rows = Ok st' -> In x (failed_rows st) -> In x (failed_rows st').
Proof.
  induction rows as [| row rest IH]; intros st st' k x H Hx.
  - injection H as <-. exact Hx.
  - cbn [run_rows] in H.
    destruct (process_row root st k row) as [st1 | e1 |] eqn:Ep; try discriminate.
    cbn [bind] in H.
    exact (IH _ _ _ _ H (process_row_keeps_failed _ _ _ _ _ _ Ep Hx)).
Qed.

Lemma run_rows_numbers (root : Element) (rows : list Row) :
  forall (st st' : state) (k : Z) (i : nat) (row : Row) (e : exn),
    run_rows root st k rows = Ok st' ->
    nth_error rows i = Some row -> score_row root row = Raise e ->
    In (failed_entry (k + Z.of_nat i) e row) (failed_rows st').
Proof.
  induction rows as [| r rest IH]; intros st st' k i row e H Hn Hs.
  - destruct i; discriminate.
  - cbn [run_rows] in H.
    destruct (process_row root st k r) as [st1 | e1 |] eqn:Ep; try discriminate.
    cbn [bind] in H. destruct i as [| i].
    + injection Hn as ->. replace (k + Z.of_nat 0) with k by lia.
      apply (run_rows_keeps_failed _ _ _ _ _ _ H).
      unfold process_row in Ep. rewrite Hs in Ep.
      destruct (caught e); try discriminate. injection Ep as <-.
      cbn. apply in_or_app. right. now left.
    + replace (k + Z.of_nat (S i)) with (k + 1 + Z.of_nat i) by lia.
      exact (IH _ _ _ _ _ _ H Hn Hs).
Qed.

(** X6: rows are numbered from 2, scored or not: when the loop ends, the
    row at position [i] (from 0) of the input, if reading or scoring it
    raised [e], is in the skipped rows as row [i + 2], with the text of
    [e] and the row. *)
Theorem main_numbers_rows (root : Element) (rows : list Row) (st : state)
        (i : nat) (row : Row) (e : exn) :
  main root rows = Ok st ->
  nth_error rows i = Some row -> score_row root row = Raise e ->
  In ("Row " ++ py_str_int (Z.of_nat i + 2) ++ ": Invalid data - " ++ exn_str e ++
      " -> " ++ repr_row row) (failed_rows st).
Proof.
  intros H Hn Hs.
  pose proof (run_rows_numbers root rows _ _ _ i row e H Hn Hs) as Hin.
  replace (Z.of_nat i + 2) with (2 + Z.of_nat i) by lia. exact Hin.
Qed.

Lemma main_numbers_rows_witness :
  In ("Row " ++ py_str_int (Z.of_nat 1 + 2) ++ ": Invalid data - " ++
      exn_str (mkExn ValueError "Name or surname is missing") ++
      " -> " ++ repr_row nameless_row)
     ["Row 3: Invalid data - Name or surname is missing -> {'name': 'Anna', 'surname': '  ', 'course': 'SCM', 'gender': 'Men', 'stroke': '50m Freestyle', 'time': '22.5'}"].
Proof.
  refine (main_numbers_rows sample_table [good_row; nameless_row]
            (mkState 1182.7419960672394%float
               [mkScored "Mario" "Rossi" (Some "50m Freestyle") "00:20.16"
                  1182.7419960672394%float]
               _) 1 nameless_row _ _ _ _).
  - vm_compute. reflexivity.
  - reflexivity.
  - vm_compute. reflexivity.
Defined.

(** ** The reason a row is skipped for *)

(** X7: a row with its six fields, whose time is the text of a number and
    whose name or surname is blank, is skipped for "Name or surname is
    missing", whatever its course, gender and stroke: the names are
    checked before the table is looked up, and after the time is read. *)
Theorem process_row_blank_name (root : Element) (st : state) (k : Z) (row : Row)
        (name surname time : string) (course gender stroke : option string) (t : float) :
  assoc "name" row = Some (Some name) -> assoc "surname" row = Some (Some surname) ->
  assoc "course" row = Some course -> assoc "gender" row = Some gender ->
  assoc "stroke" row = Some stroke -> assoc "time" row = Some (Some time) ->
  float_of_str time = Ok t ->
  py_strip name = EmptyString \/ py_strip surname = EmptyString ->
  process_row root st k row
  = Ok (mkState (total_points st) (processed_results st)
          (failed_rows st ++
           [("Row " ++ py_str_int k ++ ": Invalid data - Name or surname is missing -> " ++
             repr_row row)%string])%list).
Proof.
  intros E1 E2 E3 E4 E5 E6 Et Hb.
  unfold process_row, score_row, row_get.
  rewrite E1, E2, E3, E4, E5, E6. cbn [bind cell_strip py_float]. rewrite Et. cbn [bind].
  assert (Hempty : is_empty (py_strip name) || is_empty (py_strip surname) = true).
  { destruct Hb as [-> | ->]; [reflexivity | apply orb_true_r]. }
  rewrite Hempty. reflexivity.
Qed.

Lemma process_row_blank_name_witness :
  process_row lower_case_table initial_state 7 nameless_row
  = Ok (mkState (total_points initial_state) (processed_results initial_state)
          (failed_rows initial_state ++
           [("Row " ++ py_str_int 7 ++ ": Invalid data - Name or surname is missing -> " ++
             repr_row nameless_row)%string])%list).
Proof.
  apply (process_row_blank_name lower_case_table initial_state 7 nameless_row
           "Anna" "  " "22.5" (Some "SCM") (Some "Men") (Some "50m Freestyle") 22.5%float).
  - reflexivity.
  - reflexivity.
  - reflexivity.
  - reflexivity.
  - reflexivity.
  - reflexivity.
  - vm_compute. reflexivity.
  - right. reflexivity.
Defined.

(** X8: a row with its six fields and string cells for name, surname and
    time, whose time [float] does not read, is skipped for "could not
    convert string to float" with the time quoted, also when its name is
    blank: the time is read first. *)
Theorem process_row_unparsed_time (root : Element) (st : state) (k : Z) (row : Row)
        (name surname time : string) (course gender stroke : option string) (e : exn) :
  assoc "name" row = Some (Some name) -> assoc "surname" row = Some (Some surname) ->
  assoc "course" row = Some course -> assoc "gender" row = Some gender ->
  assoc "stroke" row = Some stroke -> assoc "time" row = Some (Some time) ->
  float_of_str time = Raise e ->
  e = mkExn ValueError ("could not convert string to float: " ++ py_repr time) /\
  process_row root st k row
  = Ok (mkState (total_points st) (processed_results st)
          (failed_rows st ++
           [("Row " ++ py_str_int k ++ ": Invalid data - could not convert string to float: " ++
             py_repr time ++ " -> " ++ repr_row row)%string])%list).
Proof.
  intros E1 E2 E3 E4 E5 E6 Et.
  assert (He : e = mkExn ValueError ("could not convert string to float: " ++ py_repr time)).
  { unfold float_of_str in Et.
    destruct (split_sign (py_strip time)) as [neg u].
    destruct (String.eqb (py_lower u) "inf" || String.eqb (py_lower u) "infinity");
      [discriminate |].
    destruct (String.eqb (py_lower u) "nan"); [discriminate |].
    destruct (parse_floatnumber u) as [[m q] |]; [discriminate |].
    unfold raise in Et. now injection Et as <-. }
  split; [exact He |].
  unfold process_row, score_row, row_get.
  rewrite E1, E2, E3, E4, E5, E6. cbn [bind cell_strip py_float]. rewrite Et. cbn [bind].
  subst e. reflexivity.
Qed.

Lemma process_row_unparsed_time_witness :
  mkExn ValueError ("could not convert string to float: " ++ py_repr "1:02.5")
  = mkExn ValueError ("could not convert string to float: " ++ py_repr "1:02.5") /\
  process_row sample_table initial_state 2 unparsed_row
  = Ok (mkState (total_points initial_state) (processed_results initial_state)
          (failed_rows initial_state ++
           [("Row " ++ py_str_int 2 ++ ": Invalid data - could not convert string to float: " ++
             py_repr "1:02.5" ++ " -> " ++ repr_row unparsed_row)%string])%list).
Proof.
  apply (process_row_unparsed_time sample_table initial_state 2 unparsed_row
           "Anna" "Bianchi" "1:02.5" (Some "SCM") (Some "Men") (Some "50m Freestyle")).
  - reflexivity.
  - reflexivity.
  - reflexivity.
  - reflexivity.
  - reflexivity.
  - reflexivity.
  - vm_compute. reflexivity.
Defined.

(** X9: a row that is read in full, with names that are not blank, for
    which [find_basetime] finds no base time, is skipped for "Base time
    not found for event."; the total and the scored results stay. *)
Theorem process_row_not_found (root : Element) (st : state) (k : Z) (row : Row)
        (name surname course gender stroke time : string) (t : float) :
  assoc "name" row = Some (Some name) -> assoc "surname" row = Some (Some surname) ->
  assoc "course" row = Some (Some course) -> assoc "gender" row = Some (Some gender) ->
  assoc "stroke" row = Some (Some stroke) -> assoc "time" row = Some (Some time) ->
  float_of_str time = Ok t ->
  py_strip name <> EmptyString -> py_strip surname <> EmptyString ->
  find_basetime root course gender stroke = Ok None ->
  process_row root st k row
  = Ok (mkState (total_points st) (processed_results st)
          (failed_rows st ++
           [("Row " ++ py_str_int k ++ ": Invalid data - Base time not found for event. -> " ++
             repr_row row)%string])%list).
Proof.
  intros E1 E2 E3 E4 E5 E6 Et Hn Hs Hf.
  unfold process_row, score_row, row_get.
  rewrite E1, E2, E3, E4, E5, E6. cbn [bind cell_strip py_float]. rewrite Et. cbn [bind].
  assert (Hfull : is_empty (py_strip name) || is_empty (py_strip surname) = false).
  { destruct (py_strip name); [congruence |]. destruct (py_strip surname); [congruence |].
    reflexivity. }
  rewrite Hfull. unfold find_basetime_cells. rewrite Hf. reflexivity.
Qed.

Lemma process_row_not_found_witness :
  process_row sample_table initial_state 2 unknown_row
  = Ok (mkState (total_points initial_state) (processed_results initial_state)
          (failed_rows initial_state ++
           [("Row " ++ py_str_int 2 ++ ": Invalid data - Base time not found for event. -> " ++
             repr_row unknown_row)%string])%list).
Proof.
  apply (process_row_not_found sample_table initial_state 2 unknown_row
           "Anna" "Bianchi" "SCM" "Men" "200m Butterfly" "120.5" 120.5%float).
  - reflexivity.
  - reflexivity.
  - reflexivity.
  - reflexivity.
  - reflexivity.
  - reflexivity.
  - vm_compute. reflexivity.
  - discriminate.
  - discriminate.
  - vm_compute. reflexivity.
Defined.

(** ** Times that format_time accepts *)

Lemma score_row_time (root : Element) (row : Row) (name surname : string)
      (stroke : option string) (t p : float) :
  score_row root row = Ok (name, surname, stroke, t, p) -> row_time row = Some t.
Proof.
  unfold score_row, row_get, row_time. intros H.
  destruct (assoc "name" row) as [c1 |]; [| discriminate]. cbn [bind] in H.
  destruct (cell_strip c1) as [n1 | |]; try discriminate. cbn [bind] in H.
  destruct (assoc "surname" row) as [c2 |]; [| discriminate]. cbn [bind] in H.
  destruct (cell_strip c2) as [n2 | |]; try discriminate. cbn [bind] in H.
  destruct (assoc "course" row) as [c3 |]; [| discriminate]. cbn [bind] in H.
  destruct (assoc "gender" row) as [c4 |]; [| discriminate]. cbn [bind] in H.
  destruct (assoc "stroke" row) as [c5 |]; [| discriminate]. cbn [bind] in H.
  destruct (assoc "time" row) as [c6 |]; [| discriminate]. cbn [bind] in H.
  destruct (py_float c6) as [t' | |]; try discriminate. cbn [bind] in H.
  destruct (is_empty n1 || is_empty n2); [discriminate |].
  destruct (find_basetime_cells root c3 c4 c5) as [[b |] | |]; try discriminate.
  cbn [bind] in H.
  destruct (calculate_points b t') as [p' | |]; try discriminate.
  cbn [bind] in H. now injection H as <- <- <- <- <-.
Qed.

(** * More of calculate_points *)

Lemma leb_false_not_zero (t : float) :
  PrimFloat.leb t 0 = false -> PrimFloat.eqb t 0 = false.
Proof.
  rewrite leb_spec, eqb_spec. unfold SFleb, SFeqb.
  destruct (SFcompare (Prim2SF t) (Prim2SF 0)) as [[] |]; congruence.
Qed.

(** X11: calculate_points raises nothing but [OverflowError]: whatever the
    two floats, it returns a float or raises [OverflowError]; the guard on
    the input time leaves no division by zero. *)
Theorem calculate_points_only_overflow (b t : float) :
  (exists p, calculate_points b t = Ok p) \/
  calculate_points b t = raise OverflowError "(34, 'Numerical result out of range')".
Proof.
  unfold calculate_points, float_truediv.
  destruct (PrimFloat.leb t 0) eqn:Hle; [left; now exists 0%float |].
  rewrite (leb_false_not_zero t Hle). cbn [bind].
  destruct (float_pow_3_outcome (PrimFloat.div b t)) as [[c ->] | ->].
  - left. eexists. reflexivity.
  - right. reflexivity.
Qed.

Lemma is_nan_sf (v : float) : is_nan v = true <-> Prim2SF v = S754_nan.
Proof.
  unfold is_nan. rewrite eqb_spec.
  destruct (Prim2SF v) as [s | s | | s m e]; unfold SFeqb, SFcompare.
  - split; [discriminate | discriminate].
  - destruct s; split; discriminate.
  - split; reflexivity.
  - rewrite Z.compare_refl, Pos.compare_cont_refl.
    destruct s; split; discriminate.
Qed.

(** X12: a time that is not a number passes the guard: for every base
    time [b] and every NaN [t], calculate_points(b, t) returns a NaN, not
    0.0. *)
Theorem calculate_points_nan_time (b t : float) :
  is_nan t = true ->
  exists p, calculate_points b t = Ok p /\ is_nan p = true.
Proof.
  intros Hn. pose proof (proj1 (is_nan_sf t) Hn) as Et.
  assert (Ed : Prim2SF (PrimFloat.div b t) = S754_nan).
  { rewrite div_spec, Et. unfold SF64div, SFdiv. destruct (Prim2SF b) as [| | | s m e];
      try reflexivity. }
  exists (PrimFloat.mul 1000 (PrimFloat.div b t)). split.
  - unfold calculate_points, float_truediv.
    assert (Hle : PrimFloat.leb t 0 = false) by (rewrite leb_spec, Et; reflexivity).
    rewrite Hle, (leb_false_not_zero t Hle). cbn [bind].
    unfold float_pow_3. rewrite (proj2 (is_nan_sf _) Ed). reflexivity.
  - apply is_nan_sf. rewrite mul_spec, Ed. reflexivity.
Qed.

Lemma calculate_points_nan_time_witness :
  exists p, calculate_points 21.32 nan = Ok p /\ is_nan p = true.
Proof. apply (calculate_points_nan_time 21.32%float nan). reflexivity. Defined.

(** X13: for a positive finite base time and a positive time, the points
    calculate_points returns are zero or positive (the infinity
    included), never negative and never a NaN. *)
Theorem calculate_points_nonneg (b t p : float) :
  PrimFloat.ltb 0 b = true -> PrimFloat.ltb b infinity = true ->
  PrimFloat.ltb 0 t = true -> calculate_points b t = Ok p ->
  PrimFloat.leb 0 p = true.
Proof.
  intros Hb Hf Ht E.
  destruct (finite_positive_cases b Hb Hf) as (mb & eb & Eb).
  rewrite leb_spec, sf_zero, (calculate_points_sf b t p mb eb Eb Ht E), Eb.
  apply SFleb_zero.
  pose proof (positive_float_of t Ht) as Pt.
  destruct (sf_points_mono mb eb _ _ Pt Pt) as (N & _).
  - destruct (Prim2SF t) as [[] | [] | | [] m e]; try contradiction; try reflexivity.
    apply SFleb_finite_lex. right. split; lia.
  - exact N.
Qed.

Lemma calculate_points_nonneg_witness :
  PrimFloat.leb 0 1182.7419960672394 = true.
Proof.
  apply (calculate_points_nonneg 21.32%float 20.16%float); reflexivity.
Defined.

(** X14: calculate_points returns, with no [OverflowError], whenever the
    base time is positive and finite, the time is positive and the ratio
    of the two is at most 1e100. *)
Theorem calculate_points_moderate_ratio (b t : float) :
  PrimFloat.ltb 0 b = true -> PrimFloat.ltb b infinity = true ->
  PrimFloat.ltb 0 t = true ->
  PrimFloat.leb (PrimFloat.div b t) 1e100 = true ->
  exists p, calculate_points b t = Ok p.
Proof.
  intros Hb Hf Ht Hr.
  destruct (finite_positive_cases b Hb Hf) as (mb & eb & Eb).
  apply (calculate_points_returns b t mb eb Eb Ht).
  destruct (ratio_rounded b t mb eb Eb Ht) as [Ed Rd].
  rewrite leb_spec, Ed in Hr. rewrite Ed in Rd.
  assert (R100 : rounded_float (Prim2SF 1e100))
    by (apply valid_rounded_float; now vm_compute).
  destruct (sf_pow3_mono _ _ Rd R100 Hr) as (C1 & C2 & Hc).
  apply (SFleb_ltb_trans _ (sf_pow3 (Prim2SF 1e100)) (S754_infinity false)
           (rounded_float_nonneg _ C1) (rounded_float_nonneg _ C2) I Hc).
  now vm_compute.
Qed.

Lemma calculate_points_moderate_ratio_witness :
  exists p, calculate_points 21.32 0.001 = Ok p.
Proof.
  apply (calculate_points_moderate_ratio 21.32%float 0.001%float); reflexivity.
Defined.

(** * More of format_time *)

Lemma round_half_even_shift (a b c : Z) :
  0 < b -> Z.even c = true ->
  round_half_even (c * b + a) b = c + round_half_even a b.
Proof.
  intros Hb Hc. unfold round_half_even.
  rewrite (Z.add_comm (c * b) a), Z.div_add, Z.mod_add by lia.
  rewrite Z.even_add, Hc.
  destruct (2 * (a mod b) ?= b); try lia.
  destruct (Z.even (a / b)); cbn [Bool.eqb]; lia.
Qed.

(** X15: what format_time shows is the time to the hundredth: for every
    [s] with [0 <= s < 6000], the minutes [n] and the hundredths [h] of
    the string are such that [6000 * n + h] is [s] in hundredths of a
    second, rounded to the nearest (ties to even). *)
Theorem format_time_to_the_hundredth (s : float) :
  PrimFloat.leb 0 s = true -> PrimFloat.ltb s 6000 = true ->
  exists n h,
    format_time s = Ok (mm_ss_cc n h) /\ 0 <= n < 100 /\ 0 <= h <= 6000 /\
    6000 * n + h = float_hundredths s.
Proof.
  intros H0 Hlt. exists (exact_minutes s), (exact_hundredths s).
  rewrite leb_spec, sf_zero in H0.
  destruct (Prim2SF s) as [[] | [] | | [] mx ex] eqn:Es; try discriminate.
  - unfold float_hundredths, exact_minutes, exact_hundredths. rewrite Es.
    rewrite <- (SF2Prim_Prim2SF s), Es. vm_compute. repeat split; discriminate.
  - unfold float_hundredths, exact_minutes, exact_hundredths. rewrite Es.
    rewrite <- (SF2Prim_Prim2SF s), Es. vm_compute. repeat split; discriminate.
  - rewrite ltb_spec, Es in Hlt. discriminate.
  - destruct (format_time_finite s mx ex Es Hlt) as (Hf & Hn & Hh).
    split; [exact Hf | split; [exact Hn | split; [exact Hh |]]].
    pose proof (Prim2SF_valid s) as V. rewrite Es in V.
    assert (Hlt' := Hlt). rewrite ltb_spec, Es in Hlt'.
    destruct (below_6000 mx ex V Hlt') as (He & HP & _ & HR & _ & Hmx).
    unfold float_hundredths, exact_minutes, exact_hundredths, hundredths. rewrite Es.
    rewrite (proj2 (Z.leb_gt 0 ex)) by lia.
    set (P := 2 ^ (- ex)) in *.
    set (n := Zpos mx / (60 * P)) in *. set (R := Zpos mx mod (60 * P)) in *.
    rewrite Hmx.
    replace ((60 * P * n + R) * 100) with (6000 * n * P + R * 100) by ring.
    rewrite round_half_even_shift; [reflexivity | lia |].
    rewrite Z.even_mul. reflexivity.
Qed.

Lemma format_time_to_the_hundredth_witness :
  exists n h,
    format_time 59.996 = Ok (mm_ss_cc n h) /\ 0 <= n < 100 /\ 0 <= h <= 6000 /\
    6000 * n + h = float_hundredths 59.996.
Proof.
  apply (format_time_to_the_hundredth 59.996%float); reflexivity.
Defined.

(** * More of find_basetime *)

(** X16: the first event of the stroke decides: when it has no
    [basetime_seconds] child, find_basetime returns None, whatever the
    events after it hold. *)
Theorem find_basetime_first_event (root : Element) (course gender stroke : string)
        (ev : Element) :
  no_quote course -> no_quote gender -> no_quote stroke ->
  table_event root (py_upper course) (py_capitalize gender) stroke = Some ev ->
  children_tagged "basetime_seconds" ev = [] ->
  find_basetime root course gender stroke = Ok None.
Proof.
  intros Hc Hg Hs He Hb. rewrite (find_basetime_lookup root _ _ _ Hc Hg Hs).
  unfold table_lookup, event_basetime. now rewrite He, Hb.
Qed.

Lemma find_basetime_first_event_witness :
  find_basetime shadow_table "SCM" "Men" "50m Freestyle" = Ok None.
Proof.
  apply (find_basetime_first_event shadow_table "SCM" "Men" "50m Freestyle"
           (mkElement "event" [] None None [leaf "stroke" "50m Freestyle"]));
    reflexivity.
Defined.

(** X17: a base time that is not the text of a number is an error, not a
    miss: when the first [basetime_seconds] child of the event found holds
    a text that [float] does not read, find_basetime raises the
    [ValueError] of [float]; when it holds no text, the [TypeError]. *)
Theorem find_basetime_bad_text (root : Element) (course gender stroke : string)
        (ev bt : Element) (rest : list Element) :
  no_quote course -> no_quote gender -> no_quote stroke ->
  table_event root (py_upper course) (py_capitalize gender) stroke = Some ev ->
  children_tagged "basetime_seconds" ev = bt :: rest ->
  (forall text e, elem_text bt = Some text -> float_of_str text = Raise e ->
     find_basetime root course gender stroke
     = raise ValueError ("could not convert string to float: " ++ py_repr text)) /\
  (elem_text bt = None ->
     find_basetime root course gender stroke
     = raise TypeError "float() argument must be a string or a real number, not 'NoneType'").
Proof.
  intros Hc Hg Hs He Hb. rewrite (find_basetime_lookup root _ _ _ Hc Hg Hs).
  unfold table_lookup, event_basetime. rewrite He, Hb. cbn [hd_error]. split.
  - intros text e Ht Hf. rewrite Ht. cbn [py_float]. rewrite Hf. cbn [bind].
    unfold float_of_str in Hf.
    destruct (split_sign (py_strip text)) as [neg u].
    destruct (String.eqb (py_lower u) "inf" || String.eqb (py_lower u) "infinity");
      [discriminate |].
    destruct (String.eqb (py_lower u) "nan"); [discriminate |].
    destruct (parse_floatnumber u) as [[m q] |]; [discriminate |].
    unfold raise in *. now injection Hf as <-.
  - intros Ht. rewrite Ht. reflexivity.
Qed.

Lemma find_basetime_bad_text_witness :
  find_basetime bad_text_table "SCM" "Men" "50m Freestyle"
  = raise ValueError ("could not convert string to float: " ++ py_repr "21,32") /\
  find_basetime empty_text_table "SCM" "Men" "50m Freestyle"
  = raise TypeError "float() argument must be a string or a real number, not 'NoneType'".
Proof.
  split.
  - refine (proj1 (find_basetime_bad_text bad_text_table "SCM" "Men" "50m Freestyle"
                     (event "50m Freestyle" "21,32") (leaf "basetime_seconds" "21,32") []
                     eq_refl eq_refl eq_refl eq_refl eq_refl) "21,32" _ eq_refl _).
    vm_compute. reflexivity.
  - refine (proj2 (find_basetime_bad_text empty_text_table "SCM" "Men" "50m Freestyle"
                     (mkElement "event" [] None None
                        [leaf "stroke" "50m Freestyle";
                         mkElement "basetime_seconds" [] None None []])
                     (mkElement "basetime_seconds" [] None None []) []
                     eq_refl eq_refl eq_refl eq_refl eq_refl) eq_refl).
Defined.

(** ** Short lines *)

Lemma run_rows_app (root : Element) (a b : list Row) :
  forall st k,
    run_rows root st k (a ++ b)
    = (st' <- run_rows root st k a ;; run_rows root st' (k + Z.of_nat (List.length a)) b).
Proof.
  induction a as [| row rest IH]; intros st k.
  - cbn. now rewrite Z.add_0_r.
  - cbn [app run_rows List.length].
    destruct (process_row root st k row) as [st1 | e |]; cbn [bind]; try reflexivity.
    rewrite IH. destruct (run_rows root st1 (k + 1) rest); cbn [bind]; try reflexivity.
    f_equal. lia.
Qed.

(** A row with a [None] among its name, surname and time raises out of
    the [try]. *)
Lemma score_row_short (root : Element) (row : Row) :
  (forall key, In key required_fields -> assoc key row <> None) ->
  assoc "name" row = Some None \/ assoc "surname" row = Some None \/
  assoc "time" row = Some None ->
  exists e, score_row root row = Raise e /\
            (exn_class e = AttributeError \/ exn_class e = TypeError).
Proof.
  intros Hk Hn. unfold score_row, row_get.
  assert (K : forall key, In key required_fields -> exists cell, assoc key row = Some cell).
  { intros key Hin. specialize (Hk key Hin). destruct (assoc key row) as [cell |];
      [now exists cell | contradiction]. }
  destruct (K "name") as [name En]; [cbn; tauto |].
  destruct (K "surname") as [surname Es]; [cbn; tauto |].
  destruct (K "course") as [course Ec]; [cbn; tauto |].
  destruct (K "gender") as [gender Eg]; [cbn; tauto |].
  destruct (K "stroke") as [stroke Ek]; [cbn; tauto |].
  destruct (K "time") as [time Et]; [cbn; tauto |].
  rewrite En, Es, Ec, Eg, Ek, Et in *. cbn [bind].
  destruct name as [name |]; [| eexists; split; [reflexivity | now left]].
  destruct surname as [surname |]; [| eexists; split; [reflexivity | now left]].
  destruct time as [time |]; [| eexists; split; [reflexivity | now right]].
  destruct Hn as [H | [H | H]]; discriminate.
Qed.

(** X3: a short line ends the run: a row that has the six fields, with
    [None] for its name, surname or time (what [csv.DictReader] gives the
    missing cells of a line shorter than the header), is not skipped:
    wherever it stands in the input, main does not end normally, and when
    the rows before it pass, main ends there with an [AttributeError] or a
    [TypeError], the results of these rows lost and the rows after it
    unread. *)
Theorem main_short_line (root : Element) (before after : list Row) (row : Row) :
  (forall key, In key required_fields -> assoc key row <> None) ->
  assoc "name" row = Some None \/ assoc "surname" row = Some None \/
  assoc "time" row = Some None ->
  (forall st, main root (before ++ row :: after) <> Ok st) /\
  (forall st', main root before = Ok st' ->
               exists e, main root (before ++ row :: after) = Raise e /\
                         (exn_class e = AttributeError \/ exn_class e = TypeError)).
Proof.
  intros Hk Hn. destruct (score_row_short root row Hk Hn) as (e & Es & Hc).
  assert (Hp : forall st k, process_row root st k row = Raise e).
  { intros st k. unfold process_row. rewrite Es.
    replace (caught e) with false; [reflexivity |].
    unfold caught. destruct Hc as [-> | ->]; reflexivity. }
  unfold main. rewrite run_rows_app. split.
  - intros st. destruct (run_rows root initial_state 2 before) as [st' | e' |];
      cbn [bind run_rows]; try discriminate. rewrite Hp. discriminate.
  - intros st' ->. cbn [bind run_rows]. rewrite Hp. cbn [bind]. now exists e.
Qed.

Lemma main_short_line_witness :
  (forall st, main sample_table ([good_row] ++ short_row :: [good_row; good_row]) <> Ok st) /\
  (forall st', main sample_table [good_row] = Ok st' ->
               exists e, main sample_table ([good_row] ++ short_row :: [good_row; good_row])
                         = Raise e /\
                         (exn_class e = AttributeError \/ exn_class e = TypeError)).
Proof.
  apply (main_short_line sample_table [good_row] [good_row; good_row] short_row).
  - intros key [<- | [<- | [<- | [<- | [<- | [<- | []]]]]]]; discriminate.
  - right. right. reflexivity.
Defined.

(** ** The base time *)

(** The quotient grows with the dividend. *)
Lemma SFdiv_mono_num (m1 : positive) (e1 : Z) (m2 : positive) (e2 : Z)
      (mt : positive) (et : Z) :
  val_le (Zpos m1) e1 (Zpos m2) e2 ->
  SFleb (SFdiv prec emax (S754_finite false m1 e1) (S754_finite false mt et))
        (SFdiv prec emax (S754_finite false m2 e2) (S754_finite false mt et)) = true.
Proof.
  intros H. unfold val_le in H.
  apply (SFdiv_mono m1 e1 mt et m2 e2 mt et (et + Z.min e1 e2)); try lia.
  replace (e1 + et - (et + Z.min e1 e2)) with (e1 - Z.min e1 e2) by lia.
  replace (e2 + et - (et + Z.min e1 e2)) with (e2 - Z.min e1 e2) by lia.
  replace (Zpos m1 * Zpos mt * 2 ^ (e1 - Z.min e1 e2))
    with (Zpos mt * (Zpos m1 * 2 ^ (e1 - Z.min e1 e2))) by ring.
  replace (Zpos m2 * Zpos mt * 2 ^ (e2 - Z.min e1 e2))
    with (Zpos mt * (Zpos m2 * 2 ^ (e2 - Z.min e1 e2))) by ring.
  apply Z.mul_le_mono_nonneg_l; lia.
Qed.

(** X22: the points grow with the base time: for a positive time, of two
    positive finite base times the larger gives at least the points of the
    smaller, when both calls return. *)
Theorem calculate_points_base_monotone (b1 b2 t p1 p2 : float) :
  PrimFloat.ltb 0 b1 = true -> PrimFloat.leb b1 b2 = true ->
  PrimFloat.ltb b2 infinity = true -> PrimFloat.ltb 0 t = true ->
  calculate_points b1 t = Ok p1 -> calculate_points b2 t = Ok p2 ->
  PrimFloat.leb p1 p2 = true.
Proof.
  intros H1 H12 Hf Ht E1 E2.
  assert (H2 : PrimFloat.ltb 0 b2 = true).
  { rewrite ltb_spec in *. rewrite leb_spec in H12.
    apply (SFltb_leb_trans (Prim2SF 0) (Prim2SF b1) (Prim2SF b2)); try assumption.
    - now vm_compute.
    - apply positive_float_nonneg. apply positive_float_of. now rewrite ltb_spec.
    - destruct (Prim2SF b2) as [[] | [] | | [] m e]; try exact I; try discriminate;
        destruct (Prim2SF b1) as [[] | [] | | [] m' e']; discriminate. }
  assert (Hf1 : PrimFloat.ltb b1 infinity = true).
  { rewrite ltb_spec in *. rewrite leb_spec in H12.
    apply (SFleb_ltb_trans (Prim2SF b1) (Prim2SF b2) (Prim2SF infinity)); try assumption.
    - apply positive_float_nonneg. apply positive_float_of. now rewrite ltb_spec.
    - apply positive_float_nonneg. apply positive_float_of. now rewrite ltb_spec.
    - exact I. }
  destruct (finite_positive_cases b1 H1 Hf1) as (m1 & e1 & Eb1).
  destruct (finite_positive_cases b2 H2 Hf) as (m2 & e2 & Eb2).
  pose proof (Prim2SF_valid b1) as V1. pose proof (Prim2SF_valid b2) as V2.
  rewrite Eb1 in V1. rewrite Eb2 in V2.
  rewrite leb_spec, (calculate_points_sf b1 t p1 m1 e1 Eb1 Ht E1),
    (calculate_points_sf b2 t p2 m2 e2 Eb2 Ht E2), Eb1, Eb2.
  rewrite leb_spec, Eb1, Eb2 in H12.
  unfold sf_points.
  assert (R : forall m e, rounded_float (SFdiv prec emax (S754_finite false m e) (Prim2SF t))).
  { intros m e. destruct (positive_cases t Ht) as [E | (mt & et & E)]; rewrite E.
    - apply rounded_float_zero.
    - apply SFdiv_rounded. }
  apply sf_score_mono; try apply R.
  destruct (positive_cases t Ht) as [E | (mt & et & E)]; rewrite E.
  - reflexivity.
  - apply SFdiv_mono_num. apply lex_val_le.
    + apply (valid_canonical false m1 e1 V1).
    + apply (valid_canonical false m2 e2 V2).
    + now apply SFleb_finite_lex.
Qed.

Lemma calculate_points_base_monotone_witness :
  PrimFloat.leb 843.74916629443192%float 1182.7419960672394%float = true.
Proof.
  apply (calculate_points_base_monotone 19.05 21.32 20.16).
  - reflexivity.
  - reflexivity.
  - reflexivity.
  - reflexivity.
  - vm_compute. reflexivity.
  - vm_compute. reflexivity.
Defined.

(** * Subtraction of positive floats keeps the order *)

Lemma val_le_trans (m e m' e' m'' e'' : Z) :
  val_le m e m' e' -> val_le m' e' m'' e'' -> val_le m e m'' e''.
Proof.
  intros H1 H2.
  assert (B1 : Z.min e (Z.min e' e'') <= e) by lia.
  assert (B2 : Z.min e (Z.min e' e'') <= e') by lia.
  assert (B3 : Z.min e (Z.min e' e'') <= e'') by lia.
  pose proof (proj1 (val_le_base _ _ _ _ _ B1 B2) H1).
  pose proof (proj1 (val_le_base _ _ _ _ _ B2 B3) H2).
  apply (proj2 (val_le_base _ _ _ _ _ B1 B3)). lia.
Qed.

(** [binary_round] first aligns the mantissa, then rounds it. *)
Lemma binary_round_aligned (s : bool) (p : positive) (e : Z) :
  exists mz ez,
    binary_round prec emax s p e
    = binary_round_aux prec emax s mz ez (loc_of_frac 0 1) /\
    0 < mz /\ ez <= cexp mz ez /\ val_eq mz ez (Zpos p) e.
Proof.
  unfold binary_round.
  change (Zpos (digits2_pos p)) with (Zdigits2 (Zpos p)). fold (cexp (Zpos p) e).
  set (c := cexp (Zpos p) e).
  destruct (Z_le_gt_dec e c) as [Hle | Hgt].
  - assert (Es : shl_align p e c = (p, e)).
    { unfold shl_align. destruct (c - e) as [| d | d] eqn:Ed; try reflexivity. lia. }
    rewrite Es. exists (Zpos p), e.
    split; [reflexivity | split; [lia | split; [exact Hle | apply val_eq_refl]]].
  - destruct (shl_align_value p e c ltac:(lia)) as [Ev Ee].
    destruct (shl_align p e c) as [mz ez]. cbn [fst snd] in Ev, Ee. subst ez.
    exists (Zpos mz), c. split; [reflexivity | split; [lia | split]].
    + unfold cexp. rewrite Ev, Zdigits2_shift by lia.
      replace (Zdigits2 (Zpos p) + (e - c) + c) with (Zdigits2 (Zpos p) + e) by lia.
      fold (cexp (Zpos p) e). fold c. lia.
    + rewrite Ev. replace c with (e - (e - c)) at 2 by lia. apply val_eq_shift. lia.
Qed.

Lemma binary_normalize_rounded (D e : Z) :
  0 <= D -> rounded_float (binary_normalize prec emax D e false).
Proof.
  intros HD. destruct D as [| p | p]; try lia.
  - apply rounded_float_zero.
  - cbn [binary_normalize].
    destruct (binary_round_aligned false p e) as (mz & ez & -> & H0 & Hc & _).
    apply binary_round_aux_rounded_float; lia.
Qed.

Lemma val_le_pos (m e m' e' : Z) : val_le m e m' e' -> 0 < m -> 0 < m'.
Proof.
  unfold val_le. intros H Hm.
  pose proof (pow2_pos (e - Z.min e e') ltac:(lia)).
  pose proof (pow2_pos (e' - Z.min e e') ltac:(lia)). nia.
Qed.

(** Normalizing keeps the order of the values. *)
Lemma binary_normalize_mono (D e D' e' : Z) :
  0 <= D -> 0 <= D' -> val_le D e D' e' ->
  SFleb (binary_normalize prec emax D e false) (binary_normalize prec emax D' e' false) = true.
Proof.
  intros HD HD' H.
  destruct D as [| p | p]; try lia.
  - apply SFleb_zero. apply rounded_float_nonneg. now apply binary_normalize_rounded.
  - pose proof (val_le_pos _ _ _ _ H ltac:(lia)) as HD0.
    destruct D' as [| p' | p']; try lia. cbn [binary_normalize].
    destruct (binary_round_aligned false p e) as (mz & ez & -> & H0 & Hc & Hv).
    destruct (binary_round_aligned false p' e') as (mz' & ez' & -> & H0' & Hc' & Hv').
    assert (Hle : val_le mz ez mz' ez').
    { apply (val_le_trans _ _ (Zpos p) e); [apply Hv |].
      apply (val_le_trans _ _ (Zpos p') e'); [exact H | apply Hv']. }
    assert (B1 : Z.min ez ez' <= ez) by lia. assert (B2 : Z.min ez ez' <= ez') by lia.
    pose proof (proj1 (val_le_base _ _ _ _ _ B1 B2) Hle) as Hb.
    apply (binary_round_aux_mono (Z.min ez ez')); try lia.
    unfold vle. lia.
Qed.

Lemma SFsub_finite (mx : positive) (ex : Z) (mc : positive) (ec : Z) :
  SFsub prec emax (S754_finite false mx ex) (S754_finite false mc ec)
  = binary_normalize prec emax (sub_int mx ex mc ec) (Z.min ex ec) false.
Proof.
  cbn [SFsub]. cbv zeta. cbn [cond_Zopp].
  destruct (shl_align_value mx ex (Z.min ex ec) ltac:(lia)) as [-> _].
  destruct (shl_align_value mc ec (Z.min ex ec) ltac:(lia)) as [-> _].
  reflexivity.
Qed.

Lemma SFleb_trans (x y z : spec_float) :
  nonneg x -> nonneg y -> nonneg z ->
  SFleb x y = true -> SFleb y z = true -> SFleb x z = true.
Proof.
  destruct x as [[] | [] | | [] m e]; destruct y as [[] | [] | | [] m' e'];
    destruct z as [[] | [] | | [] m'' e''];
    simpl; intros Hx Hy Hz H1 H2; try contradiction; try discriminate; try reflexivity.
  apply SFleb_finite_lex in H1. apply SFleb_finite_lex in H2. apply SFleb_finite_lex. lia.
Qed.

(** ** On machine floats *)

Lemma finite_pos_sf (x : float) :
  finite_pos x ->
  exists m e, Prim2SF x = S754_finite false m e /\ canonical_pair (Zpos m) e.
Proof.
  intros [H0 Hi]. destruct (finite_positive_cases x H0 Hi) as (m & e & E).
  exists m, e. split; [exact E |].
  pose proof (Prim2SF_valid x) as V. rewrite E in V. apply (valid_canonical _ _ _ V).
Qed.

Lemma finite_pos_nonneg (x : float) : finite_pos x -> nonneg (Prim2SF x).
Proof. intros H. destruct (finite_pos_sf x H) as (m & e & -> & _). exact I. Qed.

Lemma leb_val_le (x y : float) (mx : positive) (ex : Z) (my : positive) (ey : Z) :
  Prim2SF x = S754_finite false mx ex -> canonical_pair (Zpos mx) ex ->
  Prim2SF y = S754_finite false my ey -> canonical_pair (Zpos my) ey ->
  PrimFloat.leb x y = true -> val_le (Zpos mx) ex (Zpos my) ey.
Proof.
  intros Ex Cx Ey Cy H. rewrite leb_spec, Ex, Ey in H.
  apply lex_val_le; try assumption. now apply SFleb_finite_lex.
Qed.

(** A float between two positive finite floats is positive and finite. *)
Lemma between_finite_pos (lo hi y : float) :
  finite_pos lo -> finite_pos hi -> between lo hi y -> finite_pos y.
Proof.
  intros Hlo Hhi [H1 H2].
  destruct (finite_pos_sf lo Hlo) as (ml & el & El & _).
  destruct (finite_pos_sf hi Hhi) as (mh & eh & Eh & _).
  rewrite leb_spec, El in H1. rewrite leb_spec, Eh in H2.
  unfold finite_pos. rewrite !ltb_spec, sf_zero, sf_infinity.
  destruct (Prim2SF y) as [[] | [] | | [] m e]; try discriminate; split; reflexivity.
Qed.

Lemma leb_trans_finite (x y z : float) :
  finite_pos x -> finite_pos y -> finite_pos z ->
  PrimFloat.leb x y = true -> PrimFloat.leb y z = true -> PrimFloat.leb x z = true.
Proof.
  intros Hx Hy Hz. rewrite !leb_spec.
  apply SFleb_trans; now apply finite_pos_nonneg.
Qed.

(** [x - c <= x' - c] for [c <= x <= x'], with [x - c] zero or positive. *)
Lemma sub_mono (x x' c : float) :
  finite_pos x -> finite_pos x' -> finite_pos c ->
  PrimFloat.leb c x = true -> PrimFloat.leb x x' = true ->
  PrimFloat.leb (PrimFloat.sub x c) (PrimFloat.sub x' c) = true /\
  rounded_float (Prim2SF (PrimFloat.sub x c)) /\
  rounded_float (Prim2SF (PrimFloat.sub x' c)).
Proof.
  intros Hx Hx' Hc Hcx Hxx.
  destruct (finite_pos_sf x Hx) as (mx & ex & Ex & Cx).
  destruct (finite_pos_sf x' Hx') as (mx' & ex' & Ex' & Cx').
  destruct (finite_pos_sf c Hc) as (mc & ec & Ec & Cc).
  pose proof (leb_val_le c x _ _ _ _ Ec Cc Ex Cx Hcx) as V1.
  pose proof (leb_val_le x x' _ _ _ _ Ex Cx Ex' Cx' Hxx) as V2.
  pose proof (val_le_trans _ _ _ _ _ _ V1 V2) as V3.
  rewrite leb_spec, !sub_spec, Ex, Ex', Ec. change SF64sub with (SFsub prec emax).
  rewrite !SFsub_finite.
  set (B := Z.min ec (Z.min ex ex')).
  assert (Bc : B <= ec) by (unfold B; lia). assert (Bx : B <= ex) by (unfold B; lia).
  assert (Bx' : B <= ex') by (unfold B; lia).
  apply (proj1 (val_le_base B _ _ _ _ Bc Bx)) in V1.
  apply (proj1 (val_le_base B _ _ _ _ Bx Bx')) in V2.
  apply (proj1 (val_le_base B _ _ _ _ Bc Bx')) in V3.
  assert (S1 : sub_int mx ex mc ec * 2 ^ (Z.min ex ec - B)
               = Zpos mx * 2 ^ (ex - B) - Zpos mc * 2 ^ (ec - B)).
  { unfold sub_int. rewrite Z.mul_sub_distr_r, <- !Z.mul_assoc, <- !pow2_split
      by (unfold B; lia).
    do 2 f_equal; f_equal; lia. }
  assert (S2 : sub_int mx' ex' mc ec * 2 ^ (Z.min ex' ec - B)
               = Zpos mx' * 2 ^ (ex' - B) - Zpos mc * 2 ^ (ec - B)).
  { unfold sub_int. rewrite Z.mul_sub_distr_r, <- !Z.mul_assoc, <- !pow2_split
      by (unfold B; lia).
    do 2 f_equal; f_equal; lia. }
  pose proof (pow2_pos (Z.min ex ec - B) ltac:(unfold B; lia)) as P1.
  pose proof (pow2_pos (Z.min ex' ec - B) ltac:(unfold B; lia)) as P2.
  assert (D1 : 0 <= sub_int mx ex mc ec) by nia.
  assert (D2 : 0 <= sub_int mx' ex' mc ec) by nia.
  split; [| split; now apply binary_normalize_rounded].
  apply binary_normalize_mono; try assumption.
  assert (M1 : B <= Z.min ex ec) by lia. assert (M2 : B <= Z.min ex' ec) by lia.
  apply (proj2 (val_le_base B _ _ _ _ M1 M2)). lia.
Qed.

Lemma between_sub (lo hi c y : float) :
  finite_pos lo -> finite_pos hi -> finite_pos c ->
  PrimFloat.leb c lo = true -> between lo hi y ->
  between (PrimFloat.sub lo c) (PrimFloat.sub hi c) (PrimFloat.sub y c) /\
  rounded_float (Prim2SF (PrimFloat.sub y c)).
Proof.
  intros Hlo Hhi Hc Hcl Hb.
  pose proof (between_finite_pos lo hi y Hlo Hhi Hb) as Hy.
  destruct Hb as [H1 H2].
  pose proof (leb_trans_finite c lo y Hc Hlo Hy Hcl H1) as Hcy.
  destruct (sub_mono lo y c Hlo Hy Hc Hcl H1) as (L1 & _ & R).
  destruct (sub_mono y hi c Hy Hhi Hc Hcy H2) as (L2 & _ & _).
  split; [split; assumption | exact R].
Qed.

Lemma not_ltb_leb (a b : float) :
  nonneg (Prim2SF a) -> nonneg (Prim2SF b) ->
  PrimFloat.ltb a b = false -> PrimFloat.leb b a = true.
Proof. intros Ha Hb. rewrite ltb_spec, leb_spec. now apply SFleb_total. Qed.

Lemma between_weaken (lo hi lo' hi' y : float) :
  nonneg (Prim2SF lo') -> nonneg (Prim2SF lo) -> nonneg (Prim2SF y) ->
  nonneg (Prim2SF hi) -> nonneg (Prim2SF hi') ->
  PrimFloat.leb lo' lo = true -> PrimFloat.leb hi hi' = true ->
  between lo hi y -> between lo' hi' y.
Proof.
  intros N1 N2 N3 N4 N5 H1 H2 [B1 B2]. unfold between. rewrite !leb_spec in *.
  split; [exact (SFleb_trans _ _ _ N1 N2 N3 H1 B1) | exact (SFleb_trans _ _ _ N3 N4 N5 B2 H2)].
Qed.

(** * format_time on every time *)

(** ** The quotient by 60 is finite *)

Lemma exact_float_finite (r e : Z) :
  0 <= r < two_p -> -1074 <= e <= 971 -> finite_sf (exact_float r e).
Proof.
  intros Hr He. destruct (Z.eq_dec r 0) as [-> | Hn].
  - rewrite exact_float_zero. exact I.
  - destruct (canon_canonical r e ltac:(lia) ltac:(lia)) as (C & H0 & _).
    pose proof (cexp_small r e ltac:(lia) ltac:(lia)) as Hc.
    unfold exact_float, build_float.
    destruct (fst (canon r e)) as [| p | p] eqn:E; try lia.
    replace (snd (canon r e) <=? emax - prec) with true; [exact I |].
    symmetry. apply Z.leb_le. change (emax - prec) with 971. unfold canon. cbn [snd]. lia.
Qed.

Lemma rounded_below_finite (y : spec_float) (mc : positive) (ec : Z) :
  rounded_float y -> SFleb y (S754_finite false mc ec) = true -> finite_sf y.
Proof.
  intros (M & E & _ & ->) H. unfold build_float in *.
  destruct M as [| p | p]; try exact I.
  - destruct (E <=? emax - prec); [exact I | discriminate].
  - discriminate.
Qed.

Lemma rounded_float_sign (s : bool) (x : spec_float) :
  rounded_float x ->
  match x with
  | S754_zero s | S754_finite s _ _ => s = false
  | _ => True
  end.
Proof.
  intros R. pose proof (rounded_float_nonneg x R) as N.
  destruct x as [[] | [] | | [] m e]; try contradiction; try reflexivity; exact I.
Qed.

(** [fmod(s, 60)] is exact, and at most [s]. *)
Lemma sf_fmod_60_exact (mx : positive) (ex : Z) :
  valid_binary (S754_finite false mx ex) = true ->
  exists r e, sf_fmod (S754_finite false mx ex) (Prim2SF 60) = exact_float r e /\
              0 <= r < two_p /\ -1074 <= e <= 971 /\ val_le r e (Zpos mx) ex.
Proof.
  intros V. destruct (valid_canonical _ _ _ V) as [(Hm & He & _) Hb].
  rewrite sf_60. unfold sf_fmod, sf_normalize. cbv zeta. cbn [cond_Zopp].
  set (e := Z.min ex (-47)).
  set (X := Zpos mx * 2 ^ (ex - e)). set (Y := 8444249301319680 * 2 ^ (-47 - e)).
  assert (HY : 0 < Y).
  { pose proof (pow2_pos (-47 - e) ltac:(unfold e; lia)). unfold Y. lia. }
  assert (HX : 0 <= X).
  { pose proof (pow2_pos (ex - e) ltac:(unfold e; lia)). unfold X. lia. }
  pose proof (Z.mod_pos_bound X Y HY) as HR.
  assert (HRX : X mod Y <= X) by (apply Z.mod_le; lia).
  assert (T : two_p = 9007199254740992) by reflexivity.
  assert (Hr : X mod Y < two_p).
  { destruct (Z_le_gt_dec ex (-47)).
    - assert (X = Zpos mx).
      { unfold X, e. rewrite Z.min_l by lia. rewrite Z.sub_diag, Z.pow_0_r. lia. }
      lia.
    - assert (Y = 8444249301319680).
      { unfold Y, e. rewrite Z.min_r by lia. rewrite Z.sub_diag, Z.pow_0_r. lia. }
      lia. }
  exists (X mod Y), e. split; [| split; [lia | split; [unfold e; lia |]]].
  - apply normalize_exact_float; [lia | lia | unfold e; lia | apply val_eq_refl].
  - unfold val_le. replace (Z.min e ex) with e by (unfold e; lia).
    rewrite Z.sub_diag, Z.pow_0_r. fold X. lia.
Qed.

Lemma binary_normalize_self (mx : positive) (ex : Z) :
  valid_binary (S754_finite false mx ex) = true ->
  binary_normalize prec emax (Zpos mx) ex false = S754_finite false mx ex.
Proof.
  intros V. destruct (valid_canonical _ _ _ V) as [(Hm & He & _) Hb].
  rewrite (normalize_exact_float (Zpos mx) ex (Zpos mx) ex);
    [| lia | lia | lia | apply val_eq_refl].
  symmetry. apply finite_exact_float; [assumption | lia | lia | apply val_eq_refl].
Qed.

Lemma SFleb_refl_finite (m : positive) (e : Z) :
  SFleb (S754_finite false m e) (S754_finite false m e) = true.
Proof. apply SFleb_finite_lex. right. split; lia. Qed.

(** [s - r] for an exact [r] that is at most [s]: between zero and [s]. *)
Lemma SFsub_below (mx : positive) (ex r e : Z) :
  valid_binary (S754_finite false mx ex) = true ->
  0 <= r < two_p -> -1074 <= e <= 971 -> val_le r e (Zpos mx) ex ->
  rounded_float (SFsub prec emax (S754_finite false mx ex) (exact_float r e)) /\
  SFleb (SFsub prec emax (S754_finite false mx ex) (exact_float r e))
        (S754_finite false mx ex) = true.
Proof.
  intros V Hr He Hle.
  destruct (Z.eq_dec r 0) as [-> | Hn].
  - rewrite exact_float_zero. cbn [SFsub].
    split; [now apply valid_rounded_float | apply SFleb_refl_finite].
  - destruct (canon_canonical r e ltac:(lia) ltac:(lia)) as (C & H0 & Hv).
    pose proof (cexp_small r e ltac:(lia) ltac:(lia)) as Hc.
    unfold exact_float, build_float.
    destruct (fst (canon r e)) as [| pM | pM] eqn:EM; try lia.
    set (E := snd (canon r e)) in *.
    assert (HE : E <= 971) by (unfold E, canon; cbn [snd]; lia).
    assert (HE' : -1074 <= E) by (destruct C as (_ & C2 & _); exact C2).
    destruct (valid_canonical _ _ _ V) as [(Hm & Hex & _) Hb].
    change (emax - prec) with 971. rewrite (proj2 (Z.leb_le E 971) HE).
    rewrite SFsub_finite.
    assert (Hle' : val_le (Zpos pM) E (Zpos mx) ex).
    { apply (val_le_trans _ _ r e); [apply (proj1 Hv) | exact Hle]. }
    set (z := Z.min ex E).
    assert (Z1 : z <= ex) by (unfold z; lia). assert (Z2 : z <= E) by (unfold z; lia).
    pose proof (pow2_pos (ex - z) ltac:(lia)) as P1.
    pose proof (pow2_pos (E - z) ltac:(lia)) as P2.
    pose proof (proj1 (val_le_base z _ _ _ _ Z2 Z1) Hle') as Hz.
    assert (HD : 0 <= sub_int mx ex pM E <= Zpos mx * 2 ^ (ex - z)).
    { unfold sub_int. fold z. lia. }
    split.
    + apply binary_normalize_rounded. lia.
    + pose proof (binary_normalize_mono (sub_int mx ex pM E) z (Zpos mx) ex) as Hm'.
      rewrite (binary_normalize_self mx ex V) in Hm'. apply Hm'; [lia | lia |].
      apply (val_le_base z); [lia | lia |]. rewrite Z.sub_diag, Z.pow_0_r. lia.
Qed.

Lemma sf_max_div_60 :
  exists mc ec,
    SFdiv prec emax (S754_finite false 9007199254740991 971)
          (S754_finite false 8444249301319680 (-47))
    = S754_finite false mc ec.
Proof. vm_compute. eexists _, _. reflexivity. Qed.

(** The quotient by 60 of a finite float is finite. *)
Lemma SFdiv_60_finite (d : spec_float) :
  rounded_float d -> finite_sf d ->
  rounded_float (SFdiv prec emax d (Prim2SF 60)) /\
  finite_sf (SFdiv prec emax d (Prim2SF 60)).
Proof.
  intros R F. rewrite sf_60. pose proof (rounded_float_nonneg d R) as N.
  destruct d as [[] | [] | | [] md ed]; try contradiction.
  - cbn. split; [apply rounded_float_zero | exact I].
  - pose proof (rounded_float_finite md ed R) as (Hm & He & Hn).
    pose proof (rounded_float_valid _ R) as V.
    destruct (valid_canonical _ _ _ V) as [_ Hb].
    split; [apply SFdiv_rounded |].
    destruct sf_max_div_60 as (mc & ec & Ec).
    apply (rounded_below_finite _ mc ec); [apply SFdiv_rounded |]. rewrite <- Ec.
    apply SFdiv_mono_num. unfold val_le. rewrite Z.min_l by lia.
    rewrite Z.sub_diag, Z.pow_0_r.
    pose proof (pow2_pos (971 - ed) ltac:(lia)) as P.
    assert (T : two_p = 9007199254740992) by reflexivity. nia.
Qed.

(** ** The whole minutes are finite *)

Lemma SFadd_finite (mx : positive) (ex : Z) (my : positive) (ey : Z) :
  SFadd prec emax (S754_finite false mx ex) (S754_finite false my ey)
  = binary_normalize prec emax
      (Zpos mx * 2 ^ (ex - Z.min ex ey) + Zpos my * 2 ^ (ey - Z.min ex ey))
      (Z.min ex ey) false.
Proof.
  cbn [SFadd]. cbv zeta. cbn [cond_Zopp].
  destruct (shl_align_value mx ex (Z.min ex ey) ltac:(lia)) as [-> _].
  destruct (shl_align_value my ey (Z.min ex ey) ltac:(lia)) as [-> _].
  reflexivity.
Qed.

Lemma SFadd_one (k : Z) :
  0 <= k < half_p ->
  SFadd prec emax (exact_float k 0) (Prim2SF 1) = exact_float (k + 1) 0.
Proof.
  intros Hk. rewrite sf_one. pose proof two_p_half as T.
  destruct (Z.eq_dec k 0) as [-> | Hn].
  - now vm_compute.
  - destruct (canon_canonical k 0 ltac:(lia) ltac:(lia)) as (C & H0 & Hv).
    pose proof (cexp_small k 0 ltac:(lia) ltac:(lia)) as Hc.
    unfold exact_float at 1. unfold build_float.
    destruct (fst (canon k 0)) as [| pK | pK] eqn:EK; try lia.
    set (E := snd (canon k 0)) in *.
    assert (HE : E <= 0) by (unfold E, canon; cbn [snd]; lia).
    assert (HE' : -1074 <= E) by (destruct C as (_ & C2 & _); exact C2).
    change (emax - prec) with 971. rewrite (proj2 (Z.leb_le E 971)) by lia.
    rewrite SFadd_finite.
    set (z := Z.min E (-52)).
    assert (Z1 : z <= E) by (unfold z; lia). assert (Z2 : z <= -52) by (unfold z; lia).
    assert (Z3 : z <= 0) by lia.
    pose proof (proj1 (val_eq_base z _ _ _ _ Z1 Z3) Hv) as Hz.
    pose proof (pow2_pos (E - z) ltac:(lia)) as P1.
    pose proof (pow2_pos (0 - z) ltac:(lia)) as P2.
    assert (E52 : 4503599627370496 * 2 ^ (-52 - z) = 2 ^ (0 - z)).
    { change 4503599627370496 with (2 ^ 52). rewrite <- pow2_split by lia. f_equal. lia. }
    rewrite E52, Hz.
    apply normalize_exact_float; [nia | lia | lia |].
    apply (val_eq_base z); [lia | lia |].
    rewrite Z.sub_diag, Z.pow_0_r. lia.
Qed.

Lemma sf_half : Prim2SF 0.5 = S754_finite false 4503599627370496 (-53).
Proof. reflexivity. Qed.

(** The quotient snapped to an integer is finite when the quotient is. *)
Lemma floordiv_of_finite (q0 alt : float) :
  rounded_float (Prim2SF q0) -> finite_sf (Prim2SF q0) -> finite_sf (Prim2SF alt) ->
  finite_sf (Prim2SF (floordiv_of q0 alt)).
Proof.
  intros R F Fa. unfold floordiv_of. destruct (truthy q0); [| exact Fa]. cbv zeta.
  pose proof (rounded_float_nonneg _ R) as N.
  assert (Hc : (floor q0 = q0 /\ PrimFloat.ltb 0.5 (PrimFloat.sub q0 (floor q0)) = false) \/
               exists k, 0 <= k < half_p /\ Prim2SF (floor q0) = exact_float k 0).
  { pose proof half_p_pos as HP. pose proof two_p_half as T.
    destruct (Prim2SF q0) as [[] | [] | | [] mq eq] eqn:E; try contradiction.
    - right. exists 0. split; [lia |]. unfold floor, sf_of. rewrite E. cbn [sf_floor].
      now rewrite Prim2SF_SF2Prim.
    - pose proof (rounded_float_finite mq eq R) as (Hm & He & Hn).
      destruct (Z.leb_spec 0 eq) as [Hge | Hlt].
      + left. assert (Ef : floor q0 = q0).
        { unfold floor, sf_of. rewrite E. cbn [sf_floor].
          rewrite (proj2 (Z.leb_le 0 eq) Hge). rewrite <- E. apply SF2Prim_Prim2SF. }
        split; [exact Ef |]. rewrite Ef, ltb_spec, sub_spec, E.
        change SF64sub with (SFsub prec emax). rewrite SFsub_finite.
        unfold sub_int. rewrite Z.sub_diag. reflexivity.
      + right. exists (Zpos mq / 2 ^ (- eq)).
        pose proof (pow2_pos (- eq) ltac:(lia)) as P.
        assert (P2 : 2 <= 2 ^ (- eq)).
        { change 2 with (2 ^ 1) at 1. apply Z.pow_le_mono_r; lia. }
        assert (K0 : 0 <= Zpos mq / 2 ^ (- eq)) by (apply Z.div_pos; lia).
        assert (K1 : Zpos mq / 2 ^ (- eq) < half_p).
        { apply Z.div_lt_upper_bound; [lia | nia]. }
        split; [lia |]. unfold floor, sf_of. rewrite E. cbn [sf_floor].
        rewrite (proj2 (Z.leb_gt 0 eq) Hlt). cbn [cond_Zopp]. unfold sf_normalize.
        rewrite (normalize_exact_float _ 0 (Zpos mq / 2 ^ (- eq)) 0);
          [| lia | lia | lia | apply val_eq_refl].
        apply Prim2SF_SF2Prim. apply rounded_float_valid. apply exact_float_rounded; lia. }
  destruct Hc as [[Ef Hl] | (k & Hk & Ek)].
  - rewrite Hl, Ef. exact F.
  - pose proof two_p_half as T.
    destruct (PrimFloat.ltb 0.5 (PrimFloat.sub q0 (floor q0))).
    + rewrite add_spec, Ek. change SF64add with (SFadd prec emax).
      rewrite (SFadd_one k Hk). apply exact_float_finite; lia.
    + rewrite Ek. apply exact_float_finite; lia.
Qed.

(** ** format_time returns on every finite time *)

Lemma float_to_int_finite (q : float) :
  finite_sf (Prim2SF q) -> exists z, float_to_int q = Ok z.
Proof.
  unfold float_to_int, sf_of. destruct (Prim2SF q); intros F; try contradiction;
    eexists; reflexivity.
Qed.

Lemma format_time_positive (s : float) (mx : positive) (ex : Z) :
  Prim2SF s = S754_finite false mx ex -> exists t, format_time s = Ok t.
Proof.
  intros Es. pose proof (Prim2SF_valid s) as V. rewrite Es in V.
  destruct (sf_fmod_60_exact mx ex V) as (r & e & Em & Hr & He & Hle).
  assert (Emod : Prim2SF (fmod s 60) = exact_float r e).
  { unfold fmod, sf_of. rewrite Es, Em. apply Prim2SF_SF2Prim.
    apply rounded_float_valid. apply exact_float_rounded; lia. }
  assert (Nmod : nonneg (Prim2SF (fmod s 60))).
  { rewrite Emod. apply rounded_float_nonneg. apply exact_float_rounded; lia. }
  pose proof (ltb_zero_nonneg _ Nmod) as Lmod.
  destruct (SFsub_below mx ex r e V Hr He Hle) as [Rd Ld].
  assert (Ed : Prim2SF (PrimFloat.sub s (fmod s 60))
               = SFsub prec emax (S754_finite false mx ex) (exact_float r e)).
  { rewrite sub_spec, Es, Emod. reflexivity. }
  rewrite <- Ed in Rd, Ld.
  pose proof (rounded_below_finite _ _ _ Rd Ld) as Fd.
  destruct (SFdiv_60_finite _ Rd Fd) as [Rq Fq].
  assert (Eq : Prim2SF (PrimFloat.div (PrimFloat.sub s (fmod s 60)) 60)
               = SFdiv prec emax (Prim2SF (PrimFloat.sub s (fmod s 60))) (Prim2SF 60)).
  { rewrite div_spec. reflexivity. }
  rewrite <- Eq in Rq, Fq.
  assert (Fa : finite_sf (Prim2SF (copysign_zero (PrimFloat.div s 60)))).
  { unfold copysign_zero. destruct (get_sign (PrimFloat.div s 60)); exact I. }
  pose proof (floordiv_of_finite _ _ Rq Fq Fa) as Ff.
  destruct (float_to_int_finite _ Ff) as [z Ez].
  unfold format_time.
  rewrite (ltb_zero_nonneg s) by (rewrite Es; exact I).
  unfold float_floor_div. change (PrimFloat.eqb 60 0) with false. cbv iota.
  rewrite (float_div_mod_60 s Lmod). cbn [fst bind]. rewrite Ez. cbn [bind].
  rewrite (float_rem_60 s Lmod). cbn [bind]. eexists. reflexivity.
Qed.

Lemma below_infinity_cases (s : float) :
  PrimFloat.ltb s infinity = true ->
  PrimFloat.ltb s 0 = true \/ (exists sg, Prim2SF s = S754_zero sg) \/
  exists m e, Prim2SF s = S754_finite false m e.
Proof.
  rewrite !ltb_spec, sf_infinity, sf_zero.
  destruct (Prim2SF s) as [sg | [] | | [] m e]; intros H; try discriminate.
  - right. left. now exists sg.
  - now left.
  - now left.
  - right. right. now exists m, e.
Qed.

Lemma format_time_below_infinity (s : float) :
  PrimFloat.ltb s infinity = true -> exists t, format_time s = Ok t.
Proof.
  intros H. destruct (below_infinity_cases s H) as [H0 | [[sg Es] | (m & e & Es)]].
  - exists "00:00.00". unfold format_time. now rewrite H0.
  - rewrite <- (SF2Prim_Prim2SF s), Es. destruct sg; eexists; vm_compute; reflexivity.
  - exact (format_time_positive s m e Es).
Qed.

Lemma format_time_not_below_infinity (s : float) :
  PrimFloat.ltb s infinity = false ->
  format_time s = raise ValueError "cannot convert float NaN to integer".
Proof.
  intros H. rewrite ltb_spec, sf_infinity in H.
  rewrite <- (SF2Prim_Prim2SF s).
  destruct (Prim2SF s) as [sg | [] | | [] m e]; try discriminate; now vm_compute.
Qed.

(** X23: format_time returns a text for every time below the infinity,
    however large, and for the negative infinity; for a time that is not
    a number and for the infinity it raises [ValueError], "cannot convert
    float NaN to integer". *)
Theorem format_time_returns (s : float) :
  (PrimFloat.ltb s infinity = true -> exists t, format_time s = Ok t) /\
  (PrimFloat.ltb s infinity = false ->
   format_time s = raise ValueError "cannot convert float NaN to integer").
Proof.
  split; [apply format_time_below_infinity | apply format_time_not_below_infinity].
Qed.

Lemma format_time_returns_witness :
  (exists t, format_time 1.7976931348623157e308 = Ok t) /\
  format_time infinity = raise ValueError "cannot convert float NaN to integer".
Proof.
  split.
  - apply (proj1 (format_time_returns 1.7976931348623157e308)). reflexivity.
  - apply (proj2 (format_time_returns infinity)). reflexivity.
Defined.

(** ** The loop on finite times *)

Lemma finite_times_not_late (root : Element) (row : Row) :
  (forall t, row_time row = Some t -> PrimFloat.ltb t infinity = true) ->
  ~ late_reject root row.
Proof.
  intros Ht (name & surname & stroke & t & p & e & Hs & Hf).
  destruct (format_time_below_infinity t (Ht t (score_row_time _ _ _ _ _ _ _ Hs))) as [s Es].
  congruence.
Qed.

(** X10: when no time of the input that [float] reads is the infinity or
    not a number, and the loop ends, the scored results are the scored
    rows in the order of the input, every other row has its skipped
    entry, and the total is the sum, in order, of the points of the
    scored results. *)
Theorem main_accounting_finite_times (root : Element) (rows : list Row) (st : state) :
  main root rows = Ok st ->
  (forall row t, In row rows -> row_time row = Some t -> PrimFloat.ltb t infinity = true) ->
  processed_results st = scored_rows root rows /\
  (List.length (processed_results st) + List.length (failed_rows st) = List.length rows)%nat /\
  total_points st = sum_points (processed_results st).
Proof.
  intros H Ht.
  destruct (run_rows_accounting root rows _ _ _ H
              (fun row Hin => finite_times_not_late root row (fun t => Ht row t Hin)))
    as (I1 & I2 & I3).
  cbn in I1, I2, I3. split; [exact I1 | split; [exact I2 |]].
  unfold sum_points. rewrite I1. exact I3.
Qed.

Lemma main_accounting_finite_times_witness :
  (List.length
     [mkScored "Mario" "Rossi" (Some "50m Freestyle") "00:20.16" 1182.7419960672394%float]
   + List.length
       ["Row 3: Invalid data - could not convert string to float: '1:02.5' -> {'name': 'Anna', 'surname': 'Bianchi', 'course': 'SCM', 'gender': 'Men', 'stroke': '50m Freestyle', 'time': '1:02.5'}"]
   = List.length [good_row; unparsed_row])%nat.
Proof.
  refine (proj1 (proj2 (main_accounting_finite_times sample_table [good_row; unparsed_row]
                          (mkState 1182.7419960672394%float _ _) _ _))).
  - vm_compute. reflexivity.
  - intros row t [<- | [<- | []]] Hr.
    + vm_compute in Hr. injection Hr as <-. reflexivity.
    + vm_compute in Hr. discriminate.
Defined.

(** * generate_pdf_report *)

(** ** What is drawn, in which order *)

Lemma texts_of_app (a b : list call) : texts_of (a ++ b) = (texts_of a ++ texts_of b)%list.
Proof. unfold texts_of. apply flat_map_app. Qed.

Lemma next_line_texts (height y step : float) (font : string) (size : Z) :
  texts_of (fst (next_line height y step font size)) = [].
Proof.
  unfold next_line. cbv zeta.
  destruct (PrimFloat.ltb (PrimFloat.sub y step) (PrimFloat.mul 1.5 inch)); reflexivity.
Qed.

Lemma draw_results_texts (height : float) (results : list Scored) :
  forall y, texts_of (fst (draw_results height y results)) = flat_map result_texts results.
Proof.
  induction results as [| res rest IH]; intros y; [reflexivity |].
  cbn [draw_results flat_map].
  pose proof (next_line_texts height y (PrimFloat.mul 0.25 inch) "DejaVuSans" 10) as Hn.
  destruct (next_line height y (PrimFloat.mul 0.25 inch) "DejaVuSans" 10) as [brk y1].
  specialize (IH y1). destruct (draw_results height y1 rest) as [more y2].
  cbn [fst] in *. rewrite !texts_of_app, Hn, IH. reflexivity.
Qed.

Lemma draw_failed_texts (height : float) (failed : list string) :
  forall y, texts_of (fst (draw_failed height y failed)) = map Some failed.
Proof.
  induction failed as [| entry rest IH]; intros y; [reflexivity |].
  cbn [draw_failed map].
  pose proof (next_line_texts height y (PrimFloat.mul 0.15 inch) "Courier" 8) as Hn.
  destruct (next_line height y (PrimFloat.mul 0.15 inch) "Courier" 8) as [brk y1].
  specialize (IH y1). destruct (draw_failed height y1 rest) as [more y2].
  cbn [fst] in *.
  change (DrawString (PrimFloat.mul 0.75 inch) y (Some entry) :: brk ++ more)%list
    with ([DrawString (PrimFloat.mul 0.75 inch) y (Some entry)] ++ brk ++ more)%list.
  rewrite !texts_of_app, Hn, IH. reflexivity.
Qed.

Lemma draw_skipped_texts (height y : float) (failed : list string) :
  texts_of (fst (draw_skipped height y failed)) = skipped_texts failed.
Proof.
  destruct failed as [| entry rest]; [reflexivity |].
  unfold draw_skipped, skipped_texts. cbv zeta.
  pose proof (draw_failed_texts height (entry :: rest)
                (PrimFloat.sub (PrimFloat.sub y (PrimFloat.mul 0.3 inch))
                               (PrimFloat.mul 0.3 inch))) as Hf.
  destruct (draw_failed height _ (entry :: rest)) as [entries y3].
  cbn [fst] in *. rewrite texts_of_app, Hf. reflexivity.
Qed.

Lemma draw_total_texts (width height y total : float) :
  texts_of (draw_total width height y total)
  = [Some "Punteggio Totale:"; Some (format_2f total)].
Proof.
  unfold draw_total. cbv zeta.
  destruct (PrimFloat.ltb (PrimFloat.sub y (PrimFloat.mul 0.5 inch)) (PrimFloat.mul 1.5 inch));
    reflexivity.
Qed.

Lemma draw_header_texts (filename : string) (width height : float) (today : string)
      (logo_ok : bool) :
  texts_of (fst (draw_header filename width height today logo_ok)) = header_texts today.
Proof. destruct logo_ok; reflexivity. Qed.


(** X18: page breaks drop and reorder nothing: whatever the number of
    rows, the report draws the header, then the four cells of every scored
    result in order (name and surname, stroke, time, points with two
    decimals), then, when there are skipped rows, their heading and each of
    them in order, then the total with two decimals. *)
Theorem generate_pdf_report_texts (filename : string) (results : list Scored)
        (total : float) (failed : list string) (today : string) (logo_ok : bool) :
  texts_of (generate_pdf_report filename results total failed today logo_ok)
  = (header_texts today ++ flat_map result_texts results ++ skipped_texts failed ++
     [Some "Punteggio Totale:"; Some (format_2f total)])%list.
Proof.
  unfold generate_pdf_report, letter.
  pose proof (draw_header_texts filename (PrimFloat.mul 8.5 inch) (PrimFloat.mul 11 inch)
                today logo_ok) as Hh.
  destruct (draw_header filename _ _ today logo_ok) as [header y0].
  pose proof (draw_results_texts (PrimFloat.mul 11 inch) results y0) as Hr.
  destruct (draw_results _ y0 results) as [table y1].
  pose proof (draw_skipped_texts (PrimFloat.mul 11 inch) y1 failed) as Hs.
  destruct (draw_skipped _ y1 failed) as [skipped y2].
  cbn [fst] in *. now rewrite !texts_of_app, Hh, Hr, Hs, draw_total_texts.
Qed.



(** ** Where it is drawn *)

Ltac solve_on_page :=
  unfold on_page; intros h Hin; cbn [heights_of In] in Hin;
  repeat (destruct Hin as [<- | Hin]; [first [assumption | split; reflexivity] |]);
  destruct Hin.

Ltac all_on_page :=
  repeat (apply Forall_cons; [solve_on_page |]); try apply Forall_nil.

Lemma page_facts :
  finite_pos page_top /\ finite_pos page_break /\ finite_pos skipped_low /\
  PrimFloat.leb (PrimFloat.mul 0.75 inch) skipped_low = true /\
  PrimFloat.leb skipped_low page_break = true /\
  PrimFloat.leb page_break page_top = true.
Proof. vm_compute. repeat split. Qed.

Lemma nonneg_rounded (x : float) : rounded_float (Prim2SF x) -> nonneg (Prim2SF x).
Proof. apply rounded_float_nonneg. Qed.

(** A step down from a height on the page: the new height is between the
    break height and the top of a page, and the calls draw nothing. *)
Lemma next_line_between (y step lo : float) (font : string) (size : Z) :
  finite_pos lo -> finite_pos step -> PrimFloat.leb step lo = true ->
  PrimFloat.leb (PrimFloat.sub page_top step) page_top = true ->
  nonneg (Prim2SF (PrimFloat.sub page_top step)) ->
  between lo page_top y ->
  Forall on_page (fst (next_line (snd letter) y step font size)) /\
  between page_break page_top (snd (next_line (snd letter) y step font size)).
Proof.
  intros Hlo Hstep Hsl Htop Ntop Hb.
  destruct page_facts as (Ft & Fb & _ & _ & _ & Hbt).
  destruct (between_sub lo page_top step y Hlo Ft Hstep Hsl Hb) as [[_ H2] R].
  unfold next_line. cbv zeta.
  destruct (PrimFloat.ltb (PrimFloat.sub y step) (PrimFloat.mul 1.5 inch)) eqn:E;
    cbn [fst snd].
  - split.
    + all_on_page.
    + split; [exact Hbt | reflexivity].
  - split; [constructor |]. split.
    + apply not_ltb_leb; [now apply nonneg_rounded | now vm_compute | exact E].
    + rewrite leb_spec in *.
      apply (SFleb_trans _ _ _ (nonneg_rounded _ R) Ntop (finite_pos_nonneg _ Ft) H2 Htop).
Qed.

Lemma on_page_between (lo y : float) :
  finite_pos lo -> PrimFloat.leb (PrimFloat.mul 0.75 inch) lo = true ->
  between lo page_top y ->
  between (PrimFloat.mul 0.75 inch) (PrimFloat.sub (snd letter) (PrimFloat.mul 1 inch)) y.
Proof.
  intros Hlo Hl Hb. destruct page_facts as (Ft & _).
  pose proof (between_finite_pos lo page_top y Hlo Ft Hb) as Hy.
  apply (between_weaken lo page_top); try assumption;
    try (now apply finite_pos_nonneg); try (now vm_compute).
Qed.

Lemma draw_results_on_page (results : list Scored) :
  forall y, between page_break page_top y ->
            Forall on_page (fst (draw_results (snd letter) y results)) /\
            between page_break page_top (snd (draw_results (snd letter) y results)).
Proof.
  destruct page_facts as (Ft & Fb & Fs & H1 & H2 & H3).
  induction results as [| res rest IH]; intros y Hb; [split; [constructor | exact Hb] |].
  cbn [draw_results].
  destruct (next_line_between y (PrimFloat.mul 0.25 inch) page_break "DejaVuSans" 10 Fb
              ltac:(split; reflexivity) eq_refl eq_refl ltac:(now vm_compute) Hb) as [Hn Hy1].
  destruct (next_line (snd letter) y (PrimFloat.mul 0.25 inch) "DejaVuSans" 10) as [brk y1].
  cbn [fst snd] in Hn, Hy1. destruct (IH y1 Hy1) as [Hm Hy2].
  destruct (draw_results (snd letter) y1 rest) as [more y2]. cbn [fst snd] in *.
  split; [| exact Hy2].
  assert (Hp : between (PrimFloat.mul 0.75 inch)
                       (PrimFloat.sub (snd letter) (PrimFloat.mul 1 inch)) y).
  { apply (on_page_between page_break); [exact Fb | reflexivity | exact Hb]. }
  apply Forall_app. split; [| apply Forall_app; split; assumption].
  unfold draw_result. all_on_page.
Qed.

Lemma draw_failed_on_page (failed : list string) :
  forall y, between skipped_low page_top y ->
            Forall on_page (fst (draw_failed (snd letter) y failed)) /\
            (failed <> [] ->
             between page_break page_top (snd (draw_failed (snd letter) y failed))).
Proof.
  destruct page_facts as (Ft & Fb & Fs & H1 & H2 & H3).
  induction failed as [| entry rest IH]; intros y Hb; [split; [constructor | congruence] |].
  cbn [draw_failed].
  destruct (next_line_between y (PrimFloat.mul 0.15 inch) skipped_low "Courier" 8 Fs
              ltac:(split; reflexivity) eq_refl eq_refl ltac:(now vm_compute) Hb) as [Hn Hy1].
  destruct (next_line (snd letter) y (PrimFloat.mul 0.15 inch) "Courier" 8) as [brk y1].
  cbn [fst snd] in Hn, Hy1.
  assert (Hy1' : between skipped_low page_top y1).
  { pose proof (between_finite_pos _ _ _ Fb Ft Hy1) as Fy.
    apply (between_weaken page_break page_top); try assumption;
      try (now apply finite_pos_nonneg); try reflexivity. }
  destruct (IH y1 Hy1') as [Hm Hy2].
  assert (Hend : between page_break page_top (snd (draw_failed (snd letter) y1 rest))).
  { destruct rest as [| e2 rest']; [exact Hy1 | apply Hy2; discriminate]. }
  destruct (draw_failed (snd letter) y1 rest) as [more y2]. cbn [fst snd] in *.
  split; [| intros _; exact Hend].
  assert (Hp : between (PrimFloat.mul 0.75 inch)
                       (PrimFloat.sub (snd letter) (PrimFloat.mul 1 inch)) y)
    by (apply (on_page_between skipped_low); assumption).
  apply Forall_cons; [solve_on_page | apply Forall_app; split; assumption].
Qed.

Lemma draw_skipped_on_page (failed : list string) (y : float) :
  between page_break page_top y ->
  Forall on_page (fst (draw_skipped (snd letter) y failed)) /\
  between page_break page_top (snd (draw_skipped (snd letter) y failed)).
Proof.
  intros Hb. destruct page_facts as (Ft & Fb & Fs & H1 & H2 & H3).
  assert (Fm : finite_pos (PrimFloat.mul 0.75 inch)) by (split; reflexivity).
  destruct failed as [| entry rest]; [split; [constructor | exact Hb] |].
  unfold draw_skipped. cbv zeta.
  destruct (between_sub page_break page_top (PrimFloat.mul 0.3 inch) y Fb Ft
              ltac:(split; reflexivity) eq_refl Hb) as [Hy1 R1].
  set (y1 := PrimFloat.sub y (PrimFloat.mul 0.3 inch)) in *.
  assert (F1 : finite_pos (PrimFloat.sub page_break (PrimFloat.mul 0.3 inch)))
    by (split; reflexivity).
  assert (F2 : finite_pos (PrimFloat.sub page_top (PrimFloat.mul 0.3 inch)))
    by (split; reflexivity).
  destruct (between_sub _ _ (PrimFloat.mul 0.3 inch) y1 F1 F2
              ltac:(split; reflexivity) eq_refl Hy1) as [Hy2 R2].
  set (y2 := PrimFloat.sub y1 (PrimFloat.mul 0.3 inch)) in *.
  assert (Hy2' : between skipped_low page_top y2).
  { destruct Hy2 as [L U]. split; [exact L |].
    assert (F5 : finite_pos (PrimFloat.sub (PrimFloat.sub page_top (PrimFloat.mul 0.3 inch))
                                           (PrimFloat.mul 0.3 inch)))
      by (split; reflexivity).
    rewrite leb_spec in *.
    apply (SFleb_trans _ _ _ (nonneg_rounded _ R2) (finite_pos_nonneg _ F5)
             (finite_pos_nonneg _ Ft) U). now vm_compute. }
  destruct (draw_failed_on_page (entry :: rest) y2 Hy2') as [Hf Hend].
  specialize (Hend ltac:(discriminate)).
  destruct (draw_failed (snd letter) y2 (entry :: rest)) as [entries y3].
  cbn [fst snd] in *. split; [| exact Hend].
  assert (Hp : between (PrimFloat.mul 0.75 inch)
                       (PrimFloat.sub (snd letter) (PrimFloat.mul 1 inch)) y1).
  { pose proof (between_finite_pos _ _ _ F1 F2 Hy1) as Fy.
    apply (between_weaken _ _ _ _ _ (finite_pos_nonneg _ Fm) (finite_pos_nonneg _ F1)
             (finite_pos_nonneg _ Fy) (finite_pos_nonneg _ F2) (finite_pos_nonneg _ Ft)
             eq_refl eq_refl Hy1). }
  apply Forall_app. split; [all_on_page | exact Hf].
Qed.

Lemma draw_total_on_page (y total : float) :
  between page_break page_top y ->
  Forall on_page (draw_total (fst letter) (snd letter) y total).
Proof.
  intros Hb. destruct page_facts as (Ft & Fb & Fs & H1 & H2 & H3).
  assert (Fm : finite_pos (PrimFloat.mul 0.75 inch)) by (split; reflexivity).
  destruct (between_sub page_break page_top (PrimFloat.mul 0.5 inch) y Fb Ft
              ltac:(split; reflexivity) eq_refl Hb) as [Hy0 R0].
  unfold draw_total. cbv zeta.
  set (y0 := PrimFloat.sub y (PrimFloat.mul 0.5 inch)) in *.
  set (top := PrimFloat.sub page_top (PrimFloat.mul 0.5 inch)) in *.
  assert (Ftop : finite_pos top) by (split; reflexivity).
  assert (Hy1 : exists brk y1,
             (if PrimFloat.ltb y0 (PrimFloat.mul 1.5 inch)
              then ([ShowPage], PrimFloat.sub (snd letter) (PrimFloat.mul 1.5 inch))
              else ([], y0)) = (brk, y1) /\
             Forall on_page brk /\ between page_break top y1).
  { destruct (PrimFloat.ltb y0 (PrimFloat.mul 1.5 inch)) eqn:E.
    - eexists _, _. split; [reflexivity |]. split.
      + all_on_page.
      + split; reflexivity.
    - eexists _, _. split; [reflexivity |]. split; [constructor |].
      split; [| exact (proj2 Hy0)].
      apply not_ltb_leb; [now apply nonneg_rounded | now vm_compute | exact E]. }
  destruct Hy1 as (brk & y1 & -> & Hbrk & Hy1).
  destruct (between_sub page_break top (PrimFloat.mul 0.3 inch) y1 Fb Ftop
              ltac:(split; reflexivity) eq_refl Hy1) as [Hy2 R2].
  set (y2 := PrimFloat.sub y1 (PrimFloat.mul 0.3 inch)) in *.
  assert (F1 : finite_pos (PrimFloat.sub page_break (PrimFloat.mul 0.3 inch)))
    by (split; reflexivity).
  assert (F2 : finite_pos (PrimFloat.sub top (PrimFloat.mul 0.3 inch)))
    by (split; reflexivity).
  destruct (between_sub _ _ (PrimFloat.mul 0.05 inch) y2 F1 F2
              ltac:(split; reflexivity) eq_refl Hy2) as [Hy3 R3].
  set (y3 := PrimFloat.sub y2 (PrimFloat.mul 0.05 inch)) in *.
  assert (F3 : finite_pos (PrimFloat.sub (PrimFloat.sub page_break (PrimFloat.mul 0.3 inch))
                                         (PrimFloat.mul 0.05 inch)))
    by (split; reflexivity).
  assert (F4 : finite_pos (PrimFloat.sub (PrimFloat.sub top (PrimFloat.mul 0.3 inch))
                                         (PrimFloat.mul 0.05 inch)))
    by (split; reflexivity).
  assert (P1 : between (PrimFloat.mul 0.75 inch)
                       (PrimFloat.sub (snd letter) (PrimFloat.mul 1 inch)) y1).
  { pose proof (between_finite_pos _ _ _ Fb Ftop Hy1) as Fy.
    apply (between_weaken _ _ _ _ _ (finite_pos_nonneg _ Fm) (finite_pos_nonneg _ Fb)
             (finite_pos_nonneg _ Fy) (finite_pos_nonneg _ Ftop) (finite_pos_nonneg _ Ft)
             eq_refl eq_refl Hy1). }
  assert (P2 : between (PrimFloat.mul 0.75 inch)
                       (PrimFloat.sub (snd letter) (PrimFloat.mul 1 inch)) y2).
  { pose proof (between_finite_pos _ _ _ F1 F2 Hy2) as Fy.
    apply (between_weaken _ _ _ _ _ (finite_pos_nonneg _ Fm) (finite_pos_nonneg _ F1)
             (finite_pos_nonneg _ Fy) (finite_pos_nonneg _ F2) (finite_pos_nonneg _ Ft)
             eq_refl eq_refl Hy2). }
  assert (P3 : between (PrimFloat.mul 0.75 inch)
                       (PrimFloat.sub (snd letter) (PrimFloat.mul 1 inch)) y3).
  { pose proof (between_finite_pos _ _ _ F3 F4 Hy3) as Fy.
    apply (between_weaken _ _ _ _ _ (finite_pos_nonneg _ Fm) (finite_pos_nonneg _ F3)
             (finite_pos_nonneg _ Fy) (finite_pos_nonneg _ F4) (finite_pos_nonneg _ Ft)
             eq_refl eq_refl Hy3). }
  apply Forall_app. split; [exact Hbrk |]. all_on_page.
Qed.

Lemma draw_header_on_page (filename today : string) (logo_ok : bool) :
  Forall on_page (fst (draw_header filename (fst letter) (snd letter) today logo_ok)) /\
  between page_break page_top
          (snd (draw_header filename (fst letter) (snd letter) today logo_ok)).
Proof.
  split; [| split; reflexivity].
  unfold draw_header. cbv zeta. cbn [fst].
  apply Forall_app. split; [| apply Forall_app; split].
  - all_on_page.
  - destruct logo_ok; all_on_page.
  - all_on_page.
Qed.

(** X19: nothing is drawn off the page: whatever the number of scored
    results and skipped rows, every text and every rule of the report is
    drawn at a height between 0.75 inch from the bottom of the letter page
    and 1 inch from its top. *)
Theorem generate_pdf_report_on_page (filename : string) (results : list Scored)
        (total : float) (failed : list string) (today : string) (logo_ok : bool) :
  Forall on_page (generate_pdf_report filename results total failed today logo_ok).
Proof.
  unfold generate_pdf_report.
  change letter with (fst letter, snd letter). cbv iota. cbn [fst snd].
  destruct (draw_header_on_page filename today logo_ok) as [Hh Hy0].
  destruct (draw_header filename (fst letter) (snd letter) today logo_ok) as [header y0].
  cbn [fst snd] in Hh, Hy0.
  destruct (draw_results_on_page results y0 Hy0) as [Hr Hy1].
  destruct (draw_results (snd letter) y0 results) as [table y1]. cbn [fst snd] in Hr, Hy1.
  destruct (draw_skipped_on_page failed y1 Hy1) as [Hs Hy2].
  destruct (draw_skipped (snd letter) y1 failed) as [skipped y2]. cbn [fst snd] in Hs, Hy2.
  repeat (apply Forall_app; split; try assumption).
  now apply draw_total_on_page.
Qed.

(** ** How many pages *)

Lemma page_breaks_app (a b : list call) : page_breaks (a ++ b) = page_breaks a + page_breaks b.
Proof. unfold page_breaks. rewrite filter_app, length_app. lia. Qed.

Lemma next_line_breaks (y step : float) (font : string) (size : Z) :
  page_breaks (fst (next_line (snd letter) y step font size))
  = if PrimFloat.ltb (PrimFloat.sub y step) (PrimFloat.mul 1.5 inch) then 1 else 0.
Proof.
  unfold next_line. cbv zeta.
  destruct (PrimFloat.ltb (PrimFloat.sub y step) (PrimFloat.mul 1.5 inch)); reflexivity.
Qed.

(** The loop over the results breaks pages as [walk] does. *)
Lemma draw_results_walk (results : list Scored) :
  forall y,
    (page_breaks (fst (draw_results (snd letter) y results)),
     snd (draw_results (snd letter) y results))
    = walk y (List.length results).
Proof.
  induction results as [| res rest IH]; intros y; [reflexivity |].
  cbn [draw_results List.length walk].
  pose proof (next_line_breaks y (PrimFloat.mul 0.25 inch) "DejaVuSans" 10) as Hn.
  destruct (next_line (snd letter) y (PrimFloat.mul 0.25 inch) "DejaVuSans" 10) as [brk y1].
  cbn [fst snd] in *. specialize (IH y1).
  destruct (draw_results (snd letter) y1 rest) as [more y2]. cbn [fst snd] in *.
  rewrite <- IH, !page_breaks_app, Hn. reflexivity.
Qed.

Lemma walk_add (n m : nat) :
  forall y, walk y (n + m)
            = (fst (walk y n) + fst (walk (snd (walk y n)) m), snd (walk (snd (walk y n)) m)).
Proof.
  induction n as [| n IH]; intros y.
  - cbn. now destruct (walk y m).
  - cbn [Nat.add walk]. rewrite IH.
    destruct (walk _ n) as [b1 y1]. cbn [fst snd].
    destruct (walk y1 m) as [b2 y2]. cbn [fst snd]. f_equal. lia.
Qed.

Lemma walk_first_page : walk first_row 28 = (1, page_top).
Proof. now vm_compute. Qed.

Lemma walk_next_page : walk page_top 35 = (1, page_top).
Proof. now vm_compute. Qed.

Lemma walk_pages (a : nat) : walk page_top (35 * a) = (Z.of_nat a, page_top).
Proof.
  induction a as [| a IH]; [reflexivity |].
  replace (35 * S a)%nat with (35 + 35 * a)%nat by lia.
  rewrite walk_add, walk_next_page. cbn [fst snd]. rewrite IH. cbn [fst snd].
  f_equal. lia.
Qed.

Lemma first_page_checked (r : Z) : 0 <= r < 28 -> first_page_check r = true.
Proof. apply (below_forallb first_page_check 28). now vm_compute. Qed.

Lemma next_page_checked (r : Z) : 0 <= r < 35 -> next_page_check r = true.
Proof. apply (below_forallb next_page_check 35). now vm_compute. Qed.

Lemma walk_report (n : nat) :
  fst (walk first_row n) + total_breaks (snd (walk first_row n))
  = report_breaks (Z.of_nat n).
Proof.
  unfold report_breaks.
  destruct (Z_lt_le_dec (Z.of_nat n) 28) as [Hlt | Hge].
  - pose proof (first_page_checked (Z.of_nat n) ltac:(lia)) as Hc.
    unfold first_page_check in Hc. rewrite Nat2Z.id in Hc.
    destruct (walk first_row n) as [b y]. cbn [fst snd].
    apply andb_true_iff in Hc as [Hb Hy]. apply Z.eqb_eq in Hb, Hy. rewrite Hb, Hy.
    rewrite Z.div_small, Z.mod_small by lia.
    destruct (Z.ltb_spec 25 (Z.of_nat n)); destruct (Z.ltb_spec 32 (Z.of_nat n + 7)); lia.
  - set (k := Z.of_nat n - 28).
    assert (En : n = (28 + (35 * Z.to_nat (k / 35) + Z.to_nat (k mod 35)))%nat).
    { pose proof (Z.div_mod k 35 ltac:(lia)). pose proof (Z.mod_pos_bound k 35 ltac:(lia)).
      assert (0 <= k / 35) by (apply Z.div_pos; unfold k; lia). unfold k in *. lia. }
    pose proof (Z.mod_pos_bound k 35 ltac:(lia)) as Hr.
    assert (Hq : 0 <= k / 35) by (apply Z.div_pos; unfold k; lia).
    rewrite En at 1 2. rewrite walk_add, walk_first_page. cbn [fst snd].
    rewrite walk_add, walk_pages. cbn [fst snd].
    pose proof (next_page_checked (k mod 35) Hr) as Hc. unfold next_page_check in Hc.
    destruct (walk page_top (Z.to_nat (k mod 35))) as [b y]. cbn [fst snd].
    apply andb_true_iff in Hc as [Hb Hy]. apply Z.eqb_eq in Hb, Hy. rewrite Hb, Hy.
    replace (Z.of_nat n + 7) with (k mod 35 + (k / 35 + 1) * 35)
      by (pose proof (Z.div_mod k 35 ltac:(lia)); unfold k in *; lia).
    rewrite Z.div_add, Z.mod_add by lia.
    rewrite (Z.div_small (k mod 35) 35), (Z.mod_small (k mod 35) 35) by lia.
    rewrite Z2Nat.id by lia. lia.
Qed.

(** X21: 28 results fit on the first page and 35 on every page after it,
    and the final score starts one more page when at most two of these
    lines are left on the page: a report of [n] results and no skipped row
    makes [(n + 7) / 35] page breaks, and one more when [(n + 7) mod 35]
    is 33 or 34. *)
Theorem generate_pdf_report_pages (filename : string) (results : list Scored)
        (total : float) (today : string) (logo_ok : bool) :
  page_breaks (generate_pdf_report filename results total [] today logo_ok)
  = report_breaks (Z.of_nat (List.length results)).
Proof.
  rewrite <- walk_report. unfold generate_pdf_report.
  change letter with (fst letter, snd letter). cbv iota. cbn [fst snd].
  assert (Hh : page_breaks (fst (draw_header filename (fst letter) (snd letter) today logo_ok))
               = 0 /\
               snd (draw_header filename (fst letter) (snd letter) today logo_ok) = first_row).
  { destruct logo_ok; split; reflexivity. }
  destruct Hh as [Hh0 Hh1].
  destruct (draw_header filename (fst letter) (snd letter) today logo_ok) as [header y0].
  cbn [fst snd] in Hh0, Hh1. subst y0.
  pose proof (draw_results_walk results first_row) as Hw.
  destruct (draw_results (snd letter) first_row results) as [table y1].
  cbn [fst snd] in Hw. rewrite <- Hw. cbn [fst snd draw_skipped].
  rewrite !page_breaks_app, Hh0.
  change (page_breaks []) with 0.
  unfold draw_total, total_breaks. cbv zeta.
  destruct (PrimFloat.ltb (PrimFloat.sub y1 (PrimFloat.mul 0.5 inch)) (PrimFloat.mul 1.5 inch));
    cbn [app]; unfold page_breaks; cbn [filter List.length]; lia.
Qed.

(** ** A stroke with an apostrophe *)

Lemma append_nil_r (s : string) : s ++ EmptyString = s.
Proof. induction s as [| c s IH]; [reflexivity | cbn; now rewrite IH]. Qed.

Lemma append_assoc (a b c : string) : (a ++ b) ++ c = a ++ (b ++ c).
Proof. induction a as [| x a IH]; [reflexivity | cbn; now rewrite IH]. Qed.

Lemma plain_char_facts (c : ascii) :
  plain_char c = true ->
  name_char c = true /\ single_op c = false /\ py_isspace c = false /\
  Ascii.eqb c sq = false /\ Ascii.eqb c dq = false /\ Ascii.eqb c "{" = false /\
  Ascii.eqb ":" c = false /\ forall r, long_op c r = None.
Proof.
  destruct c as [[] [] [] [] [] [] [] []]; intros H; vm_compute in H; try discriminate H;
    repeat split; reflexivity.
Qed.

(** The tokens up to the ["]"] that closes a predicate are read as names. *)
Lemma read_words (ts : list token) (r : list token) :
  forallb word_token ts = true ->
  forall sig vals,
    read_predicate (ts ++ Tok "]" "" :: r) sig vals
    = Ok (Some (sig ++ dashes (List.length (names_of ts)), (vals ++ names_of ts)%list), r).
Proof.
  induction ts as [| [ttype tag] ts IH]; intros H sig vals.
  - cbn. now rewrite append_nil_r, app_nil_r.
  - cbn [forallb word_token] in H. apply andb_true_iff in H as [Ht Hts].
    apply andb_true_iff in Ht as [He Hc]. apply negb_true_iff in Hc.
    destruct ttype; [| discriminate]. clear He.
    cbn [app read_predicate check_token].
    destruct tag as [| c tag].
    + cbn. apply (IH Hts).
    + rewrite Hc, andb_false_r. cbn [bind String.eqb is_empty andb is_quoted].
      rewrite (IH Hts). cbn [names_of flat_map is_empty app List.length].
      fold (names_of ts). cbn [List.length dashes].
      rewrite append_assoc, <- app_assoc. reflexivity.
Qed.

Lemma span_name_tail (b : string) :
  plain_text b = true ->
  exists nm r, span_name (b ++ String sq "]") = (nm, r) /\
               (String.length nm <= S (String.length b))%nat /\
               contains_char ":" nm = false.
Proof.
  induction b as [| c b IH]; intros H.
  - exists (one sq), "]". repeat split. cbn. lia.
  - cbn [plain_text] in H. apply andb_true_iff in H as [Hc Hb].
    destruct (IH Hb) as (nm & r & E & L & C).
    cbn [append span_name]. apply orb_true_iff in Hc as [Hc | Hc].
    + destruct (plain_char_facts c Hc) as (N & _ & _ & _ & _ & _ & Q & _).
      rewrite N, E. exists (String c nm), r. repeat split.
      * cbn. lia.
      * cbn [contains_char]. now rewrite Q, C.
    + apply Ascii.eqb_eq in Hc. subst c.
      eexists _, _. repeat split. cbn. lia.
Qed.

Lemma lstrip_tail (b : string) :
  plain_text b = true ->
  (2 <= String.length (lstrip (b ++ String sq "]")) <= String.length b + 2)%nat.
Proof.
  induction b as [| c b IH]; intros H.
  - cbn. lia.
  - cbn [plain_text] in H. apply andb_true_iff in H as [Hc Hb].
    specialize (IH Hb). cbn [append lstrip].
    apply orb_true_iff in Hc as [Hc | Hc].
    + destruct (plain_char_facts c Hc) as (_ & _ & Sp & _).
      rewrite Sp. cbn [String.length].
      assert (L : String.length (b ++ String sq "]") = (String.length b + 2)%nat).
      { clear. induction b as [| d b IH]; [reflexivity | cbn; now rewrite IH]. }
      rewrite L. lia.
    + apply Ascii.eqb_eq in Hc. subst c. change (py_isspace " ") with true. cbv iota.
      cbn [String.length]. lia.
Qed.

Lemma length_tail (b : string) :
  String.length (b ++ String sq "]") = (String.length b + 2)%nat.
Proof. induction b as [| d b IH]; [reflexivity | cbn; now rewrite IH]. Qed.

(** After the apostrophe, the words of the stroke and the apostrophe that
    was meant to close it are tokens of their own. *)
Lemma scan_tail (b : string) :
  plain_text b = true ->
  forall skip, (skip <= String.length b)%nat ->
    exists ts, scan (b ++ String sq "]") skip = (ts ++ [Tok "]" ""])%list /\
               forallb word_token ts = true /\
               (1 <= List.length (names_of ts))%nat.
Proof.
  induction b as [| c b IH]; intros H skip Hs.
  - cbn in Hs. assert (skip = 0%nat) by lia. subst skip.
    exists [Tok "" (one sq)]. repeat split. cbn. lia.
  - pose proof H as H0. cbn [plain_text] in H. apply andb_true_iff in H as [Hc Hb].
    cbn [String.length] in Hs. cbn [append]. destruct skip as [| k].
    + cbn [scan]. apply orb_true_iff in Hc as [Hc | Hc].
      * destruct (plain_char_facts c Hc) as (N & O & Sp & Q & D & B & C & L).
        destruct (span_name_tail b Hb) as (nm & r & E & Ln & Cn).
        unfold token_at. rewrite Q, D. cbn [orb]. cbv iota. rewrite L, O.
        unfold name_token. rewrite B. cbv iota. unfold plain_name.
        cbn [span_name]. rewrite N, E. cbn [is_empty]. cbv iota beta.
        cbn [String.length Nat.sub]. rewrite Nat.sub_0_r.
        assert (Hw : word_token (Tok "" (String c nm)) = true).
        { cbn [word_token is_empty contains_char andb]. now rewrite C, Cn. }
        destruct (Nat.eq_dec (String.length nm) (S (String.length b))) as [En | En].
        -- rewrite En, scan_skip. exists [Tok "" (String c nm)]. split; [reflexivity |].
           split; [cbn [forallb]; now rewrite Hw | cbn; lia].
        -- destruct (IH Hb (String.length nm) ltac:(lia)) as (ts & Et & Ft & Ct).
           rewrite Et. exists (Tok "" (String c nm) :: ts). split; [reflexivity |]. split.
           ++ cbn [forallb]. now rewrite Hw, Ft.
           ++ cbn [names_of flat_map is_empty app List.length]. lia.
      * apply Ascii.eqb_eq in Hc. subst c.
        pose proof (lstrip_tail b Hb) as Ll. pose proof (length_tail b) as Lt.
        unfold token_at. change (Ascii.eqb " " sq || Ascii.eqb " " dq) with false. cbv iota.
        change (long_op " " (b ++ String sq "]")) with (@None (string * string)). cbv iota.
        change (single_op " ") with false. cbv iota.
        unfold name_token. change (Ascii.eqb " " "{") with false. cbv iota.
        unfold plain_name. cbn [span_name]. change (name_char " ") with false. cbv iota beta.
        cbn [is_empty]. cbv iota. change (py_isspace " ") with true. cbv iota.
        cbn [lstrip]. change (py_isspace " ") with true. cbv iota.
        cbn [String.length].
        destruct (IH Hb (S (String.length (b ++ String sq "]"))
                         - String.length (lstrip (b ++ String sq "]")) - 1)%nat ltac:(lia))
          as (ts & Et & Ft & Ct).
        rewrite Et. exists (Tok "" "" :: ts). split; [reflexivity |]. split; assumption.
    + cbn [scan]. apply (IH Hb). lia.
Qed.

Lemma tokenize_apostrophe (course gender a b : string) :
  no_quote course -> no_quote gender -> no_quote a ->
  tokenize (basetime_query course gender (a ++ String sq b))
  = ([Tok "." ""; Tok "/" ""; Tok "" "course"; Tok "[" ""; Tok "@" ""; Tok "" "type"; Tok "=" "";
      quoted (py_upper course);
      Tok "]" ""; Tok "/" ""; Tok "" "gender"; Tok "[" ""; Tok "@" ""; Tok "" "name"; Tok "=" "";
      quoted (py_capitalize gender);
      Tok "]" ""; Tok "/" ""; Tok "" "event"; Tok "[" ""; Tok "" "stroke"; Tok "=" "";
      quoted a] ++ scan (b ++ String sq "]") 0)%list.
Proof.
  intros Hc Hg Ha. unfold tokenize. rewrite basetime_query_shape.
  rewrite scan_course, (scan_quoted _ _ (no_quote_upper _ Hc)).
  rewrite scan_gender, (scan_quoted _ _ (no_quote_capitalize _ Hg)).
  rewrite scan_event.
  change ((a ++ String sq b) ++ String sq "]") with ((a ++ String sq b) ++ String sq "]").
  rewrite append_assoc. cbn [append].
  rewrite (scan_quoted _ _ Ha). reflexivity.
Qed.

Lemma compile_steps_S (f : nat) (t : token) (rest : list token) :
  compile_steps (S f) t rest
  = (sr <- prepare t rest ;;
     let '(st, rest') := sr in
     match rest' with
     | [] => Ok [st]
     | t1 :: r1 =>
         t1' <- check_token t1 ;;
         match t1' with
         | Tok ttype _ =>
             if String.eqb ttype "/" then
               match r1 with
               | [] => Ok [st]
               | t2 :: r2 =>
                   t2' <- check_token t2 ;;
                   more <- compile_steps f t2' r2 ;;
                   Ok (st :: more)
               end
             else
               more <- compile_steps f t1' r1 ;;
               Ok (st :: more)
         end
     end).
Proof. reflexivity. Qed.

Lemma find_apostrophe (root : Element) (course gender a b : string) :
  no_quote course -> no_quote gender -> no_quote a -> plain_text b = true ->
  Element_find root (basetime_query course gender (a ++ String sq b))
  = raise SyntaxError "invalid predicate".
Proof.
  intros Hc Hg Ha Hb. unfold Element_find, iterfind.
  rewrite query_no_slash.
  change (basetime_query course gender (a ++ String sq b))
    with (String "." (String "/" ("course[@type='" ++ py_upper course ++ "']/" ++
          "gender[@name='" ++ py_capitalize gender ++ "']/" ++
          "event[stroke='" ++ (a ++ String sq b) ++ "']"))) at 1.
  cbv iota beta. change (Ascii.eqb "." "/") with false. cbv iota.
  rewrite (tokenize_apostrophe _ _ _ _ Hc Hg Ha).
  destruct (scan_tail b Hb 0%nat ltac:(lia)) as (ts & Et & Ft & Ct).
  rewrite Et. unfold quoted.
  cbn [app List.length check_token bind].
  do 6 (rewrite compile_steps_S; cbn -[unquote compile_steps]).
  rewrite compile_steps_S. cbn -[unquote compile_steps].
  rewrite (read_words ts [] Ft). cbn [bind].
  destruct (List.length (names_of ts)) as [| k]; [lia |].
  reflexivity.
Qed.

(** X4: an apostrophe in the stroke is an error, not a miss: for every
    table, and every course and gender without an apostrophe, a stroke made
    of a text without an apostrophe, an apostrophe, and words of ASCII
    letters and digits with spaces between them (as in [Men's 50m]) makes
    find_basetime raise [SyntaxError], "invalid predicate", whatever the
    table holds. *)
Theorem find_basetime_apostrophe_words (root : Element) (course gender a b : string) :
  no_quote course -> no_quote gender -> no_quote a -> plain_text b = true ->
  find_basetime root course gender (a ++ String sq b)
  = raise SyntaxError "invalid predicate".
Proof.
  intros Hc Hg Ha Hb. unfold find_basetime.
  now rewrite (find_apostrophe root course gender a b Hc Hg Ha Hb).
Qed.

Lemma find_basetime_apostrophe_words_witness :
  find_basetime sample_table "scm" "men" ("Men" ++ String sq "s 50m")
  = raise SyntaxError "invalid predicate".
Proof.
  apply (find_basetime_apostrophe_words sample_table "scm" "men" "Men" "s 50m");
    reflexivity.
Defined.
